(** * Hourly occupancy and month-over-month comparison

    A shallow embedding of the realtime-analysis script of niho-analytics
    ([generateTimeSlots], [calculateHourlyOccupancy], [calculateTotalStats],
    [calculateComparison], [generateComparisonData]) together with the
    properties its specification states about it.

    Conventions of the embedding.
    - A JavaScript [Date] is its time value: milliseconds since the epoch,
      an integer ([Z]).  Only valid dates are modelled.
    - The host time zone is a fixed offset [tz] (milliseconds east of UTC),
      as for the "+0900" stamps of the data.  For a host whose offset
      changes (daylight saving time) the loop of generateTimeSlots is given
      a second time, in the module [Zoned].
    - Fractional numbers (durations in minutes, hours, averages) are exact
      rationals ([Qc]); binary floating-point rounding is not modelled.
    - JavaScript objects used as dictionaries are finite maps ([gmap]) keyed
      by strings, arrays are lists, [Set] is a finite set ([gset]).
    - The wall clock is an explicit component of the world that
      [new Date()] reads. *)

From Stdlib Require Import ZArith QArith Qcanon Qround Lia Lqa String Ascii List Sorted DecimalString.
From Stdlib Require DecimalPos DecimalZ.
From stdpp Require Import gmap strings list fin_maps numbers.

Local Open Scope string_scope.
Local Open Scope Z_scope.

(* ===================================================================== *)
(** * Part I: the program *)
(* ===================================================================== *)

(** ** Numbers *)

Definition Qc_ltb (x y : Qc) : bool :=
  match (x ?= y)%Qc with Lt => true | _ => false end.

Definition Qc_leb (x y : Qc) : bool :=
  match (x ?= y)%Qc with Gt => false | _ => true end.

Definition Qc_eqb (x y : Qc) : bool :=
  match (x ?= y)%Qc with Eq => true | _ => false end.

(** [Math.round]: the nearest integer, ties going up. *)
Definition Math_round (x : Qc) : Z := Qfloor (x + Q2Qc (1 # 2))%Qc.

(** [Math.round(x * 10) / 10]. *)
Definition round1 (x : Qc) : Qc :=
  (Qc_of_Z (Math_round (x * Qc_of_Z 10)) / Qc_of_Z 10)%Qc.

(** ** Strings *)

(** [String(n)] for an integer [n]. *)
Definition show_Z (z : Z) : string := NilZero.string_of_int (Z.to_int z).

Fixpoint replicate_char (n : nat) (c : ascii) : string :=
  match n with
  | O => EmptyString
  | S n' => String c (replicate_char n' c)
  end.

(** [s.padStart(n, c)]. *)
Definition padStart (s : string) (n : nat) (c : ascii) : string :=
  replicate_char (n - String.length s) c ++ s.

(** [String(n / 10)] for an integer number [n] of tenths: the integer part
    and, unless it is zero, one fractional digit. *)
Definition show_tenths (n : Z) : string :=
  let a := Z.abs n in
  (if n <? 0 then "-" else "") ++ show_Z (a / 10)
  ++ (if a mod 10 =? 0 then "" else "." ++ show_Z (a mod 10)).

(** [String(x)] for a number with at most one decimal place, which is what
    [Math.round(x * 10) / 10] yields. *)
Definition Number_toString (x : Qc) : string :=
  show_tenths (Qfloor (x * Qc_of_Z 10)%Qc).

(** [s.split('T')[0]]: the text before the first 'T'. *)
Fixpoint split_T_0 (s : string) : string :=
  match s with
  | EmptyString => EmptyString
  | String c s' => if Ascii.eqb c "T"%char then EmptyString else String c (split_T_0 s')
  end.

(** ** The Date built-ins (ECMAScript, section "Date Objects") *)

Module JSDate.

Definition msPerSecond : Z := 1000.
Definition msPerMinute : Z := 60000.
Definition msPerHour : Z := 3600000.
Definition msPerDay : Z := 86400000.

Definition Day (t : Z) : Z := t / msPerDay.
Definition TimeWithinDay (t : Z) : Z := t mod msPerDay.
Definition HourFromTime (t : Z) : Z := (t / msPerHour) mod 24.
Definition MinFromTime (t : Z) : Z := (t / msPerMinute) mod 60.
Definition SecFromTime (t : Z) : Z := (t / msPerSecond) mod 60.
Definition msFromTime (t : Z) : Z := t mod msPerSecond.

(** Day number of a proleptic Gregorian date; [m] is 1..12. *)
Definition days_from_civil (y m d : Z) : Z :=
  let y' := if m <=? 2 then y - 1 else y in
  let era := y' / 400 in
  let yoe := y' - era * 400 in
  let mp := (m + 9) mod 12 in
  let doy := (153 * mp + 2) / 5 + d - 1 in
  let doe := yoe * 365 + yoe / 4 - yoe / 100 + doy in
  era * 146097 + doe - 719468.

(** Year, month (1..12) and day of the month of a day number. *)
Definition civil_from_days (z : Z) : Z * Z * Z :=
  let z' := z + 719468 in
  let era := z' / 146097 in
  let doe := z' - era * 146097 in
  let yoe := (doe - doe / 1460 + doe / 36524 - doe / 146096) / 365 in
  let y := yoe + era * 400 in
  let doy := doe - (365 * yoe + yoe / 4 - yoe / 100) in
  let mp := (5 * doy + 2) / 153 in
  let d := doy - (153 * mp + 2) / 5 + 1 in
  let m := if mp <? 10 then mp + 3 else mp - 9 in
  (if m <=? 2 then y + 1 else y, m, d).

Definition YearFromTime (t : Z) : Z := (civil_from_days (Day t)).1.1.
(** 0-based, as in ECMAScript. *)
Definition MonthFromTime (t : Z) : Z := (civil_from_days (Day t)).1.2 - 1.
Definition DateFromTime (t : Z) : Z := (civil_from_days (Day t)).2.

(** [MakeDay(year, month, date)]: [month] is 0-based and may overflow
    into the neighbouring years, [date] may overflow into the
    neighbouring months. *)
Definition MakeDay (year month date : Z) : Z :=
  let ym := year + month / 12 in
  let mn := month mod 12 in
  days_from_civil ym (mn + 1) 1 + date - 1.

Definition MakeTime (h m s ms : Z) : Z :=
  h * msPerHour + m * msPerMinute + s * msPerSecond + ms.

Definition MakeDate (day time : Z) : Z := day * msPerDay + time.

Section Zone.
(** Offset of local time from UTC, in milliseconds. *)
Variable tz : Z.

Definition LocalTime (t : Z) : Z := t + tz.
Definition UTC (t : Z) : Z := t - tz.

Definition getFullYear (t : Z) : Z := YearFromTime (LocalTime t).
Definition getMonth (t : Z) : Z := MonthFromTime (LocalTime t).
Definition getDate (t : Z) : Z := DateFromTime (LocalTime t).
Definition getHours (t : Z) : Z := HourFromTime (LocalTime t).

(** [d.setHours(h, m, s, ms)]: the new time value. *)
Definition setHours (t h m s ms : Z) : Z :=
  UTC (MakeDate (Day (LocalTime t)) (MakeTime h m s ms)).

(** [new Date(year, month, date, hours, minutes, seconds)]; a year
    between 0 and 99 stands for 1900 + year. *)
Definition construct (year month date hours minutes seconds : Z) : Z :=
  let yr := if (0 <=? year) && (year <=? 99) then 1900 + year else year in
  UTC (MakeDate (MakeDay yr month date) (MakeTime hours minutes seconds 0)).
End Zone.

Definition pad (n : nat) (z : Z) : string := padStart (show_Z z) n "0"%char.

Definition iso_year (y : Z) : string :=
  if (0 <=? y) && (y <=? 9999) then pad 4 y
  else (if y <? 0 then "-" else "+") ++ pad 6 (Z.abs y).

(** [d.toISOString()]: always in UTC. *)
Definition toISOString (t : Z) : string :=
  iso_year (YearFromTime t) ++ "-" ++ pad 2 (MonthFromTime t + 1) ++ "-"
  ++ pad 2 (DateFromTime t) ++ "T" ++ pad 2 (HourFromTime t) ++ ":"
  ++ pad 2 (MinFromTime t) ++ ":" ++ pad 2 (SecFromTime t) ++ "."
  ++ pad 3 (msFromTime t) ++ "Z".

End JSDate.

(** ** generateTimeSlots *)

Module Slot.
(** [checkin] and [checkout] hold the time values whose ISO renderings
    the source stores. *)
Record t := mk {
  date : string;
  hour : Z;
  dateHour : string;
  duration : Qc;
  checkin : Z;
  checkout : Z
}.
End Slot.

Section Decomposer.
Variable tz : Z.

(** One turn of the [while] loop: the end of the slot that starts at
    [current], and the slot itself. *)
Definition slotEnd_of (current : Z) : Z :=
  JSDate.setHours tz current (JSDate.getHours tz current + 1) 0 0 0.

Definition actualEnd_of (current checkout : Z) : Z :=
  let slotEnd := slotEnd_of current in
  if slotEnd >? checkout then checkout else slotEnd.

Definition duration_of (current checkout : Z) : Qc :=
  (Qc_of_Z (actualEnd_of current checkout - current) / Qc_of_Z (1000 * 60))%Qc.

Definition slot_at (current checkout : Z) : Slot.t :=
  let day := split_T_0 (JSDate.toISOString current) in
  {| Slot.date := day;
     Slot.hour := JSDate.getHours tz current;
     Slot.dateHour :=
       day ++ "-" ++ padStart (show_Z (JSDate.getHours tz current)) 2 "0"%char;
     Slot.duration := duration_of current checkout;
     Slot.checkin := current;
     Slot.checkout := actualEnd_of current checkout |}.

(** The loop [while (current < checkout)], with [fuel] bounding the
    number of turns; [None] when the fuel runs out first. *)
Fixpoint slots_loop (fuel : nat) (current checkout : Z) : option (list Slot.t) :=
  if current <? checkout then
    match fuel with
    | O => None
    | S fuel' =>
        match slots_loop fuel' (slotEnd_of current) checkout with
        | None => None
        | Some rest =>
            Some (if Qc_ltb 0 (duration_of current checkout)
                  then slot_at current checkout :: rest
                  else rest)
        end
    end
  else Some [].

(** Turns that always suffice: one per started hour. *)
Definition turns (checkin checkout : Z) : nat :=
  Z.to_nat ((checkout - checkin) / JSDate.msPerHour + 2).

Definition generateTimeSlots (checkin checkout : Z) : list Slot.t :=
  default [] (slots_loop (turns checkin checkout) checkin checkout).

End Decomposer.

(** ** calculateHourlyOccupancy *)

Module Row.
(** A CSV row as the analysis reads it: [customerName] is the column
    顧客名; [checkinTime] the instant that [parseDateTime] (that is
    [new Date(text)]) yields for the column チェックイン日時;
    [checkoutTime] the same for チェックアウト日時, [None] when the column
    is missing or empty; [stayTime] the three numbers of the hh:mm:ss text
    of the column 滞在時間. *)
Record t := mk {
  customerName : string;
  checkinTime : Z;
  checkoutTime : option Z;
  stayTime : Z * Z * Z
}.
End Row.

Module User.
Record t := mk { name : string; duration : Qc }.
End User.

Module Bucket.
Record t := mk { count : Z; totalMinutes : Qc; users : list User.t }.
End Bucket.

Module DayAcc.
(** A day's statistics while the records are being read. *)
Record t := mk { totalHours : Qc; totalSessions : Z; uniqueUsers : gset string }.
End DayAcc.

Module DailyStat.
(** A day's statistics as returned: the set replaced by its size. *)
Record t := mk { totalHours : Qc; totalSessions : Z; uniqueUsers : Z }.
End DailyStat.

Module SlotDetail.
Record t := mk { slot : Slot.t; customerName : string; originalStayMinutes : Qc }.
End SlotDetail.

Module Acc.
(** The three accumulators that the loop over the records mutates. *)
Record t := mk {
  hourlyOccupancy : gmap string Bucket.t;
  dailyStats : gmap string DayAcc.t;
  allTimeSlots : list SlotDetail.t
}.
End Acc.

Module MonthData.
Record t := mk {
  hourlyOccupancy : gmap string Bucket.t;
  dailyStats : gmap string DailyStat.t;
  allTimeSlots : list SlotDetail.t
}.
End MonthData.

(** How the body of a callback ends: it runs to its end, leaves through
    [return], or throws. *)
Inductive completion (A : Type) : Type :=
| Normal (a : A)
| Return
| Throw (message : string).
Arguments Normal {A} a.
Arguments Return {A}.
Arguments Throw {A} message.

(** [new Date(dateStr)]: a row carries the instant that the text denotes. *)
Definition parseDateTime (time : Z) : Z := time.

(** [hours * 60 + minutes + seconds / 60]. *)
Definition parseStayTime (timeStr : Z * Z * Z) : Qc :=
  let '(hours, minutes, seconds) := timeStr in
  (Qc_of_Z hours * Qc_of_Z 60 + Qc_of_Z minutes + Qc_of_Z seconds / Qc_of_Z 60)%Qc.

Definition emptyBucket : Bucket.t :=
  {| Bucket.count := 0; Bucket.totalMinutes := Qc_of_Z 0; Bucket.users := [] |}.

(** [count++], [totalMinutes += duration], [users.push(...)]. *)
Definition enter (customer : string) (d : Qc) (b : Bucket.t) : Bucket.t :=
  {| Bucket.count := Bucket.count b + 1;
     Bucket.totalMinutes := (Bucket.totalMinutes b + d)%Qc;
     Bucket.users := (Bucket.users b ++ [User.mk customer d])%list |}.

(** The callback of [timeSlots.forEach]. *)
Definition countSlot (customer : string)
    (hourlyOccupancy : gmap string Bucket.t) (slot : Slot.t) : gmap string Bucket.t :=
  let materialized :=
    match hourlyOccupancy !! Slot.dateHour slot with
    | None => <[Slot.dateHour slot := emptyBucket]> hourlyOccupancy
    | Some _ => hourlyOccupancy
    end in
  alter (enter customer (Slot.duration slot)) (Slot.dateHour slot) materialized.

Definition emptyDay : DayAcc.t :=
  {| DayAcc.totalHours := Qc_of_Z 0; DayAcc.totalSessions := 0; DayAcc.uniqueUsers := ∅ |}.

Definition visit (customer : string) (stayMinutes : Qc) (d : DayAcc.t) : DayAcc.t :=
  {| DayAcc.totalHours := (DayAcc.totalHours d + stayMinutes / Qc_of_Z 60)%Qc;
     DayAcc.totalSessions := DayAcc.totalSessions d + 1;
     DayAcc.uniqueUsers := DayAcc.uniqueUsers d ∪ {[ customer ]} |}.

Definition countDay (customer : string) (stayMinutes : Qc) (day : string)
    (dailyStats : gmap string DayAcc.t) : gmap string DayAcc.t :=
  let materialized :=
    match dailyStats !! day with
    | None => <[day := emptyDay]> dailyStats
    | Some _ => dailyStats
    end in
  alter (visit customer stayMinutes) day materialized.

Section Aggregation.
Variable tz : Z.

(** The [try] block of the callback of [records.forEach].  [checkout] is
    declared with [const]; the assignment that derives it from the stay
    is therefore a TypeError at run time. *)
Definition recordBody (acc : Acc.t) (record : Row.t) : completion Acc.t :=
  let checkin := parseDateTime (Row.checkinTime record) in
  let checkout := parseDateTime <$> Row.checkoutTime record in
  let stayMinutes := parseStayTime (Row.stayTime record) in
  match checkout with
  | None =>
      if Qc_ltb 0 stayMinutes
      then Throw "Assignment to constant variable."
      else Return
  | Some checkout =>
      if Qc_leb stayMinutes 0 then Return
      else
        let timeSlots := generateTimeSlots tz checkin checkout in
        let customer := Row.customerName record in
        Normal
          {| Acc.allTimeSlots :=
               (Acc.allTimeSlots acc
                ++ map (λ slot, SlotDetail.mk slot customer stayMinutes) timeSlots)%list;
             Acc.hourlyOccupancy :=
               fold_left (countSlot customer) timeSlots (Acc.hourlyOccupancy acc);
             Acc.dailyStats :=
               countDay customer stayMinutes
                 (split_T_0 (JSDate.toISOString checkin)) (Acc.dailyStats acc) |}
  end.

(** The callback with its [try]/[catch]: a record that is skipped or
    whose processing throws leaves the accumulators as they were. *)
Definition processRecord (acc : Acc.t) (record : Row.t) : Acc.t :=
  match recordBody acc record with
  | Normal acc' => acc'
  | Return => acc
  | Throw _ => acc
  end.

Definition emptyAcc : Acc.t :=
  {| Acc.hourlyOccupancy := ∅; Acc.dailyStats := ∅; Acc.allTimeSlots := [] |}.

Definition accumulate (records : list Row.t) : Acc.t :=
  fold_left processRecord records emptyAcc.

Definition closeDay (d : DayAcc.t) : DailyStat.t :=
  {| DailyStat.totalHours := DayAcc.totalHours d;
     DailyStat.totalSessions := DayAcc.totalSessions d;
     DailyStat.uniqueUsers := Z.of_nat (size (DayAcc.uniqueUsers d)) |}.

Definition calculateHourlyOccupancy (records : list Row.t) : MonthData.t :=
  let acc := accumulate records in
  {| MonthData.hourlyOccupancy := Acc.hourlyOccupancy acc;
     MonthData.dailyStats := closeDay <$> Acc.dailyStats acc;
     MonthData.allTimeSlots := Acc.allTimeSlots acc |}.

End Aggregation.

(** ** calculateTotalStats *)

Module TotalStats.
Record t := mk {
  totalHours : Qc;
  manHours : Qc;
  uniqueUsers : Z;
  totalSessions : Z;
  peakOccupancy : Z;
  averageOccupancy : Qc;
  activeDays : Z
}.
End TotalStats.

(** [Object.values(m).reduce((sum, x) => sum + f(x), 0)]. *)
Definition sumValues {A : Type} (f : A → Qc) (m : gmap string A) : Qc :=
  map_fold (λ _ x sum, (sum + f x)%Qc) (Qc_of_Z 0) m.

(** [Math.max(...Object.values(m).map(f), 0)]. *)
Definition maxValues {A : Type} (f : A → Z) (m : gmap string A) : Z :=
  map_fold (λ _ x best, Z.max best (f x)) 0 m.

Definition calculateTotalStats (monthData : MonthData.t) (records : list Row.t)
    : TotalStats.t :=
  let hourlyOccupancy := MonthData.hourlyOccupancy monthData in
  let dailyStats := MonthData.dailyStats monthData in
  let totalHours := sumValues DailyStat.totalHours dailyStats in
  let manHours := Z.of_nat (length records) in
  let uniqueUsers :=
    Z.of_nat (size (list_to_set (map Row.customerName records) : gset string)) in
  let totalSessions := Z.of_nat (length records) in
  let peakOccupancy := maxValues Bucket.count hourlyOccupancy in
  let averageOccupancy :=
    if Z.of_nat (size hourlyOccupancy) >? 0
    then (sumValues (λ h, Qc_of_Z (Bucket.count h)) hourlyOccupancy
          / Qc_of_Z (Z.of_nat (size hourlyOccupancy)))%Qc
    else Qc_of_Z 0 in
  {| TotalStats.totalHours := round1 totalHours;
     TotalStats.manHours := round1 (Qc_of_Z manHours);
     TotalStats.uniqueUsers := uniqueUsers;
     TotalStats.totalSessions := totalSessions;
     TotalStats.peakOccupancy := peakOccupancy;
     TotalStats.averageOccupancy := round1 averageOccupancy;
     TotalStats.activeDays := Z.of_nat (size dailyStats) |}.

(** ** calculateComparison *)

Module Comparison.
Record t := mk {
  totalHoursChange : string;
  manHoursChange : string;
  uniqueUsersChange : string;
  totalSessionsChange : string;
  peakOccupancyChange : string;
  averageOccupancyChange : string
}.
End Comparison.

Definition calculateChange (curr prev : Qc) : string :=
  if Qc_eqb prev (Qc_of_Z 0) then (if Qc_ltb (Qc_of_Z 0) curr then "+∞%" else "0%")
  else
    let change := ((curr - prev) / prev * Qc_of_Z 100)%Qc in
    (if Qc_leb (Qc_of_Z 0) change then "+" else "")
    ++ Number_toString (round1 change) ++ "%".

Definition calculateDifference (curr prev : Z) : string :=
  let diff := curr - prev in
  (if diff >=? 0 then "+" else "") ++ show_Z diff.

Definition calculateComparison (current previous : TotalStats.t) : Comparison.t :=
  {| Comparison.totalHoursChange :=
       calculateChange (TotalStats.totalHours current) (TotalStats.totalHours previous);
     Comparison.manHoursChange :=
       calculateChange (TotalStats.manHours current) (TotalStats.manHours previous);
     Comparison.uniqueUsersChange :=
       calculateDifference (TotalStats.uniqueUsers current) (TotalStats.uniqueUsers previous);
     Comparison.totalSessionsChange :=
       calculateDifference (TotalStats.totalSessions current) (TotalStats.totalSessions previous);
     Comparison.peakOccupancyChange :=
       calculateDifference (TotalStats.peakOccupancy current) (TotalStats.peakOccupancy previous);
     Comparison.averageOccupancyChange :=
       calculateChange (TotalStats.averageOccupancy current)
         (TotalStats.averageOccupancy previous) |}.

(** ** generateComparisonData *)

(** The world outside the program: the wall clock, as the sequence of the
    readings that successive [new Date()] calls obtain. *)
Module World.
Record t := mk { wallClock : nat → Z; reads : nat }.
End World.

Definition IO (A : Type) : Type := World.t → A * World.t.

Global Instance IO_ret : MRet IO := λ A a w, (a, w).

Global Instance IO_bind : MBind IO :=
  λ A B k m w, let '(a, w') := m w in k a w'.

(** [new Date()]: reads the wall clock. *)
Definition Date_now : IO Z :=
  λ w, (World.wallClock w (World.reads w),
        {| World.wallClock := World.wallClock w; World.reads := S (World.reads w) |}).

Module Metadata.
Record t := mk {
  generatedAt : string;
  currentPeriod : string;
  previousPeriod : string;
  comparisonDays : Z
}.
End Metadata.

Module MonthReport.
Record t := mk {
  period : string;
  records : Z;
  hourlyOccupancy : gmap string Bucket.t;
  dailyStats : gmap string DailyStat.t;
  allTimeSlots : list SlotDetail.t;
  totalStats : TotalStats.t
}.
End MonthReport.

Module Report.
Record t := mk {
  metadata : Metadata.t;
  currentMonth : MonthReport.t;
  previousMonth : MonthReport.t;
  comparison : Comparison.t
}.
End Report.

Section Comparator.
Variable tz : Z.

Definition currentMonth_of (currentDate : Z) : Z := JSDate.getMonth tz currentDate + 1.
Definition currentYear_of (currentDate : Z) : Z := JSDate.getFullYear tz currentDate.
Definition currentDay_of (currentDate : Z) : Z := JSDate.getDate tz currentDate.

Definition previousMonth_of (currentDate : Z) : Z :=
  let currentMonth := currentMonth_of currentDate in
  if currentMonth =? 1 then 12 else currentMonth - 1.

Definition previousYear_of (currentDate : Z) : Z :=
  if currentMonth_of currentDate =? 1
  then currentYear_of currentDate - 1 else currentYear_of currentDate.

Definition currentMonthStart (currentDate : Z) : Z :=
  JSDate.construct tz (currentYear_of currentDate) (currentMonth_of currentDate - 1) 1 0 0 0.

Definition currentMonthEnd (currentDate : Z) : Z :=
  JSDate.construct tz (currentYear_of currentDate) (currentMonth_of currentDate - 1)
    (currentDay_of currentDate) 23 59 59.

Definition previousMonthStart (currentDate : Z) : Z :=
  JSDate.construct tz (previousYear_of currentDate) (previousMonth_of currentDate - 1) 1 0 0 0.

Definition previousMonthEnd (currentDate : Z) : Z :=
  JSDate.construct tz (previousYear_of currentDate) (previousMonth_of currentDate - 1)
    (currentDay_of currentDate) 23 59 59.

(** [checkin >= start && checkin <= end]. *)
Definition within (start finish : Z) (record : Row.t) : bool :=
  let checkin := parseDateTime (Row.checkinTime record) in
  (checkin >=? start) && (checkin <=? finish).

Definition currentMonthRecords (currentDate : Z) (records : list Row.t) : list Row.t :=
  List.filter (within (currentMonthStart currentDate) (currentMonthEnd currentDate)) records.

Definition previousMonthRecords (currentDate : Z) (records : list Row.t) : list Row.t :=
  List.filter (within (previousMonthStart currentDate) (previousMonthEnd currentDate)) records.

Definition pad2 (z : Z) : string := padStart (show_Z z) 2 "0"%char.

Definition monthReport (period : string) (records : list Row.t) : MonthReport.t :=
  let monthData := calculateHourlyOccupancy tz records in
  {| MonthReport.period := period;
     MonthReport.records := Z.of_nat (length records);
     MonthReport.hourlyOccupancy := MonthData.hourlyOccupancy monthData;
     MonthReport.dailyStats := MonthData.dailyStats monthData;
     MonthReport.allTimeSlots := MonthData.allTimeSlots monthData;
     MonthReport.totalStats := calculateTotalStats monthData records |}.

Definition generateComparisonData (records : list Row.t) : IO Report.t :=
  currentDate ← Date_now;
  let currentMonth := currentMonth_of currentDate in
  let currentYear := currentYear_of currentDate in
  let currentDay := currentDay_of currentDate in
  let previousMonth := previousMonth_of currentDate in
  let previousYear := previousYear_of currentDate in
  let current :=
    monthReport (show_Z currentYear ++ "-" ++ pad2 currentMonth)
      (currentMonthRecords currentDate records) in
  let previous :=
    monthReport (show_Z previousYear ++ "-" ++ pad2 previousMonth)
      (previousMonthRecords currentDate records) in
  let comparison :=
    calculateComparison (MonthReport.totalStats current) (MonthReport.totalStats previous) in
  generated ← Date_now;
  mret {| Report.metadata :=
           {| Metadata.generatedAt := JSDate.toISOString generated;
              Metadata.currentPeriod :=
                show_Z currentYear ++ "-" ++ pad2 currentMonth ++ "-01 to "
                ++ show_Z currentYear ++ "-" ++ pad2 currentMonth ++ "-" ++ pad2 currentDay;
              Metadata.previousPeriod :=
                show_Z previousYear ++ "-" ++ pad2 previousMonth ++ "-01 to "
                ++ show_Z previousYear ++ "-" ++ pad2 previousMonth ++ "-" ++ pad2 currentDay;
              Metadata.comparisonDays := currentDay |};
         Report.currentMonth := current;
         Report.previousMonth := previous;
         Report.comparison := comparison |}.

End Comparator.


(** ** The analysis by time of day and by day of the week

    The time-analysis script: [getYearMonth], [getTimeSlot], [getDayOfWeek],
    [getDayName], the record that [loadCSV] builds from a parsed row,
    [analyzeTimeSlots], [analyzeDayOfWeek] and [compareMultipleMonths].  A
    function that can throw returns an [option], [None] standing for the
    exception. *)

(** The four answers of [getTimeSlot]: 'morning', 'afternoon', 'evening'
    and 'other'. *)
Inductive TimeSlot : Type := morning | afternoon | evening | other.

Global Instance TimeSlot_eq_dec : EqDecision TimeSlot.
Proof. solve_decision. Defined.

Definition getTimeSlot (hour : Z) : TimeSlot :=
  if (hour >=? 8) && (hour <? 12) then morning
  else if (hour >=? 12) && (hour <? 18) then afternoon
  else if (hour >=? 18) && (hour <? 23) then evening
  else other.

(** [WeekDay(t)] of ECMAScript: 0 is Sunday. *)
Definition WeekDay (t : Z) : Z := (JSDate.Day t + 4) mod 7.

Definition getDayName (dayIndex : Z) : option string :=
  if dayIndex <? 0 then None
  else ["日曜日"; "月曜日"; "火曜日"; "水曜日"; "木曜日"; "金曜日"; "土曜日"]
         !! Z.to_nat dayIndex.

Module Visit.
(** A record as [loadCSV] builds it. *)
Record t := mk {
  checkinDate : Z;
  stayTime : Qc;
  userId : string;
  yearMonth : string;
  hour : Z;
  dayOfWeek : Z;
  timeSlot : TimeSlot
}.
End Visit.

Module SlotStats.
Record t := mk { sessions : list Visit.t; users : gset string; totalHours : Qc }.
End SlotStats.

Module TimeSlotStats.
Record t := mk { morning : SlotStats.t; afternoon : SlotStats.t; evening : SlotStats.t }.
End TimeSlotStats.

Module DayOccupancy.
Record t := mk { morning : Z; afternoon : Z; evening : Z }.
End DayOccupancy.

Module SlotAverage.
Record t := mk {
  averageOccupancy : Qc;
  totalSessions : Z;
  uniqueUsers : Z;
  totalHours : Qc;
  averageSessionLength : Qc
}.
End SlotAverage.

Module TimeSlotAverages.
Record t := mk { morning : SlotAverage.t; afternoon : SlotAverage.t; evening : SlotAverage.t }.
End TimeSlotAverages.

Module TimeSlotAnalysis.
Record t := mk {
  timeSlotAverages : TimeSlotAverages.t;
  dailyOccupancy : gmap string DayOccupancy.t;
  daysAnalyzed : Z;
  totalRecords : Z
}.
End TimeSlotAnalysis.

Module WeekdayStats.
Record t := mk {
  sessions : list Visit.t;
  users : gset string;
  totalHours : Qc;
  dates : gset string
}.
End WeekdayStats.

Module WeekdayAverage.
Record t := mk {
  dayName : option string;
  averageOccupancy : Qc;
  totalSessions : Z;
  uniqueUsers : Z;
  totalHours : Qc;
  daysAnalyzed : Z;
  averageSessionLength : Qc
}.
End WeekdayAverage.

(** [timeSlotStats[slot]] and [dailyOccupancy[dateKey][slot]], for the three
    slots that the objects have. *)
Definition slotStats (slot : TimeSlot) (stats : TimeSlotStats.t) : SlotStats.t :=
  match slot with
  | morning => TimeSlotStats.morning stats
  | afternoon => TimeSlotStats.afternoon stats
  | _ => TimeSlotStats.evening stats
  end.

Definition slotCount (slot : TimeSlot) (day : DayOccupancy.t) : Z :=
  match slot with
  | morning => DayOccupancy.morning day
  | afternoon => DayOccupancy.afternoon day
  | _ => DayOccupancy.evening day
  end.

(** [sessions.push(record)], [users.add(userId)], [totalHours += stayTime / 60]. *)
Definition attend (record : Visit.t) (s : SlotStats.t) : SlotStats.t :=
  {| SlotStats.sessions := SlotStats.sessions s ++ [record];
     SlotStats.users := SlotStats.users s ∪ {[ Visit.userId record ]};
     SlotStats.totalHours := (SlotStats.totalHours s + Visit.stayTime record / Qc_of_Z 60)%Qc |}.

Definition attendSlot (slot : TimeSlot) (record : Visit.t) (stats : TimeSlotStats.t)
    : TimeSlotStats.t :=
  match slot with
  | morning =>
      {| TimeSlotStats.morning := attend record (TimeSlotStats.morning stats);
         TimeSlotStats.afternoon := TimeSlotStats.afternoon stats;
         TimeSlotStats.evening := TimeSlotStats.evening stats |}
  | afternoon =>
      {| TimeSlotStats.morning := TimeSlotStats.morning stats;
         TimeSlotStats.afternoon := attend record (TimeSlotStats.afternoon stats);
         TimeSlotStats.evening := TimeSlotStats.evening stats |}
  | _ =>
      {| TimeSlotStats.morning := TimeSlotStats.morning stats;
         TimeSlotStats.afternoon := TimeSlotStats.afternoon stats;
         TimeSlotStats.evening := attend record (TimeSlotStats.evening stats) |}
  end.

(** [dailyOccupancy[dateKey][slot]++]. *)
Definition bump (slot : TimeSlot) (day : DayOccupancy.t) : DayOccupancy.t :=
  match slot with
  | morning =>
      {| DayOccupancy.morning := DayOccupancy.morning day + 1;
         DayOccupancy.afternoon := DayOccupancy.afternoon day;
         DayOccupancy.evening := DayOccupancy.evening day |}
  | afternoon =>
      {| DayOccupancy.morning := DayOccupancy.morning day;
         DayOccupancy.afternoon := DayOccupancy.afternoon day + 1;
         DayOccupancy.evening := DayOccupancy.evening day |}
  | _ =>
      {| DayOccupancy.morning := DayOccupancy.morning day;
         DayOccupancy.afternoon := DayOccupancy.afternoon day;
         DayOccupancy.evening := DayOccupancy.evening day + 1 |}
  end.

Definition emptySlotStats : SlotStats.t :=
  {| SlotStats.sessions := []; SlotStats.users := ∅; SlotStats.totalHours := Qc_of_Z 0 |}.

Definition emptyDayOccupancy : DayOccupancy.t :=
  {| DayOccupancy.morning := 0; DayOccupancy.afternoon := 0; DayOccupancy.evening := 0 |}.

(** The callback of [monthRecords.forEach] in analyzeTimeSlots. *)
Definition countTimeSlot (state : TimeSlotStats.t * gmap string DayOccupancy.t)
    (record : Visit.t) : TimeSlotStats.t * gmap string DayOccupancy.t :=
  let '(stats, dailyOccupancy) := state in
  let timeSlot := Visit.timeSlot record in
  if decide (timeSlot = other) then state
  else
    let dateKey := split_T_0 (JSDate.toISOString (Visit.checkinDate record)) in
    let materialized :=
      match dailyOccupancy !! dateKey with
      | None => <[dateKey := emptyDayOccupancy]> dailyOccupancy
      | Some _ => dailyOccupancy
      end in
    (attendSlot timeSlot record stats, alter (bump timeSlot) dateKey materialized).

Definition slotAverage (slot : TimeSlot) (stats : TimeSlotStats.t)
    (dailyOccupancy : gmap string DayOccupancy.t) : SlotAverage.t :=
  let daysInMonth := Z.of_nat (size dailyOccupancy) in
  let s := slotStats slot stats in
  let averageOccupancy :=
    if daysInMonth >? 0
    then (sumValues (λ day, Qc_of_Z (slotCount slot day)) dailyOccupancy
          / Qc_of_Z daysInMonth)%Qc
    else Qc_of_Z 0 in
  let sessions := Z.of_nat (length (SlotStats.sessions s)) in
  {| SlotAverage.averageOccupancy := round1 averageOccupancy;
     SlotAverage.totalSessions := sessions;
     SlotAverage.uniqueUsers := Z.of_nat (size (SlotStats.users s));
     SlotAverage.totalHours := round1 (SlotStats.totalHours s);
     SlotAverage.averageSessionLength :=
       if sessions >? 0
       then round1 (SlotStats.totalHours s / Qc_of_Z sessions)%Qc
       else Qc_of_Z 0 |}.

Definition analyzeTimeSlots (records : list Visit.t) (targetMonth : string)
    : TimeSlotAnalysis.t :=
  let monthRecords :=
    List.filter (λ r, bool_decide (Visit.yearMonth r = targetMonth)) records in
  let timeSlotStats :=
    {| TimeSlotStats.morning := emptySlotStats;
       TimeSlotStats.afternoon := emptySlotStats;
       TimeSlotStats.evening := emptySlotStats |} in
  let '(stats, dailyOccupancy) :=
    fold_left countTimeSlot monthRecords (timeSlotStats, ∅) in
  {| TimeSlotAnalysis.timeSlotAverages :=
       {| TimeSlotAverages.morning := slotAverage morning stats dailyOccupancy;
          TimeSlotAverages.afternoon := slotAverage afternoon stats dailyOccupancy;
          TimeSlotAverages.evening := slotAverage evening stats dailyOccupancy |};
     TimeSlotAnalysis.dailyOccupancy := dailyOccupancy;
     TimeSlotAnalysis.daysAnalyzed := Z.of_nat (size dailyOccupancy);
     TimeSlotAnalysis.totalRecords := Z.of_nat (length monthRecords) |}.

Definition emptyWeekdayStats : WeekdayStats.t :=
  {| WeekdayStats.sessions := []; WeekdayStats.users := ∅;
     WeekdayStats.totalHours := Qc_of_Z 0; WeekdayStats.dates := ∅ |}.

(** [dayStats] as the loop [for (let i = 0; i < 7; i++)] leaves it. *)
Definition initialDayStats : gmap Z WeekdayStats.t :=
  list_to_map ((λ i, (i, emptyWeekdayStats)) <$> [0; 1; 2; 3; 4; 5; 6]).

(** The callback of [monthRecords.forEach] in analyzeDayOfWeek; [None]
    stands for the TypeError of reading a property of [undefined], which
    [dayStats[dayOfWeek]] is for a day outside 0..6. *)
Definition countWeekday (dayStats : gmap Z WeekdayStats.t) (record : Visit.t)
    : option (gmap Z WeekdayStats.t) :=
  let dateKey := split_T_0 (JSDate.toISOString (Visit.checkinDate record)) in
  match dayStats !! Visit.dayOfWeek record with
  | None => None
  | Some s =>
      Some (<[Visit.dayOfWeek record :=
                {| WeekdayStats.sessions := WeekdayStats.sessions s ++ [record];
                   WeekdayStats.users := WeekdayStats.users s ∪ {[ Visit.userId record ]};
                   WeekdayStats.totalHours :=
                     (WeekdayStats.totalHours s + Visit.stayTime record / Qc_of_Z 60)%Qc;
                   WeekdayStats.dates := WeekdayStats.dates s ∪ {[ dateKey ]} |}]> dayStats)
  end.

Fixpoint countWeekdays (dayStats : gmap Z WeekdayStats.t) (records : list Visit.t)
    : option (gmap Z WeekdayStats.t) :=
  match records with
  | [] => Some dayStats
  | record :: rest =>
      match countWeekday dayStats record with
      | None => None
      | Some dayStats' => countWeekdays dayStats' rest
      end
  end.

Definition weekdayAverage (day : Z) (s : WeekdayStats.t) : WeekdayAverage.t :=
  let daysCount := Z.of_nat (size (WeekdayStats.dates s)) in
  let sessions := Z.of_nat (length (WeekdayStats.sessions s)) in
  {| WeekdayAverage.dayName := getDayName day;
     WeekdayAverage.averageOccupancy :=
       if daysCount >? 0
       then round1 (Qc_of_Z sessions / Qc_of_Z daysCount)%Qc
       else Qc_of_Z 0;
     WeekdayAverage.totalSessions := sessions;
     WeekdayAverage.uniqueUsers := Z.of_nat (size (WeekdayStats.users s));
     WeekdayAverage.totalHours := round1 (WeekdayStats.totalHours s);
     WeekdayAverage.daysAnalyzed := daysCount;
     WeekdayAverage.averageSessionLength :=
       if sessions >? 0
       then round1 (WeekdayStats.totalHours s / Qc_of_Z sessions)%Qc
       else Qc_of_Z 0 |}.

(** [None] when the function throws. *)
Definition analyzeDayOfWeek (records : list Visit.t) (targetMonth : string)
    : option (gmap Z WeekdayAverage.t) :=
  let monthRecords :=
    List.filter (λ r, bool_decide (Visit.yearMonth r = targetMonth)) records in
  match countWeekdays initialDayStats monthRecords with
  | None => None
  | Some dayStats => Some (map_imap (λ day s, Some (weekdayAverage day s)) dayStats)
  end.

Section Loading.
Variable tz : Z.

Definition getYearMonth (date : Z) : string :=
  show_Z (JSDate.getFullYear tz date) ++ "-"
  ++ padStart (show_Z (JSDate.getMonth tz date + 1)) 2 "0"%char.

(** [date.getDay()]. *)
Definition getDayOfWeek (date : Z) : Z := WeekDay (JSDate.LocalTime tz date).

(** What the 'data' handler of [loadCSV] does with a row whose checkin is a
    valid date, given the instant [checkinDate] of that date and the stay
    in minutes: the row is kept when the stay is positive.  (A row without
    checkin is dropped.  A checkin text that is no date gives an Invalid
    Date object, which passes the test [checkinDate &&]: that row is kept
    with a yearMonth of "NaN-NaN", and is not modelled here.) *)
Definition loadRecord (checkinDate : Z) (stayTime : Qc) (userId : string)
    : option Visit.t :=
  if Qc_ltb 0 stayTime
  then Some {| Visit.checkinDate := checkinDate;
               Visit.stayTime := stayTime;
               Visit.userId := userId;
               Visit.yearMonth := getYearMonth checkinDate;
               Visit.hour := JSDate.getHours tz checkinDate;
               Visit.dayOfWeek := getDayOfWeek checkinDate;
               Visit.timeSlot := getTimeSlot (JSDate.getHours tz checkinDate) |}
  else None.

End Loading.

Module MonthComparison.
(** An entry of the result of compareMultipleMonths; [month] and
    [totalRecords] are its metadata. *)
Record t := mk {
  timeSlots : TimeSlotAnalysis.t;
  dayOfWeek : gmap Z WeekdayAverage.t;
  month : string;
  totalRecords : Z
}.
End MonthComparison.

(** The callback of [months.forEach] in compareMultipleMonths: the entry
    [comparison[month]]; [None] when analyzeDayOfWeek throws. *)
Definition compareMonth (records : list Visit.t) (month : string)
    : option MonthComparison.t :=
  let timeSlotAnalysis := analyzeTimeSlots records month in
  match analyzeDayOfWeek records month with
  | None => None
  | Some dayOfWeekAnalysis =>
      Some {| MonthComparison.timeSlots := timeSlotAnalysis;
              MonthComparison.dayOfWeek := dayOfWeekAnalysis;
              MonthComparison.month := month;
              MonthComparison.totalRecords :=
                Z.of_nat (length (List.filter
                                    (λ r, bool_decide (Visit.yearMonth r = month))
                                    records)) |}
  end.

Fixpoint compareMonths (records : list Visit.t) (months : list string)
    (comparison : gmap string MonthComparison.t)
    : option (gmap string MonthComparison.t) :=
  match months with
  | [] => Some comparison
  | month :: rest =>
      match compareMonth records month with
      | None => None
      | Some entry => compareMonths records rest (<[month := entry]> comparison)
      end
  end.

Definition compareMultipleMonths (records : list Visit.t) (months : list string)
    : option (gmap string MonthComparison.t) :=
  compareMonths records months ∅.

(** ** generateTimeSlots on a host whose zone offset varies

    [getHours] and [setHours] go through the time zone of the host.
    ECMAScript gives the zone as the abstract operation LocalTZA(t, isUTC):
    the offset of local time in force at the instant [t] when [isUTC] is
    true, and the offset under which the local time value [t] is read when
    [isUTC] is false.  The definitions above are those of a host whose
    offset never changes; these follow the same source lines for any
    host. *)

Module Zoned.
Section Host.
Variable LocalTZA : Z → bool → Z.

Definition LocalTime (t : Z) : Z := t + LocalTZA t true.
Definition UTC (t : Z) : Z := t - LocalTZA t false.

Definition getHours (t : Z) : Z := JSDate.HourFromTime (LocalTime t).

Definition setHours (t h m s ms : Z) : Z :=
  UTC (JSDate.MakeDate (JSDate.Day (LocalTime t)) (JSDate.MakeTime h m s ms)).

Definition slotEnd_of (current : Z) : Z :=
  setHours current (getHours current + 1) 0 0 0.

Definition actualEnd_of (current checkout : Z) : Z :=
  let slotEnd := slotEnd_of current in
  if slotEnd >? checkout then checkout else slotEnd.

Definition duration_of (current checkout : Z) : Qc :=
  (Qc_of_Z (actualEnd_of current checkout - current) / Qc_of_Z (1000 * 60))%Qc.

Definition slot_at (current checkout : Z) : Slot.t :=
  let day := split_T_0 (JSDate.toISOString current) in
  {| Slot.date := day;
     Slot.hour := getHours current;
     Slot.dateHour := day ++ "-" ++ padStart (show_Z (getHours current)) 2 "0"%char;
     Slot.duration := duration_of current checkout;
     Slot.checkin := current;
     Slot.checkout := actualEnd_of current checkout |}.

(** The loop [while (current < checkout)], with [fuel] bounding the
    number of turns; [None] when the fuel runs out first. *)
Fixpoint slots_loop (fuel : nat) (current checkout : Z) : option (list Slot.t) :=
  if current <? checkout then
    match fuel with
    | O => None
    | S fuel' =>
        match slots_loop fuel' (slotEnd_of current) checkout with
        | None => None
        | Some rest =>
            Some (if Qc_ltb 0 (duration_of current checkout)
                  then slot_at current checkout :: rest
                  else rest)
        end
    end
  else Some [].

End Host.
End Zoned.
(** ** Vocabulary of the specification *)

(** The slots of [l], in order, tile the interval from [a] to [b]: each
    starts where its predecessor ended, none is empty, the first starts at
    [a] and the last ends at [b]. *)
Fixpoint tiles (a b : Z) (l : list Slot.t) : Prop :=
  match l with
  | [] => a = b
  | s :: l' => Slot.checkin s = a ∧ a < Slot.checkout s ∧ tiles (Slot.checkout s) b l'
  end.



(** The clock hour, counted from the epoch in local time, that [t] falls into. *)
Definition clockHour (tz t : Z) : Z := JSDate.LocalTime tz t / JSDate.msPerHour.

(** A slot stays within one clock hour when its last millisecond is in the
    hour of its first. *)
Definition inOneClockHour (tz : Z) (s : Slot.t) : Prop :=
  clockHour tz (Slot.checkin s) = clockHour tz (Slot.checkout s - 1).

(** What holds of every slot the loop emits. *)
Definition emitted (tz e : Z) (s : Slot.t) : Prop :=
  Slot.checkin s < Slot.checkout s ≤ e
  ∧ inOneClockHour tz s
  ∧ Slot.duration s
    = (Qc_of_Z (Slot.checkout s - Slot.checkin s) / Qc_of_Z JSDate.msPerMinute)%Qc.

(** Turns the loop takes from [c]: one per clock hour it touches. *)
Definition hoursTouched (tz c e : Z) : Z := clockHour tz (e - 1) - clockHour tz c + 1.


(** What a record contributes.  [counted r] tells whether the loop body
    reaches the accumulation for [r]; [slotsOf tz r] is the list of slots
    it then counts. *)
Definition counted (r : Row.t) : bool :=
  match Row.checkoutTime r with
  | Some _ => negb (Qc_leb (parseStayTime (Row.stayTime r)) 0)
  | None => false
  end.

Definition slotsOf (tz : Z) (r : Row.t) : list Slot.t :=
  match Row.checkoutTime r with
  | Some checkout =>
      if counted r then generateTimeSlots tz (Row.checkinTime r) checkout else []
  | None => []
  end.

(** The entries that the slots of one customer add to the bucket [key]. *)
Definition entries (customer key : string) (slots : list Slot.t) : list User.t :=
  (λ s, User.mk customer (Slot.duration s)) <$> filter (λ s, Slot.dateHour s = key) slots.

Definition entriesOf (tz : Z) (key : string) (r : Row.t) : list User.t :=
  entries (Row.customerName r) key (slotsOf tz r).

Definition sumUserMinutes (us : list User.t) : Qc :=
  foldr (λ u total, (User.duration u + total)%Qc) (Qc_of_Z 0) us.

(** The bucket that holds exactly the entries [us]; none when there are no
    entries. *)
Definition bucketOf (us : list User.t) : option Bucket.t :=
  match us with
  | [] => None
  | _ => Some {| Bucket.count := Z.of_nat (length us);
                 Bucket.totalMinutes := sumUserMinutes us;
                 Bucket.users := us |}
  end.

(** The invariant of a materialized bucket. *)
Definition bucketInvariant (b : Bucket.t) : Prop :=
  Bucket.count b = Z.of_nat (length (Bucket.users b))
  ∧ Bucket.totalMinutes b = sumUserMinutes (Bucket.users b)
  ∧ 1 ≤ Bucket.count b.

(** The visits (customer and minutes stayed) that a record adds to the day
    [day]. *)
Definition visitsOf (day : string) (r : Row.t) : list (string * Qc) :=
  if counted r
     && bool_decide (split_T_0 (JSDate.toISOString (parseDateTime (Row.checkinTime r))) = day)
  then [(Row.customerName r, parseStayTime (Row.stayTime r))]
  else [].

Definition sumVisitHours (vs : list (string * Qc)) : Qc :=
  foldr (λ v total, (total + v.2 / Qc_of_Z 60)%Qc) (Qc_of_Z 0) vs.

Definition dayOf (vs : list (string * Qc)) : option DayAcc.t :=
  match vs with
  | [] => None
  | _ => Some {| DayAcc.totalHours := sumVisitHours vs;
                 DayAcc.totalSessions := Z.of_nat (length vs);
                 DayAcc.uniqueUsers := list_to_set vs.*1 |}
  end.

(** The integer [n] is [x * 10] rounded to the nearest integer, a tie going
    up: [n / 10] is [x] rounded to one decimal place. *)
Definition nearestTenth (x : Qc) (n : Z) : Prop :=
  (Qc_of_Z n <= x * Qc_of_Z 10 + Q2Qc (1 # 2))%Qc
  ∧ (x * Qc_of_Z 10 + Q2Qc (1 # 2) < Qc_of_Z (n + 1))%Qc.

(** [(curr - prev) / prev * 100]. *)
Definition percentChange (curr prev : Qc) : Qc :=
  ((curr - prev) / prev * Qc_of_Z 100)%Qc.

(** The arithmetic mean of the counts of the buckets of a map. *)
Definition meanCount (hourlyOccupancy : gmap string Bucket.t) : Qc :=
  (Qc_of_Z (foldr Z.add 0%Z (Bucket.count <$> (map_to_list hourlyOccupancy).*2))
   / Qc_of_Z (Z.of_nat (length (map_to_list hourlyOccupancy))))%Qc.

(** The Gregorian calendar. *)
Definition leapYear (y : Z) : bool :=
  (y mod 4 =? 0) && (negb (y mod 100 =? 0) || (y mod 400 =? 0)).

Definition daysInMonth (y m : Z) : Z :=
  if m =? 2 then (if leapYear y then 29 else 28)
  else if (m =? 4) || (m =? 6) || (m =? 9) || (m =? 11) then 30
  else 31.

(** The local calendar date (year, month 1..12, day of the month) of an
    instant, with the milliseconds elapsed since local midnight. *)
Definition localDateTime (tz t : Z) : Z * Z * Z * Z :=
  (JSDate.civil_from_days (JSDate.Day (JSDate.LocalTime tz t)),
   JSDate.TimeWithinDay (JSDate.LocalTime tz t)).

(** The month before the month [m] of the year [y]. *)
Definition precedingMonth (y m : Z) : Z * Z :=
  if m =? 1 then (y - 1, 12) else (y, m - 1).

(** ** Vocabulary for the aggregation as a whole *)

(** The sum of [f] over a list. *)
Definition sumList {A : Type} (f : A → Qc) (l : list A) : Qc :=
  foldr (λ x total, (f x + total)%Qc) (Qc_of_Z 0) l.


(** The stay of a record in hours. *)
Definition stayHours (r : Row.t) : Qc :=
  (parseStayTime (Row.stayTime r) / Qc_of_Z 60)%Qc.

(** The key under which a record enters the daily statistics. *)
Definition dayKey (r : Row.t) : string :=
  split_T_0 (JSDate.toISOString (parseDateTime (Row.checkinTime r))).

(** The counted records whose checkin falls on the day [day]. *)
Definition visitsOn (day : string) (records : list Row.t) : list Row.t :=
  List.filter (λ r, counted r && bool_decide (dayKey r = day)) records.

(** The integer that a decimal text denotes. *)
Definition read_Z (s : string) : option Z := Z.of_int <$> NilZero.int_of_string s.

(** The integer that a text with an explicit sign denotes, as in "+3" or
    "-3". *)
Definition readSigned (s : string) : option Z :=
  match s with
  | String "+" digits => read_Z digits
  | _ => read_Z s
  end.

(** The instant at which the clock hour number [n] starts. *)
Definition hourStart (tz n : Z) : Z := JSDate.UTC tz (n * JSDate.msPerHour).


(** ** Vocabulary for the analysis by time of day and day of the week *)

(** The records of the target month, as both analyses select them. *)
Definition monthRecordsOf (records : list Visit.t) (targetMonth : string) : list Visit.t :=
  List.filter (λ r, bool_decide (Visit.yearMonth r = targetMonth)) records.

Definition inSlot (slot : TimeSlot) (records : list Visit.t) : list Visit.t :=
  List.filter (λ r, bool_decide (Visit.timeSlot r = slot)) records.

Definition onWeekday (day : Z) (records : list Visit.t) : list Visit.t :=
  List.filter (λ r, bool_decide (Visit.dayOfWeek r = day)) records.

(** [averages[slot]]. *)
Definition averageOf (slot : TimeSlot) (averages : TimeSlotAverages.t) : SlotAverage.t :=
  match slot with
  | morning => TimeSlotAverages.morning averages
  | afternoon => TimeSlotAverages.afternoon averages
  | _ => TimeSlotAverages.evening averages
  end.

(** The invariant of a day of dailyOccupancy. *)
Definition dayCounted (day : DayOccupancy.t) : Prop :=
  0 ≤ DayOccupancy.morning day ∧ 0 ≤ DayOccupancy.afternoon day
  ∧ 0 ≤ DayOccupancy.evening day
  ∧ 1 ≤ DayOccupancy.morning day + DayOccupancy.afternoon day + DayOccupancy.evening day.

(** The records [l] entered one after the other into the statistics of a
    time slot. *)
Definition attendAll (l : list Visit.t) (s : SlotStats.t) : SlotStats.t :=
  fold_left (λ s r, attend r s) l s.

(** The stay of a record of the analysis, in hours. *)
Definition visitHours (r : Visit.t) : Qc := (Visit.stayTime r / Qc_of_Z 60)%Qc.

(** The day under which both analyses file a record: the date part of the
    ISO rendering of the checkin, a date of UTC. *)
Definition dateKeyOf (r : Visit.t) : string :=
  split_T_0 (JSDate.toISOString (Visit.checkinDate r)).

(** The records of one of the three time slots. *)
Definition daytime (records : list Visit.t) : list Visit.t :=
  List.filter (λ r, negb (bool_decide (Visit.timeSlot r = other))) records.

Definition onDate (day : string) (records : list Visit.t) : list Visit.t :=
  List.filter (λ r, bool_decide (dateKeyOf r = day)) records.

(** The number of records of a day in each time slot. *)
Definition dayTally (day : string) (records : list Visit.t) : DayOccupancy.t :=
  {| DayOccupancy.morning := Z.of_nat (length (onDate day (inSlot morning records)));
     DayOccupancy.afternoon := Z.of_nat (length (onDate day (inSlot afternoon records)));
     DayOccupancy.evening := Z.of_nat (length (onDate day (inSlot evening records))) |}.

(** The records that the 'data' handler of [loadCSV] builds from the rows
    whose checkin is a valid date, each row given by the instant of its
    checkin, its parsed stay in minutes and its user.  (A checkin text that
    is no date gives an Invalid Date object, which the handler keeps, with
    a yearMonth of "NaN-NaN"; such rows are not among these.) *)
Definition loadRows (tz : Z) (rows : list (Z * Qc * string)) : list Visit.t :=
  omap (λ row, loadRecord tz row.1.1 row.1.2 row.2) rows.

(** A day of the week as [getDay] numbers them. *)
Definition isWeekday (day : Z) : Prop := 0 ≤ day ≤ 6.

(** The sum of [f] over the seven days of the week. *)
Definition sumWeek (f : Z → Z) : Z := foldr Z.add 0 (f <$> [0; 1; 2; 3; 4; 5; 6]).

(** The local calendar month (year, month 1..12) of an instant. *)
Definition localMonth (tz t : Z) : Z * Z :=
  (JSDate.getFullYear tz t, JSDate.getMonth tz t + 1).

(** The number that a text of decimal digits denotes, leading zeros
    allowed. *)
Definition digitsValue (s : string) : option Z :=
  Z.of_uint <$> NilEmpty.uint_of_string s.

(** The calendar date (year, month 1..12, day of the month) of an instant
    in UTC, and its ISO text. *)
Definition utcDate (t : Z) : Z * Z * Z := JSDate.civil_from_days (JSDate.Day t).

Definition isoDate (date : Z * Z * Z) : string :=
  JSDate.iso_year date.1.1 ++ "-" ++ JSDate.pad 2 date.1.2 ++ "-" ++ JSDate.pad 2 date.2.

(** The records that one of the two windows of the comparison holds. *)
Definition inWindows (tz now : Z) (r : Row.t) : bool :=
  within (currentMonthStart tz now) (currentMonthEnd tz now) r
  || within (previousMonthStart tz now) (previousMonthEnd tz now) r.

(** ** Vocabulary for host zones, sums in reading order and rounded values *)

(** A host zone whose offset from UTC is [tz] at all times. *)
Definition constantZone (LocalTZA : Z → bool → Z) (tz : Z) : Prop :=
  ∀ t isUTC, LocalTZA t isUTC = tz.

(** The zone America/New_York around the end of daylight saving time on
    3 November 2024: four hours behind UTC until 06:00 UTC of that day
    (02:00 local), five hours behind from then on.  A local time from 01:00
    to 02:00, which occurs twice that night, is read as its first
    occurrence. *)
Definition newYork (t : Z) (isUTC : bool) : Z :=
  let transition := 1730613600000 in
  if isUTC
  then (if t <? transition then -14400000 else -18000000)
  else (if t <? transition - 14400000 then -14400000 else -18000000).

(** The sum of [f] over a list, accumulated from 0 in the order of the
    list, as a loop of [total += f(x)] does. *)
Definition sumInOrder {A : Type} (f : A → Qc) (l : list A) : Qc :=
  fold_left (λ total x, (total + f x)%Qc) l (Qc_of_Z 0).

(** Two buckets with the same count and the same members, the members
    possibly listed in another order; the totalMinutes of each is the sum
    of the durations of its own members in the order of its list. *)
Definition sameMembers (b1 b2 : Bucket.t) : Prop :=
  Bucket.count b1 = Bucket.count b2
  ∧ Bucket.users b1 ≡ₚ Bucket.users b2
  ∧ Bucket.totalMinutes b1 = sumInOrder User.duration (Bucket.users b1)
  ∧ Bucket.totalMinutes b2 = sumInOrder User.duration (Bucket.users b2).

(** [result] is a whole number of tenths at most half a tenth away from
    [x]: [x] rounded to one decimal place, whichever way a value half-way
    between two tenths goes. *)
(** A stay of a whole number of seconds, given in minutes: what parseStayTime
    reads from a text h:m:s, h:m or m of whole numbers. *)
Definition wholeSeconds (stay : Qc) : Prop :=
  ∃ seconds : Z, stay = (Qc_of_Z seconds / Qc_of_Z 60)%Qc.

Definition roundedToTenth (x result : Qc) : Prop :=
  (∃ n : Z, result = (Qc_of_Z n / Qc_of_Z 10)%Qc)
  ∧ (x - Q2Qc (1 # 20) <= result)%Qc
  ∧ (result <= x + Q2Qc (1 # 20))%Qc.

(** Reading a decimal text with at most one digit after the point as a
    number of tenths: "12" is 120, "-0.5" is -5, "61.3" is 613. *)
Fixpoint beforePoint (s : string) : string :=
  match s with
  | EmptyString => EmptyString
  | String c s' => if Ascii.eqb c "."%char then EmptyString else String c (beforePoint s')
  end.

Fixpoint afterPoint (s : string) : option string :=
  match s with
  | EmptyString => None
  | String c s' => if Ascii.eqb c "."%char then Some s' else afterPoint s'
  end.

Definition readDigits (s : string) : option Z :=
  match s with
  | EmptyString => None
  | _ => digitsValue s
  end.

Definition readUnsignedTenths (s : string) : option Z :=
  match readDigits (beforePoint s), afterPoint s with
  | Some whole, None => Some (10 * whole)
  | Some whole, Some (String c EmptyString) =>
      (λ tenth, 10 * whole + tenth) <$> digitsValue (String c EmptyString)
  | _, _ => None
  end.

Definition readTenths (s : string) : option Z :=
  match s with
  | String "-" digits => Z.opp <$> readUnsignedTenths digits
  | _ => readUnsignedTenths s
  end.

(** What the specification says of the text of a percentage delta: the
    two literal texts for a previous value of 0; otherwise a number that
    reads as the percentage rounded to one decimal place, with a "+" in
    front exactly when the percentage is not negative, and "%" behind. *)
Definition percentDeltaReads (curr prev : Qc) (text : string) : Prop :=
  (prev = Qc_of_Z 0 → (Qc_of_Z 0 < curr)%Qc → text = "+∞%")
  ∧ (prev = Qc_of_Z 0 → curr = Qc_of_Z 0 → text = "0%")
  ∧ (prev ≠ Qc_of_Z 0 →
     ∃ (number : string) (n : Z),
       readTenths number = Some n
       ∧ roundedToTenth (percentChange curr prev) (Qc_of_Z n / Qc_of_Z 10)%Qc
       ∧ ((Qc_of_Z 0 <= percentChange curr prev)%Qc → text = "+" ++ number ++ "%")
       ∧ ((percentChange curr prev < Qc_of_Z 0)%Qc → text = number ++ "%")).
(* ===================================================================== *)
(** * Part II: properties *)
(* ===================================================================== *)

Local Open Scope list_scope.

Ltac Zify.zify_post_hook ::= Z.to_euclidean_division_equations.

(** ** Rationals *)

Lemma Qc_ltb_lt (x y : Qc) : Qc_ltb x y = true ↔ (x < y)%Qc.
Proof.
  unfold Qc_ltb, Qclt, Qccompare. rewrite Qlt_alt.
  destruct (this x ?= this y)%Q; split; congruence.
Qed.

Lemma Qc_leb_le (x y : Qc) : Qc_leb x y = true ↔ (x <= y)%Qc.
Proof.
  unfold Qc_leb, Qcle, Qccompare. rewrite Qle_alt.
  destruct (this x ?= this y)%Q; split; congruence.
Qed.

Lemma Qc_eqb_eq (x y : Qc) : Qc_eqb x y = true ↔ x = y.
Proof.
  unfold Qc_eqb. rewrite Qceq_alt.
  destruct (x ?= y)%Qc; split; congruence.
Qed.

Lemma Qc_of_Z_pos (c : Z) : 0 < c → (Qc_of_Z 0 < Qc_of_Z c)%Qc.
Proof. intros Hc. by apply (proj1 (Z2Qc_inj_lt 0 c)). Qed.

Lemma Qc_of_Z_ne_0 (c : Z) : c ≠ 0 → Qc_of_Z c ≠ Qc_of_Z 0.
Proof. intros Hc Heq. by apply Z2Qc_inj in Heq. Qed.

(** Cancelling a positive integer divisor. *)
Lemma Qc_div_mul_cancel (x : Qc) (c : Z) : c ≠ 0 → (x / Qc_of_Z c * Qc_of_Z c)%Qc = x.
Proof.
  intros Hc. pose proof (Qc_of_Z_ne_0 c Hc) as Hc'. rewrite Z2Qc_inj_0 in Hc'.
  field. exact Hc'.
Qed.

Lemma Qc_div_lt_mono (x y : Qc) (c : Z) :
  0 < c → (x < y)%Qc ↔ (x / Qc_of_Z c < y / Qc_of_Z c)%Qc.
Proof.
  intros Hc. apply Qcmult_lt_mono_pos_r, Qcinv_pos.
  rewrite <- Z2Qc_inj_0. by apply Qc_of_Z_pos.
Qed.

Lemma Qc_div_le_mono (x y : Qc) (c : Z) :
  0 < c → (x <= y)%Qc ↔ (x / Qc_of_Z c <= y / Qc_of_Z c)%Qc.
Proof.
  intros Hc. apply Qcmult_le_mono_pos_r, Qcinv_pos.
  rewrite <- Z2Qc_inj_0. by apply Qc_of_Z_pos.
Qed.

Lemma Qc_of_Z_div_exact (a c : Z) : c ≠ 0 → (Qc_of_Z (a * c) / Qc_of_Z c)%Qc = Qc_of_Z a.
Proof.
  intros Hc. pose proof (Qc_of_Z_ne_0 c Hc) as Hc'. rewrite Z2Qc_inj_0 in Hc'.
  rewrite Z2Qc_inj_mul. field. exact Hc'.
Qed.

(** ** The loop of generateTimeSlots *)

Section SlotFacts.
Variable tz : Z.

Lemma slotEnd_of_eq (c : Z) :
  slotEnd_of tz c = (clockHour tz c + 1) * JSDate.msPerHour - tz.
Proof.
  unfold slotEnd_of, clockHour, JSDate.setHours, JSDate.getHours, JSDate.UTC,
    JSDate.MakeDate, JSDate.MakeTime, JSDate.Day, JSDate.HourFromTime,
    JSDate.msPerDay, JSDate.msPerHour, JSDate.msPerMinute, JSDate.msPerSecond.
  generalize (JSDate.LocalTime tz c). intros L. lia.
Qed.

Lemma slotEnd_of_bounds (c : Z) : c < slotEnd_of tz c ≤ c + JSDate.msPerHour.
Proof.
  rewrite slotEnd_of_eq. unfold clockHour, JSDate.LocalTime, JSDate.msPerHour. lia.
Qed.

Lemma clockHour_slotEnd (c : Z) : clockHour tz (slotEnd_of tz c) = clockHour tz c + 1.
Proof.
  rewrite slotEnd_of_eq. unfold clockHour, JSDate.LocalTime, JSDate.msPerHour. lia.
Qed.

Lemma actualEnd_of_bounds (c e : Z) :
  c < e → c < actualEnd_of tz c e ≤ e ∧ actualEnd_of tz c e ≤ slotEnd_of tz c.
Proof.
  intros Hce. unfold actualEnd_of. pose proof (slotEnd_of_bounds c).
  destruct (Z.gtb_spec (slotEnd_of tz c) e); lia.
Qed.

Lemma duration_of_pos (c e : Z) : c < e → Qc_ltb 0 (duration_of tz c e) = true.
Proof.
  intros Hce. apply Qc_ltb_lt. unfold duration_of. rewrite <- Z2Qc_inj_0.
  replace (Qc_of_Z 0) with (Qc_of_Z 0 / Qc_of_Z (1000 * 60))%Qc
    by (rewrite Z2Qc_inj_0; apply Qcmult_0_l).
  apply Qc_div_lt_mono; [lia|]. apply (proj1 (Z2Qc_inj_lt _ _)).
  pose proof (actualEnd_of_bounds c e Hce). lia.
Qed.

(** The slot of one turn of the loop. *)
Lemma slot_at_inOneClockHour (c e : Z) : c < e → inOneClockHour tz (slot_at tz c e).
Proof.
  intros Hce. unfold inOneClockHour. simpl.
  pose proof (actualEnd_of_bounds c e Hce) as [Ha Hb].
  rewrite slotEnd_of_eq in Hb.
  unfold clockHour, JSDate.LocalTime, JSDate.msPerHour in *. lia.
Qed.

Lemma slot_at_emitted (c e : Z) : c < e → emitted tz e (slot_at tz c e).
Proof.
  intros Hce. split; [|split].
  - simpl. pose proof (actualEnd_of_bounds c e Hce). lia.
  - by apply slot_at_inOneClockHour.
  - reflexivity.
Qed.

Lemma slots_loop_step (fuel : nat) (c e : Z) :
  c < e →
  slots_loop tz (S fuel) c e
  = (λ rest, slot_at tz c e :: rest) <$> slots_loop tz fuel (slotEnd_of tz c) e.
Proof.
  intros Hce. simpl. rewrite (proj2 (Z.ltb_lt c e) Hce).
  rewrite (duration_of_pos c e Hce).
  by destruct (slots_loop tz fuel (slotEnd_of tz c) e).
Qed.

Lemma slots_loop_done (fuel : nat) (c e : Z) : e ≤ c → slots_loop tz fuel c e = Some [].
Proof.
  intros Hce. destruct fuel; simpl; by rewrite (proj2 (Z.ltb_ge c e) Hce).
Qed.

Lemma slots_loop_tiles (fuel : nat) :
  ∀ c e l, slots_loop tz fuel c e = Some l → c < e → tiles c e l.
Proof.
  induction fuel as [|fuel IH]; intros c e l Hl Hce.
  - simpl in Hl. by rewrite (proj2 (Z.ltb_lt c e) Hce) in Hl.
  - rewrite slots_loop_step in Hl by done.
    destruct (slots_loop tz fuel (slotEnd_of tz c) e) as [rest|] eqn:Hrest; [|done].
    simpl in Hl. injection Hl as <-. simpl.
    pose proof (actualEnd_of_bounds c e Hce) as [Ha Hb].
    split; [done|]. split; [lia|].
    unfold actualEnd_of in *.
    destruct (Z.gtb_spec (slotEnd_of tz c) e) as [Hgt|Hle].
    + rewrite slots_loop_done in Hrest by lia. by injection Hrest as <-.
    + destruct (Z.eq_dec (slotEnd_of tz c) e) as [Heq|Hne].
      * rewrite slots_loop_done in Hrest by lia. by injection Hrest as <-.
      * apply IH; [done|lia].
Qed.

Lemma slots_loop_emitted (fuel : nat) :
  ∀ c e l, slots_loop tz fuel c e = Some l → Forall (emitted tz e) l.
Proof.
  induction fuel as [|fuel IH]; intros c e l Hl.
  - simpl in Hl. destruct (c <? e); [done|]. by injection Hl as <-.
  - destruct (Z.lt_ge_cases c e) as [Hce|Hce].
    + rewrite slots_loop_step in Hl by done.
      destruct (slots_loop tz fuel (slotEnd_of tz c) e) as [rest|] eqn:Hrest; [|done].
      simpl in Hl. injection Hl as <-. constructor; [by apply slot_at_emitted|].
      by eapply IH.
    + rewrite slots_loop_done in Hl by done. by injection Hl as <-.
Qed.

Lemma slots_loop_enough (fuel : nat) :
  ∀ c e, hoursTouched tz c e ≤ Z.of_nat fuel → is_Some (slots_loop tz fuel c e).
Proof.
  induction fuel as [|fuel IH]; intros c e Hfuel.
  - destruct (Z.lt_ge_cases c e) as [Hce|Hce].
    + exfalso. unfold hoursTouched, clockHour, JSDate.LocalTime, JSDate.msPerHour in Hfuel. lia.
    + rewrite slots_loop_done by done. by eexists.
  - destruct (Z.lt_ge_cases c e) as [Hce|Hce].
    + rewrite slots_loop_step by done.
      destruct (IH (slotEnd_of tz c) e) as [rest Hrest].
      * unfold hoursTouched in *. rewrite clockHour_slotEnd. lia.
      * rewrite Hrest. by eexists.
    + rewrite slots_loop_done by done. by eexists.
Qed.

Lemma turns_enough (c e : Z) : hoursTouched tz c e ≤ Z.of_nat (turns c e).
Proof.
  unfold hoursTouched, turns, clockHour, JSDate.LocalTime, JSDate.msPerHour. lia.
Qed.

(** More fuel does not change what the loop returns. *)
Lemma slots_loop_more_fuel (fuel : nat) :
  ∀ fuel' c e l, slots_loop tz fuel c e = Some l → (fuel ≤ fuel')%nat →
                 slots_loop tz fuel' c e = Some l.
Proof.
  induction fuel as [|fuel IH]; intros fuel' c e l Hl Hfuel.
  - simpl in Hl. destruct (Z.ltb_spec c e); [done|].
    injection Hl as <-. by apply slots_loop_done.
  - destruct fuel' as [|fuel']; [lia|].
    destruct (Z.lt_ge_cases c e) as [Hce|Hce].
    + rewrite slots_loop_step in * by done.
      destruct (slots_loop tz fuel (slotEnd_of tz c) e) as [rest|] eqn:Hrest; [|done].
      rewrite (IH fuel' _ _ rest Hrest) by lia. done.
    + rewrite slots_loop_done in * by done. done.
Qed.

Lemma generateTimeSlots_loop (c e : Z) (fuel : nat) :
  (turns c e ≤ fuel)%nat → slots_loop tz fuel c e = Some (generateTimeSlots tz c e).
Proof.
  intros Hfuel. unfold generateTimeSlots.
  destruct (slots_loop_enough (turns c e) c e (turns_enough c e)) as [l Hl].
  rewrite Hl. simpl. by eapply slots_loop_more_fuel.
Qed.

End SlotFacts.

(** ** Consequences of tiling *)


Lemma tiles_starts_from (l : list Slot.t) :
  ∀ a b, tiles a b l → Forall (λ s, a ≤ Slot.checkin s) l.
Proof.
  induction l as [|s l IH]; simpl; intros a b H; [constructor|].
  destruct H as (Hci & Hlt & Hrest). constructor; [lia|].
  eapply Forall_impl; [|exact (IH _ _ Hrest)]. simpl. intros. lia.
Qed.

Lemma tiles_increasing (l : list Slot.t) :
  ∀ a b, tiles a b l → StronglySorted Z.lt (map Slot.checkin l).
Proof.
  induction l as [|s l IH]; simpl; intros a b H; [constructor|].
  destruct H as (Hci & Hlt & Hrest). constructor; [by eapply IH|].
  apply Forall_map. eapply Forall_impl; [|exact (tiles_starts_from _ _ _ Hrest)].
  simpl. intros. lia.
Qed.

Lemma increasing_nondecreasing (l : list Z) : StronglySorted Z.lt l → StronglySorted Z.le l.
Proof.
  induction 1 as [|x l Hl IH Hx]; constructor; [done|].
  eapply Forall_impl; [|exact Hx]. simpl. intros. lia.
Qed.



Lemma emitted_duration_bounds (tz e : Z) (s : Slot.t) :
  emitted tz e s → (0 < Slot.duration s)%Qc ∧ (Slot.duration s <= Qc_of_Z 60)%Qc.
Proof.
  intros (Hlt & Hhour & ->). split.
  - replace 0%Qc with (Qc_of_Z 0 / Qc_of_Z JSDate.msPerMinute)%Qc
      by (rewrite Z2Qc_inj_0; apply Qcmult_0_l).
    apply Qc_div_lt_mono; [done|]. apply (proj1 (Z2Qc_inj_lt _ _)). lia.
  - rewrite <- (Qc_of_Z_div_exact 60 JSDate.msPerMinute) by done.
    apply Qc_div_le_mono; [done|]. apply (proj1 (Z2Qc_inj_le _ _)).
    unfold inOneClockHour, clockHour, JSDate.LocalTime, JSDate.msPerHour in Hhour.
    unfold JSDate.msPerMinute. lia.
Qed.

(** ** generateTimeSlots: the claims *)



(** ** Hosts of constant offset *)

Lemma Zoned_slotEnd_of_constant (LocalTZA : Z → bool → Z) (tz current : Z) :
  constantZone LocalTZA tz → Zoned.slotEnd_of LocalTZA current = slotEnd_of tz current.
Proof.
  intros Hzone.
  unfold Zoned.slotEnd_of, Zoned.setHours, Zoned.getHours, Zoned.UTC, Zoned.LocalTime,
    slotEnd_of, JSDate.setHours, JSDate.getHours, JSDate.UTC, JSDate.LocalTime.
  by rewrite !Hzone.
Qed.

Lemma Zoned_slot_at_constant (LocalTZA : Z → bool → Z) (tz current checkout : Z) :
  constantZone LocalTZA tz →
  Zoned.slot_at LocalTZA current checkout = slot_at tz current checkout
  ∧ Zoned.duration_of LocalTZA current checkout = duration_of tz current checkout.
Proof.
  intros Hzone.
  unfold Zoned.slot_at, slot_at, Zoned.duration_of, duration_of, Zoned.actualEnd_of,
    actualEnd_of.
  rewrite (Zoned_slotEnd_of_constant _ tz) by done.
  unfold Zoned.getHours, Zoned.LocalTime, JSDate.getHours, JSDate.LocalTime.
  by rewrite !Hzone.
Qed.

Lemma Zoned_slots_loop_constant (LocalTZA : Z → bool → Z) (tz : Z) (fuel : nat) :
  constantZone LocalTZA tz →
  ∀ current checkout,
    Zoned.slots_loop LocalTZA fuel current checkout = slots_loop tz fuel current checkout.
Proof.
  intros Hzone. induction fuel as [|fuel IH]; intros current checkout; simpl; [done|].
  destruct (current <? checkout); [|done].
  rewrite (Zoned_slotEnd_of_constant _ tz), IH by done.
  destruct (Zoned_slot_at_constant LocalTZA tz current checkout Hzone) as [-> ->]. done.
Qed.

Lemma generateTimeSlots_within_one_hour (tz checkin checkout : Z) :
  let slots := generateTimeSlots tz checkin checkout in
  Forall (λ s, Slot.checkin s < Slot.checkout s
               ∧ inOneClockHour tz s
               ∧ Slot.duration s
                 = (Qc_of_Z (Slot.checkout s - Slot.checkin s)
                    / Qc_of_Z JSDate.msPerMinute)%Qc
               ∧ (0 < Slot.duration s)%Qc
               ∧ (Slot.duration s <= Qc_of_Z 60)%Qc) slots
  ∧ StronglySorted Z.le (map Slot.checkin slots).
Proof.
  intros slots.
  assert (Hloop : slots_loop tz (turns checkin checkout) checkin checkout = Some slots)
    by by apply generateTimeSlots_loop.
  split.
  - eapply Forall_impl; [|exact (slots_loop_emitted _ _ _ _ _ Hloop)].
    intros s Hs. pose proof (emitted_duration_bounds _ _ _ Hs) as [? ?].
    destruct Hs as ([? ?] & ? & ?). done.
  - destruct (Z.lt_ge_cases checkin checkout) as [Hlt|Hge].
    + apply increasing_nondecreasing. eapply tiles_increasing.
      by eapply slots_loop_tiles.
    + rewrite slots_loop_done in Hloop by done. injection Hloop as <-. constructor.
Qed.

(** C9, as the code has it.  On a host whose zone offset is constant (no
    daylight saving time or other change of offset), the loop of
    generateTimeSlots ends for every visit, and every slot it emits lies
    within a single clock hour, has a duration (the minutes between its
    start and its end) that is strictly positive and at most 60, and the
    start times do not decrease along the list. *)
Theorem C9_slot_within_one_hour (LocalTZA : Z → bool → Z) (tz checkin checkout : Z) :
  constantZone LocalTZA tz →
  ∃ slots,
    (∀ fuel, (turns checkin checkout ≤ fuel)%nat →
             Zoned.slots_loop LocalTZA fuel checkin checkout = Some slots)
    ∧ Forall (λ s, Slot.checkin s < Slot.checkout s
                   ∧ inOneClockHour tz s
                   ∧ Slot.duration s
                     = (Qc_of_Z (Slot.checkout s - Slot.checkin s)
                        / Qc_of_Z JSDate.msPerMinute)%Qc
                   ∧ (0 < Slot.duration s)%Qc
                   ∧ (Slot.duration s <= Qc_of_Z 60)%Qc) slots
    ∧ StronglySorted Z.le (map Slot.checkin slots).
Proof.
  intros Hzone. exists (generateTimeSlots tz checkin checkout). split.
  - intros fuel Hfuel. rewrite (Zoned_slots_loop_constant _ tz) by done.
    by apply generateTimeSlots_loop.
  - apply generateTimeSlots_within_one_hour.
Qed.

(** A visit of 90 minutes from 23:33:42 on a host nine hours ahead of UTC
    all year. *)
Lemma C9_slot_within_one_hour_witness :
  ∃ slots,
    (∀ fuel, (turns 1711722822000 1711728222000 ≤ fuel)%nat →
             Zoned.slots_loop (λ _ _, 32400000) fuel 1711722822000 1711728222000
             = Some slots)
    ∧ Forall (λ s, Slot.checkin s < Slot.checkout s
                   ∧ inOneClockHour 32400000 s
                   ∧ Slot.duration s
                     = (Qc_of_Z (Slot.checkout s - Slot.checkin s)
                        / Qc_of_Z JSDate.msPerMinute)%Qc
                   ∧ (0 < Slot.duration s)%Qc
                   ∧ (Slot.duration s <= Qc_of_Z 60)%Qc) slots
    ∧ StronglySorted Z.le (map Slot.checkin slots).
Proof.
  apply (C9_slot_within_one_hour (λ _ _, 32400000) 32400000 1711722822000 1711728222000).
  intros t isUTC. reflexivity.
Defined.

(** C9 as stated fails on a host with daylight saving time.  In New York,
    in the night in which the clocks go back, a visit from 01:30 (summer
    time, 05:30 UTC) to 02:30 (winter time, 07:30 UTC) gives a first slot
    from 01:30 to the next 02:00 on the clock, which is 90 minutes later:
    the hour from 01:00 to 02:00 occurs twice. *)
Lemma C9_counterexample :
  ¬ (∀ (LocalTZA : Z → bool → Z) (checkin checkout : Z) (fuel : nat) (slots : list Slot.t),
       Zoned.slots_loop LocalTZA fuel checkin checkout = Some slots →
       Forall (λ s, (Slot.duration s <= Qc_of_Z 60)%Qc) slots).
Proof.
  intros H.
  specialize (H newYork 1730611800000 1730619000000 2%nat
                [Zoned.slot_at newYork 1730611800000 1730619000000;
                 Zoned.slot_at newYork 1730617200000 1730619000000]).
  assert (Hloop : Zoned.slots_loop newYork 2 1730611800000 1730619000000
                  = Some [Zoned.slot_at newYork 1730611800000 1730619000000;
                          Zoned.slot_at newYork 1730617200000 1730619000000])
    by reflexivity.
  apply H in Hloop. apply Forall_inv in Hloop. vm_compute in Hloop. by apply Hloop.
Qed.

(** The two slots of that visit: 90 minutes under the hour 1, then 30
    minutes under the hour 2. *)
Example slots_of_a_visit_when_clocks_go_back :
  Zoned.slots_loop newYork 2 1730611800000 1730619000000
  = Some [Zoned.slot_at newYork 1730611800000 1730619000000;
          Zoned.slot_at newYork 1730617200000 1730619000000]
  ∧ Slot.hour (Zoned.slot_at newYork 1730611800000 1730619000000) = 1
  ∧ Slot.checkout (Zoned.slot_at newYork 1730611800000 1730619000000) = 1730617200000
  ∧ Slot.duration (Zoned.slot_at newYork 1730611800000 1730619000000) = Qc_of_Z 90
  ∧ Slot.hour (Zoned.slot_at newYork 1730617200000 1730619000000) = 2
  ∧ Slot.duration (Zoned.slot_at newYork 1730617200000 1730619000000) = Qc_of_Z 30.
Proof.
  split; [reflexivity|]. split; [reflexivity|]. split; [reflexivity|].
  split; [by apply Qc_is_canon|]. split; [reflexivity|]. by apply Qc_is_canon.
Qed.

(** The visit of 90 minutes that starts at 2024-03-29 23:33:42 +0900: three
    slots of 26.3, 60 and 3.7 minutes.  The key of a slot joins the UTC date
    of its start with the local hour of its start. *)
Example slots_of_a_visit_over_midnight :
  let slots := generateTimeSlots 32400000 1711722822000 1711728222000 in
  map Slot.dateHour slots = ["2024-03-29-23"; "2024-03-29-00"; "2024-03-29-01"]
  ∧ map (λ s, this (Slot.duration s)) slots = [263 # 10; 60 # 1; 37 # 10]%Q
  ∧ map (λ s, JSDate.toISOString (Slot.checkin s)) slots
    = ["2024-03-29T14:33:42.000Z"; "2024-03-29T15:00:00.000Z"; "2024-03-29T16:00:00.000Z"].
Proof. repeat split; vm_compute; reflexivity. Qed.

(** ** The accumulators in closed form *)

Lemma sumUserMinutes_app (us vs : list User.t) :
  sumUserMinutes (us ++ vs) = (sumUserMinutes us + sumUserMinutes vs)%Qc.
Proof.
  induction us as [|u us IH]; simpl.
  - by rewrite Z2Qc_inj_0, Qcplus_0_l.
  - rewrite IH. by rewrite Qcplus_assoc.
Qed.

Lemma sumUserMinutes_perm (us vs : list User.t) :
  us ≡ₚ vs → sumUserMinutes us = sumUserMinutes vs.
Proof.
  induction 1 as [|u us vs _ IH|u v us|us vs ws _ IH1 _ IH2]; simpl.
  - done.
  - by rewrite IH.
  - rewrite !Qcplus_assoc. by rewrite (Qcplus_comm (User.duration v)).
  - by rewrite IH1.
Qed.

Lemma bucketOf_snoc (us : list User.t) (u : User.t) :
  bucketOf (us ++ [u]) = Some (enter (User.name u) (User.duration u) (default emptyBucket (bucketOf us))).
Proof.
  destruct u as [name d]. unfold enter. destruct us as [|v us]; simpl.
  - f_equal. f_equal. by rewrite Z2Qc_inj_0, Qcplus_0_l, Qcplus_0_r.
  - f_equal. f_equal.
    + rewrite length_app. simpl. lia.
    + change (sumUserMinutes ((v :: us) ++ [User.mk name d])
              = (sumUserMinutes (v :: us) + d)%Qc).
      rewrite sumUserMinutes_app. simpl. by rewrite Z2Qc_inj_0, Qcplus_0_r.
Qed.

(** One turn of [timeSlots.forEach]. *)
Lemma countSlot_lookup (customer : string) (ho : gmap string Bucket.t) (slot : Slot.t)
    (key : string) (us : list User.t) :
  ho !! key = bucketOf us →
  countSlot customer ho slot !! key = bucketOf (us ++ entries customer key [slot]).
Proof.
  intros Hus. unfold countSlot, entries.
  destruct (decide (Slot.dateHour slot = key)) as [<-|Hne].
  - rewrite filter_cons_True by done. rewrite filter_nil. simpl.
    rewrite bucketOf_snoc. simpl. rewrite lookup_alter_eq.
    destruct (ho !! Slot.dateHour slot) as [b|] eqn:Hb.
    + rewrite Hb, <- Hus. done.
    + rewrite lookup_insert_eq, <- Hus. done.
  - rewrite filter_cons_False by done. rewrite filter_nil. simpl.
    rewrite app_nil_r, lookup_alter_ne by done.
    destruct (ho !! Slot.dateHour slot); [done|]. by rewrite lookup_insert_ne.
Qed.

Lemma entries_app (customer key : string) (l1 l2 : list Slot.t) :
  entries customer key (l1 ++ l2) = (entries customer key l1 ++ entries customer key l2)%list.
Proof. unfold entries. by rewrite list.filter_app, fmap_app. Qed.

Lemma countSlots_lookup (customer : string) (slots : list Slot.t) :
  ∀ (ho : gmap string Bucket.t) (key : string) (us : list User.t),
    ho !! key = bucketOf us →
    fold_left (countSlot customer) slots ho !! key
    = bucketOf (us ++ entries customer key slots).
Proof.
  induction slots as [|slot slots IH]; intros ho key us Hus; simpl.
  - unfold entries. rewrite filter_nil. simpl. by rewrite app_nil_r.
  - change (slot :: slots) with ([slot] ++ slots).
    rewrite entries_app, app_assoc. apply IH. by apply countSlot_lookup.
Qed.

Lemma entries_nil (customer key : string) : entries customer key [] = [].
Proof. done. Qed.

Lemma slotsOf_uncounted (tz : Z) (r : Row.t) : counted r = false → slotsOf tz r = [].
Proof. unfold slotsOf. intros ->. by destruct (Row.checkoutTime r). Qed.

(** What the callback of [records.forEach] does to the accumulators,
    according to whether the record is counted. *)
Lemma processRecord_counted (tz : Z) (acc : Acc.t) (r : Row.t) :
  counted r = true →
  processRecord tz acc r
  = {| Acc.allTimeSlots :=
         Acc.allTimeSlots acc
         ++ map (λ slot, SlotDetail.mk slot (Row.customerName r)
                           (parseStayTime (Row.stayTime r))) (slotsOf tz r);
       Acc.hourlyOccupancy :=
         fold_left (countSlot (Row.customerName r)) (slotsOf tz r) (Acc.hourlyOccupancy acc);
       Acc.dailyStats :=
         countDay (Row.customerName r) (parseStayTime (Row.stayTime r))
           (split_T_0 (JSDate.toISOString (parseDateTime (Row.checkinTime r))))
           (Acc.dailyStats acc) |}.
Proof.
  unfold processRecord, recordBody, slotsOf, counted.
  destruct (Row.checkoutTime r) as [checkout|]; simpl; [|done].
  destruct (Qc_leb (parseStayTime (Row.stayTime r)) 0); simpl; [done|]. done.
Qed.

Lemma processRecord_uncounted (tz : Z) (acc : Acc.t) (r : Row.t) :
  counted r = false → processRecord tz acc r = acc.
Proof.
  unfold processRecord, recordBody, counted.
  destruct (Row.checkoutTime r) as [checkout|]; simpl.
  - destruct (Qc_leb (parseStayTime (Row.stayTime r)) 0); simpl; done.
  - intros _. by destruct (Qc_ltb 0 (parseStayTime (Row.stayTime r))).
Qed.

Lemma processRecord_buckets (tz : Z) (acc : Acc.t) (r : Row.t) (key : string)
    (us : list User.t) :
  Acc.hourlyOccupancy acc !! key = bucketOf us →
  Acc.hourlyOccupancy (processRecord tz acc r) !! key = bucketOf (us ++ entriesOf tz key r).
Proof.
  intros Hus. unfold entriesOf. destruct (counted r) eqn:Hr.
  - rewrite processRecord_counted by done. simpl. by apply countSlots_lookup.
  - rewrite processRecord_uncounted, slotsOf_uncounted by done.
    by rewrite entries_nil, app_nil_r.
Qed.

Lemma fold_processRecord_buckets (tz : Z) (records : list Row.t) :
  ∀ (acc : Acc.t) (key : string) (us : list User.t),
    Acc.hourlyOccupancy acc !! key = bucketOf us →
    Acc.hourlyOccupancy (fold_left (processRecord tz) records acc) !! key
    = bucketOf (us ++ flat_map (entriesOf tz key) records).
Proof.
  induction records as [|r records IH]; intros acc key us Hus; simpl.
  - by rewrite app_nil_r.
  - rewrite app_assoc. apply IH. by apply processRecord_buckets.
Qed.

Lemma accumulate_buckets (tz : Z) (records : list Row.t) (key : string) :
  Acc.hourlyOccupancy (accumulate tz records) !! key
  = bucketOf (flat_map (entriesOf tz key) records).
Proof. by apply (fold_processRecord_buckets tz records (emptyAcc) key []). Qed.

Lemma bucketOf_invariant (us : list User.t) (b : Bucket.t) :
  bucketOf us = Some b → bucketInvariant b ∧ Bucket.users b = us.
Proof.
  destruct us as [|u us]; [done|]. intros [= <-]. repeat split; simpl; lia.
Qed.

Lemma sumUserMinutes_nonneg (us : list User.t) :
  Forall (λ u, (0 <= User.duration u)%Qc) us → (0 <= sumUserMinutes us)%Qc.
Proof.
  induction 1 as [|u us Hu _ IH]; simpl.
  - by rewrite Z2Qc_inj_0.
  - by apply Qcplus_nonneg_nonneg.
Qed.

Lemma generateTimeSlots_emitted (tz checkin checkout : Z) :
  Forall (emitted tz checkout) (generateTimeSlots tz checkin checkout).
Proof.
  eapply slots_loop_emitted. by apply (generateTimeSlots_loop tz checkin checkout).
Qed.

Lemma entries_nonneg (customer key : string) (slots : list Slot.t) :
  Forall (λ s, (0 <= Slot.duration s)%Qc) slots →
  Forall (λ u, (0 <= User.duration u)%Qc) (entries customer key slots).
Proof.
  intros H. unfold entries. apply Forall_fmap, list.Forall_forall.
  intros s [_ Hs]%list_elem_of_filter. simpl.
  by apply (proj1 (list.Forall_forall _ _) H).
Qed.

(** C10. Take calculateHourlyOccupancy at any point of its run: the
    records [records] have been processed and the first [n] slots of the
    visit being processed have been counted.  Every bucket that exists then
    has a count equal to the length of its users list, a totalMinutes equal
    to the sum of the durations in that list, and a count of at least 1;
    and counting the next slot leaves every existing bucket in place with a
    count and a total that are not smaller and a users list that extends
    the old one. *)
Theorem C10_bucket_invariant (tz : Z) (records : list Row.t) (customer : string)
    (checkin checkout : Z) (n : nat) :
  let slots := generateTimeSlots tz checkin checkout in
  let hourlyOccupancy :=
    fold_left (countSlot customer) (take n slots)
      (Acc.hourlyOccupancy (accumulate tz records)) in
  (∀ key b, hourlyOccupancy !! key = Some b → bucketInvariant b)
  ∧ (∀ slot key b,
       slots !! n = Some slot → hourlyOccupancy !! key = Some b →
       ∃ b', countSlot customer hourlyOccupancy slot !! key = Some b'
             ∧ Bucket.count b ≤ Bucket.count b'
             ∧ (Bucket.totalMinutes b <= Bucket.totalMinutes b')%Qc
             ∧ Bucket.users b `prefix_of` Bucket.users b').
Proof.
  intros slots ho.
  assert (Hho : ∀ key, ho !! key
                       = bucketOf (flat_map (entriesOf tz key) records
                                   ++ entries customer key (take n slots))).
  { intros key. apply countSlots_lookup, accumulate_buckets. }
  split.
  - intros key b Hb. rewrite Hho in Hb. by apply bucketOf_invariant in Hb as [? _].
  - intros slot key b Hslot Hb.
    pose proof (countSlot_lookup customer ho slot key _ (Hho key)) as Hnext.
    rewrite Hho in Hb.
    remember (flat_map (entriesOf tz key) records
              ++ entries customer key (take n slots)) as us eqn:Hus.
    assert (Hpos : (0 <= sumUserMinutes (entries customer key [slot]))%Qc).
    { apply sumUserMinutes_nonneg, entries_nonneg. constructor; [|done].
      pose proof (generateTimeSlots_emitted tz checkin checkout) as Hall.
      apply list_elem_of_lookup_2 in Hslot.
      apply (proj1 (list.Forall_forall _ _) Hall) in Hslot.
      apply emitted_duration_bounds in Hslot as [? _]. by apply Qclt_le_weak. }
    clear Hus. destruct (bucketOf (us ++ entries customer key [slot])) as [b'|] eqn:Hb'.
    + exists b'. split; [done|].
      apply bucketOf_invariant in Hb' as [(Hc' & Ht' & _) Hu'].
      apply bucketOf_invariant in Hb as [(Hc & Ht & _) Hu].
      rewrite Hc, Ht, Hc', Ht', Hu, Hu'. rewrite length_app, sumUserMinutes_app.
      split; [lia|]. split.
      * rewrite <- (Qcplus_0_r (sumUserMinutes us)) at 1.
        by apply Qcplus_le_mono_l.
      * by apply prefix_app_r.
    + exfalso. by destruct us.
Qed.

(** ** The daily statistics in closed form *)

Lemma sumVisitHours_app (vs ws : list (string * Qc)) :
  sumVisitHours (vs ++ ws) = (sumVisitHours vs + sumVisitHours ws)%Qc.
Proof.
  induction vs as [|v vs IH]; simpl.
  - by rewrite Z2Qc_inj_0, Qcplus_0_l.
  - rewrite IH. rewrite <- !Qcplus_assoc. f_equal. apply Qcplus_comm.
Qed.

Lemma sumVisitHours_perm (vs ws : list (string * Qc)) :
  vs ≡ₚ ws → sumVisitHours vs = sumVisitHours ws.
Proof.
  induction 1 as [|v vs ws _ IH|u v vs|vs ws xs _ IH1 _ IH2]; simpl.
  - done.
  - by rewrite IH.
  - rewrite <- !Qcplus_assoc. f_equal. apply Qcplus_comm.
  - by rewrite IH1.
Qed.

Lemma dayOf_snoc (vs : list (string * Qc)) (customer : string) (stay : Qc) :
  dayOf (vs ++ [(customer, stay)])
  = Some (visit customer stay (default emptyDay (dayOf vs))).
Proof.
  unfold visit. destruct vs as [|v vs]; simpl.
  - by f_equal.
  - f_equal. f_equal.
    + change (sumVisitHours ((v :: vs) ++ [(customer, stay)])
              = (sumVisitHours (v :: vs) + stay / Qc_of_Z 60)%Qc).
      rewrite sumVisitHours_app. simpl. by rewrite Z2Qc_inj_0, Qcplus_0_l.
    + rewrite length_app. simpl. lia.
    + rewrite fmap_app, list_to_set_app_L. simpl.
      by rewrite (right_id_L ∅ (∪)), (assoc_L (∪)).
Qed.

Lemma countDay_lookup (customer : string) (stay : Qc) (day : string)
    (ds : gmap string DayAcc.t) (d : string) (vs : list (string * Qc)) :
  ds !! d = dayOf vs →
  countDay customer stay day ds !! d
  = dayOf (vs ++ if bool_decide (day = d) then [(customer, stay)] else []).
Proof.
  intros Hvs. unfold countDay. case_bool_decide as Hd.
  - subst d. rewrite dayOf_snoc, lookup_alter_eq.
    destruct (ds !! day) as [x|] eqn:Hx.
    + rewrite Hx, <- Hvs. done.
    + rewrite lookup_insert_eq, <- Hvs. done.
  - rewrite app_nil_r, lookup_alter_ne by done.
    destruct (ds !! day); [done|]. by rewrite lookup_insert_ne.
Qed.

Lemma processRecord_days (tz : Z) (acc : Acc.t) (r : Row.t) (d : string)
    (vs : list (string * Qc)) :
  Acc.dailyStats acc !! d = dayOf vs →
  Acc.dailyStats (processRecord tz acc r) !! d = dayOf (vs ++ visitsOf d r).
Proof.
  intros Hvs. unfold visitsOf. destruct (counted r) eqn:Hr.
  - rewrite processRecord_counted by done. simpl. by apply countDay_lookup.
  - rewrite processRecord_uncounted by done. simpl. by rewrite app_nil_r.
Qed.

Lemma fold_processRecord_days (tz : Z) (records : list Row.t) :
  ∀ (acc : Acc.t) (d : string) (vs : list (string * Qc)),
    Acc.dailyStats acc !! d = dayOf vs →
    Acc.dailyStats (fold_left (processRecord tz) records acc) !! d
    = dayOf (vs ++ flat_map (visitsOf d) records).
Proof.
  induction records as [|r records IH]; intros acc d vs Hvs; simpl.
  - by rewrite app_nil_r.
  - rewrite app_assoc. apply IH. by apply processRecord_days.
Qed.

Lemma accumulate_days (tz : Z) (records : list Row.t) (d : string) :
  Acc.dailyStats (accumulate tz records) !! d = dayOf (flat_map (visitsOf d) records).
Proof. by apply (fold_processRecord_days tz records emptyAcc d []). Qed.

(** ** Order of the records *)

Lemma dayOf_perm (vs ws : list (string * Qc)) : vs ≡ₚ ws → dayOf vs = dayOf ws.
Proof.
  intros Hperm. destruct vs as [|v vs], ws as [|w ws]; simpl.
  - done.
  - by apply Permutation_nil_cons in Hperm.
  - symmetry in Hperm. by apply Permutation_nil_cons in Hperm.
  - f_equal. f_equal.
    + by apply (sumVisitHours_perm (v :: vs) (w :: ws)).
    + apply Permutation_length in Hperm. simpl in Hperm. lia.
    + change (list_to_set (v :: vs).*1 = (list_to_set (w :: ws).*1 : gset string)).
      by rewrite Hperm.
Qed.

(** ** Records without a checkout *)

(** C2 on the code.  A record without checkout and with a positive stay is
    not processed: the statement that should derive the checkout assigns to
    a [const] binding, the TypeError is caught by the surrounding [catch],
    and the accumulators stay as they were. *)
Theorem C2_absent_checkout_dropped (tz : Z) (acc : Acc.t) (record : Row.t) :
  Row.checkoutTime record = None →
  (0 < parseStayTime (Row.stayTime record))%Qc →
  recordBody tz acc record = Throw "Assignment to constant variable."
  ∧ processRecord tz acc record = acc.
Proof.
  intros Hnone Hstay. apply Qc_ltb_lt in Hstay.
  unfold processRecord, recordBody. rewrite Hnone. simpl. by rewrite Hstay.
Qed.

(** A visit of 30 minutes at 2024-03-29 23:33:42 +0900 whose checkout column
    is empty. *)
Lemma C2_absent_checkout_dropped_witness :
  recordBody 32400000 emptyAcc (Row.mk "A" 1711722822000 None (0, 30, 0))
  = Throw "Assignment to constant variable."
  ∧ processRecord 32400000 emptyAcc (Row.mk "A" 1711722822000 None (0, 30, 0))
    = emptyAcc.
Proof.
  apply (C2_absent_checkout_dropped 32400000 emptyAcc
           (Row.mk "A" 1711722822000 None (0, 30, 0))).
  - reflexivity.
  - reflexivity.
Defined.

(** The same visit is processed when the checkout column is filled in. *)
Example present_checkout_processed :
  size (MonthData.hourlyOccupancy
          (calculateHourlyOccupancy 32400000
             [Row.mk "A" 1711722822000 (Some 1711724622000) (0, 30, 0)])) = 2%nat
  ∧ size (MonthData.hourlyOccupancy
            (calculateHourlyOccupancy 32400000
               [Row.mk "A" 1711722822000 None (0, 30, 0)])) = 0%nat.
Proof. split; reflexivity. Qed.

(** ** Rounding *)

Lemma Qfloor_unique (x : Q) (n : Z) :
  (inject_Z n <= x)%Q → (x < inject_Z (n + 1))%Q → Qfloor x = n.
Proof.
  intros Hle Hlt.
  pose proof (Qfloor_le x) as Hfl. pose proof (Qlt_floor x) as Hfu.
  assert (Qfloor x < n + 1).
  { rewrite Zlt_Qlt. eapply Qle_lt_trans; [exact Hfl|exact Hlt]. }
  assert (n < Qfloor x + 1).
  { rewrite Zlt_Qlt. eapply Qle_lt_trans; [exact Hle|exact Hfu]. }
  lia.
Qed.

(** [Math.round x] is the integer [n] with [n <= x + 1/2 < n + 1]. *)
Lemma Math_round_bounds (x : Qc) :
  (Qc_of_Z (Math_round x) <= x + Q2Qc (1 # 2))%Qc
  ∧ (x + Q2Qc (1 # 2) < Qc_of_Z (Math_round x + 1))%Qc.
Proof.
  unfold Math_round, Qcle, Qclt. simpl. split.
  - apply Qfloor_le.
  - apply Qlt_floor.
Qed.

Lemma Math_round_unique (x : Qc) (n : Z) :
  (Qc_of_Z n <= x + Q2Qc (1 # 2))%Qc → (x + Q2Qc (1 # 2) < Qc_of_Z (n + 1))%Qc →
  Math_round x = n.
Proof. intros Hle Hlt. by apply Qfloor_unique. Qed.

Lemma Math_round_Qc_of_Z (n : Z) : Math_round (Qc_of_Z n) = n.
Proof.
  apply Math_round_unique.
  - rewrite <- (Qcplus_0_r (Qc_of_Z n)) at 1. by apply Qcplus_le_mono_l.
  - rewrite Z2Qc_inj_add. by apply Qcplus_lt_mono_l.
Qed.

Lemma round1_Qc_of_Z (n : Z) : round1 (Qc_of_Z n) = Qc_of_Z n.
Proof.
  unfold round1. rewrite <- Z2Qc_inj_mul, Math_round_Qc_of_Z.
  by apply Qc_of_Z_div_exact.
Qed.

(** ** The empty record set *)

(** C6. For the empty record set the buckets and the daily statistics are
    empty, and calculateTotalStats returns 0 for totalHours, manHours,
    uniqueUsers, totalSessions, peakOccupancy, averageOccupancy and
    activeDays. *)
Theorem C6_empty_record_set (tz : Z) :
  MonthData.hourlyOccupancy (calculateHourlyOccupancy tz []) = ∅
  ∧ MonthData.dailyStats (calculateHourlyOccupancy tz []) = ∅
  ∧ calculateTotalStats (calculateHourlyOccupancy tz []) []
    = {| TotalStats.totalHours := Qc_of_Z 0;
         TotalStats.manHours := Qc_of_Z 0;
         TotalStats.uniqueUsers := 0;
         TotalStats.totalSessions := 0;
         TotalStats.peakOccupancy := 0;
         TotalStats.averageOccupancy := Qc_of_Z 0;
         TotalStats.activeDays := 0 |}.
Proof.
  split; [done|]. split; [done|].
  unfold calculateTotalStats, calculateHourlyOccupancy, accumulate. simpl.
  unfold sumValues, maxValues. rewrite fmap_empty, !map_fold_empty, !map_size_empty.
  simpl. rewrite !round1_Qc_of_Z. done.
Qed.

(** ** Percentage deltas *)

Lemma Math_round_nearestTenth (x : Qc) : nearestTenth x (Math_round (x * Qc_of_Z 10)).
Proof. apply Math_round_bounds. Qed.

Lemma Number_toString_round1 (x : Qc) :
  Number_toString (round1 x) = show_tenths (Math_round (x * Qc_of_Z 10)).
Proof.
  unfold Number_toString, round1. rewrite Qc_div_mul_cancel by done.
  f_equal. simpl. apply Qfloor_Z.
Qed.

Lemma round1_roundedToTenth (x : Qc) : roundedToTenth x (round1 x).
Proof.
  unfold roundedToTenth, round1.
  destruct (Math_round_bounds (x * Qc_of_Z 10)) as [Hlo Hhi].
  set (n := Math_round (x * Qc_of_Z 10)) in *. clearbody n.
  split; [by exists n|].
  unfold Qcle, Qclt in *. simpl in *.
  rewrite ?Qred_correct in *.
  rewrite inject_Z_plus in Hhi.
  change (inject_Z 10) with (10 # 1)%Q in *. change (inject_Z 1) with 1%Q in *.
  change (/ (10 # 1))%Q with (1 # 10)%Q.
  split; lra.
Qed.

(** From 50 to 100 hours, from 50 to 0, from 3 to 2, and from 0. *)
Example calculateChange_examples :
  calculateChange (Qc_of_Z 100) (Qc_of_Z 50) = "+100%"
  ∧ calculateChange (Qc_of_Z 0) (Qc_of_Z 50) = "-100%"
  ∧ calculateChange (Qc_of_Z 2) (Qc_of_Z 3) = "-33.3%"
  ∧ calculateChange (Qc_of_Z 7) (Qc_of_Z 0) = "+∞%"
  ∧ calculateChange (Qc_of_Z 0) (Qc_of_Z 0) = "0%"
  ∧ calculateDifference 12 9 = "+3".
Proof. repeat split; reflexivity. Qed.

(** The sign is that of the percentage before rounding: a decrease of less
    than 0.05 percent prints as 0 without a sign, an increase of less than
    0.05 percent as 0 with one. *)
Example calculateChange_near_zero :
  calculateChange (Q2Qc (9999 # 10)) (Qc_of_Z 1000) = "0%"
  ∧ calculateChange (Q2Qc (10001 # 10)) (Qc_of_Z 1000) = "+0%".
Proof. split; reflexivity. Qed.

(** ** The average occupancy *)

Lemma sumValues_counts (hourlyOccupancy : gmap string Bucket.t) :
  sumValues (λ h, Qc_of_Z (Bucket.count h)) hourlyOccupancy
  = Qc_of_Z (foldr Z.add 0 (Bucket.count <$> (map_to_list hourlyOccupancy).*2)).
Proof.
  unfold sumValues. rewrite map_fold_foldr.
  induction (map_to_list hourlyOccupancy) as [|[key h] l IH]; simpl.
  - done.
  - rewrite IH. rewrite Z2Qc_inj_add. apply Qcplus_comm.
Qed.

(** C7. When buckets exist, the averageOccupancy that calculateTotalStats
    returns is the arithmetic mean of the counts of the buckets that exist,
    rounded to one decimal place; when none exists it is 0.  An hour without
    occupants has no bucket: every bucket that calculateHourlyOccupancy
    returns has a count of at least 1. *)
Theorem C7_average_occupancy (monthData : MonthData.t) (records : list Row.t) :
  let hourlyOccupancy := MonthData.hourlyOccupancy monthData in
  let averageOccupancy :=
    TotalStats.averageOccupancy (calculateTotalStats monthData records) in
  (hourlyOccupancy = ∅ → averageOccupancy = Qc_of_Z 0)
  ∧ (hourlyOccupancy ≠ ∅ →
     ∃ n : Z, nearestTenth (meanCount hourlyOccupancy) n
              ∧ averageOccupancy = (Qc_of_Z n / Qc_of_Z 10)%Qc)
  ∧ (∀ tz visits key b,
       MonthData.hourlyOccupancy (calculateHourlyOccupancy tz visits) !! key = Some b →
       1 ≤ Bucket.count b).
Proof.
  intros ho avg. subst avg. unfold calculateTotalStats. simpl. fold ho.
  split; [|split].
  - intros ->. rewrite map_size_empty. simpl. apply round1_Qc_of_Z.
  - intros Hne. apply map_size_non_empty_iff in Hne.
    destruct (Z.gtb_spec (Z.of_nat (size ho)) 0) as [_|Hle]; [|lia].
    exists (Math_round (meanCount ho * Qc_of_Z 10)).
    split; [apply Math_round_nearestTenth|].
    unfold round1, meanCount. by rewrite sumValues_counts, length_map_to_list.
  - intros tz visits key b Hb. simpl in Hb. rewrite accumulate_buckets in Hb.
    by apply bucketOf_invariant in Hb as [(_ & _ & ?) _].
Qed.

(** A single visit of 30 minutes in an otherwise empty period. *)
Example single_visit_summary :
  let visits := [Row.mk "A" 1711722822000 (Some 1711724622000) (0, 30, 0)] in
  let stats := calculateTotalStats (calculateHourlyOccupancy 32400000 visits) visits in
  TotalStats.peakOccupancy stats = 1
  ∧ TotalStats.averageOccupancy stats = Qc_of_Z 1
  ∧ TotalStats.totalSessions stats = 1
  ∧ TotalStats.uniqueUsers stats = 1
  ∧ TotalStats.activeDays stats = 1.
Proof. repeat split; try reflexivity. by apply Qc_is_canon. Qed.

(** ** The calendar *)

Lemma yearOfEra_range (doe : Z) :
  0 ≤ doe < 146097 →
  let yoe := (doe - doe / 1460 + doe / 36524 - doe / 146096) / 365 in
  0 ≤ yoe ≤ 399 ∧ 0 ≤ doe - (365 * yoe + yoe / 4 - yoe / 100) ≤ 365.
Proof. intros H yoe. subst yoe. lia. Qed.

Lemma yearOfEra_inverse (yoe doy : Z) :
  0 ≤ yoe ≤ 399 → 0 ≤ doy ≤ 365 →
  (doy = 365 → yoe mod 4 = 3 ∧ (yoe mod 100 ≠ 99 ∨ yoe = 399)) →
  let doe := yoe * 365 + yoe / 4 - yoe / 100 + doy in
  0 ≤ doe < 146097
  ∧ (doe - doe / 1460 + doe / 36524 - doe / 146096) / 365 = yoe.
Proof. intros Hy Hd Hleap doe. subst doe. lia. Qed.

(** The date of a day number is a month from 1 to 12 and a day from 1 to 31. *)
Lemma civil_from_days_range (z : Z) :
  1 ≤ (JSDate.civil_from_days z).1.2 ≤ 12 ∧ 1 ≤ (JSDate.civil_from_days z).2 ≤ 31.
Proof.
  unfold JSDate.civil_from_days.
  set (z' := z + 719468). set (era := z' / 146097). set (doe := z' - era * 146097).
  assert (Hdoe : 0 ≤ doe < 146097) by (subst doe era; lia).
  pose proof (yearOfEra_range doe Hdoe) as Hy. cbv zeta in Hy.
  set (yoe := (doe - doe / 1460 + doe / 36524 - doe / 146096) / 365) in *.
  set (doy := doe - (365 * yoe + yoe / 4 - yoe / 100)) in *.
  clearbody doy yoe. clear Hdoe. clearbody doe.
  set (mp := (5 * doy + 2) / 153).
  assert (0 ≤ mp ≤ 11) by (subst mp; lia).
  simpl. destruct (Z.ltb_spec mp 10); (split; [lia|]); subst mp; lia.
Qed.

(** The day number of the date of a day number is that day number. *)
Lemma days_from_civil_from_days (z : Z) :
  JSDate.days_from_civil (JSDate.civil_from_days z).1.1 (JSDate.civil_from_days z).1.2
    (JSDate.civil_from_days z).2 = z.
Proof.
  unfold JSDate.civil_from_days.
  set (z' := z + 719468). set (era := z' / 146097). set (doe := z' - era * 146097).
  assert (Hdoe : 0 ≤ doe < 146097) by (subst doe era; lia).
  pose proof (yearOfEra_range doe Hdoe) as Hy. cbv zeta in Hy.
  set (yoe := (doe - doe / 1460 + doe / 36524 - doe / 146096) / 365) in *.
  set (doy := doe - (365 * yoe + yoe / 4 - yoe / 100)) in *.
  assert (Hz : z = era * 146097 + doe - 719468) by (subst doe z'; lia).
  assert (Hdoe' : doe = 365 * yoe + yoe / 4 - yoe / 100 + doy) by (subst doy; lia).
  clearbody doy. clearbody yoe. clear Hdoe. clearbody doe. clearbody era. clear z'.
  set (mp := (5 * doy + 2) / 153).
  assert (Hmp : 0 ≤ mp ≤ 11) by (subst mp; lia).
  set (d := doy - (153 * mp + 2) / 5 + 1).
  assert (Hd : doy = (153 * mp + 2) / 5 + d - 1) by (subst d; lia).
  clearbody d. clearbody mp. simpl.
  unfold JSDate.days_from_civil.
  destruct (Z.ltb_spec mp 10) as [E|E].
  - replace (mp + 3 <=? 2) with false by (symmetry; apply Z.leb_gt; lia).
    replace ((mp + 3 + 9) mod 12) with mp by lia.
    replace ((yoe + era * 400) / 400) with era by lia.
    replace (yoe + era * 400 - era * 400) with yoe by lia. lia.
  - replace (mp - 9 <=? 2) with true by (symmetry; apply Z.leb_le; lia).
    replace ((mp - 9 + 9) mod 12) with mp by lia.
    replace ((yoe + era * 400 + 1 - 1) / 400) with era by lia.
    replace (yoe + era * 400 + 1 - 1 - era * 400) with yoe by lia. lia.
Qed.

Lemma days_from_civil_day (y m d : Z) :
  JSDate.days_from_civil y m d = JSDate.days_from_civil y m 1 + d - 1.
Proof. unfold JSDate.days_from_civil. lia. Qed.

Lemma leapYear_spec (y : Z) :
  leapYear y = true ↔ y mod 4 = 0 ∧ (y mod 100 ≠ 0 ∨ y mod 400 = 0).
Proof.
  unfold leapYear.
  destruct (Z.eqb_spec (y mod 4) 0), (Z.eqb_spec (y mod 100) 0),
    (Z.eqb_spec (y mod 400) 0); simpl; split; try done; lia.
Qed.

(** The date of the day number of a date of the calendar is that date. *)
Lemma civil_from_days_from_civil (y m d : Z) :
  1 ≤ m ≤ 12 → 1 ≤ d ≤ daysInMonth y m →
  JSDate.civil_from_days (JSDate.days_from_civil y m d) = (y, m, d).
Proof.
  intros Hm Hd. unfold JSDate.days_from_civil.
  set (y' := if m <=? 2 then y - 1 else y).
  set (era := y' / 400). set (yoe := y' - era * 400).
  set (mp := (m + 9) mod 12).
  set (doy := (153 * mp + 2) / 5 + d - 1).
  assert (Hyoe : 0 ≤ yoe ≤ 399) by (subst yoe era; lia).
  assert (Hmp : mp = if m <=? 2 then m + 9 else m - 3).
  { subst mp. destruct (Z.leb_spec m 2); lia. }
  assert (Hdoy : 0 ≤ doy ≤ 365
                 ∧ (doy = 365 → yoe mod 4 = 3 ∧ (yoe mod 100 ≠ 99 ∨ yoe = 399))
                 ∧ (5 * doy + 2) / 153 = mp).
  { unfold daysInMonth in Hd. pose proof (leapYear_spec y) as Hleap.
    subst doy. subst yoe era y'. rewrite Hmp. clear Hmp. clearbody mp.
    assert (Hc : m = 1 ∨ m = 2 ∨ m = 3 ∨ m = 4 ∨ m = 5 ∨ m = 6 ∨ m = 7 ∨ m = 8
                 ∨ m = 9 ∨ m = 10 ∨ m = 11 ∨ m = 12) by lia.
    destruct Hc as [->|[->|[->|[->|[->|[->|[->|[->|[->|[->|[->| ->]]]]]]]]]]];
      simpl in *; try lia.
    destruct (leapYear y); [|lia].
    destruct Hleap as [Hleap _]. specialize (Hleap eq_refl). lia. }
  destruct Hdoy as (Hdoy & Hleap & Hmonth).
  pose proof (yearOfEra_inverse yoe doy Hyoe Hdoy Hleap) as [Hdoe Hinv]. cbv zeta in Hinv.
  unfold JSDate.civil_from_days.
  set (doe := yoe * 365 + yoe / 4 - yoe / 100 + doy) in *.
  replace ((era * 146097 + doe - 719468 + 719468) / 146097) with era by lia.
  replace (era * 146097 + doe - 719468 + 719468 - era * 146097) with doe by lia.
  rewrite Hinv.
  replace (doe - (365 * yoe + yoe / 4 - yoe / 100)) with doy by (subst doe; lia).
  rewrite Hmonth.
  assert (Hyear : yoe + era * 400 = y') by (subst yoe; lia).
  rewrite Hyear. subst doy. rewrite Hmp. subst y'.
  destruct (Z.leb_spec m 2) as [Hle|Hgt].
  - replace (m + 9 <? 10) with false by (symmetry; apply Z.ltb_ge; lia).
    replace (m + 9 - 9 <=? 2) with true by (symmetry; apply Z.leb_le; lia).
    f_equal; [f_equal|]; lia.
  - replace (m - 3 <? 10) with true by (symmetry; apply Z.ltb_lt; lia).
    replace (m - 3 + 3 <=? 2) with false by (symmetry; apply Z.leb_gt; lia).
    f_equal; [f_equal|]; lia.
Qed.

(** ** The windows of the comparison *)

(** [new Date(y, m - 1, d, h, mi, s)] in local time, for a month [m] from 1
    to 12 and a year outside the two-digit range. *)
Lemma LocalTime_construct (tz y m d h mi s : Z) :
  ¬ (0 ≤ y ≤ 99) → 1 ≤ m ≤ 12 →
  JSDate.LocalTime tz (JSDate.construct tz y (m - 1) d h mi s)
  = (JSDate.days_from_civil y m 1 + d - 1) * JSDate.msPerDay
    + JSDate.MakeTime h mi s 0.
Proof.
  intros Hy Hm. unfold JSDate.construct, JSDate.LocalTime, JSDate.UTC, JSDate.MakeDate,
    JSDate.MakeDay.
  replace ((0 <=? y) && (y <=? 99)) with false
    by (symmetry; apply andb_false_iff; rewrite Z.leb_gt, Z.leb_gt; lia).
  replace ((m - 1) / 12) with 0 by lia.
  replace ((m - 1) mod 12 + 1) with m by lia.
  replace (y + 0) with y by lia. lia.
Qed.

Lemma localDateTime_construct (tz y m d h mi s : Z) :
  ¬ (0 ≤ y ≤ 99) → 1 ≤ m ≤ 12 → 1 ≤ d ≤ daysInMonth y m →
  0 ≤ JSDate.MakeTime h mi s 0 < JSDate.msPerDay →
  localDateTime tz (JSDate.construct tz y (m - 1) d h mi s)
  = (y, m, d, JSDate.MakeTime h mi s 0).
Proof.
  intros Hy Hm Hd Ht. unfold localDateTime.
  rewrite LocalTime_construct by done.
  rewrite <- days_from_civil_day.
  unfold JSDate.Day, JSDate.TimeWithinDay.
  set (n := JSDate.days_from_civil y m d) in *.
  set (t := JSDate.MakeTime h mi s 0) in *.
  unfold JSDate.msPerDay in *.
  replace ((n * 86400000 + t) / 86400000) with n by lia.
  replace ((n * 86400000 + t) mod 86400000) with t by lia.
  subst n. by rewrite civil_from_days_from_civil.
Qed.

Lemma daysInMonth_range (y m : Z) : 28 ≤ daysInMonth y m ≤ 31.
Proof.
  unfold daysInMonth.
  destruct (m =? 2); [destruct (leapYear y); lia|].
  destruct ((m =? 4) || (m =? 6) || (m =? 9) || (m =? 11)); lia.
Qed.

(** The local date of the clock reading, as the comparison reads it. *)
Lemma current_date (tz now : Z) :
  JSDate.civil_from_days (JSDate.Day (JSDate.LocalTime tz now))
  = (currentYear_of tz now, currentMonth_of tz now, currentDay_of tz now).
Proof.
  unfold currentYear_of, currentMonth_of, currentDay_of, JSDate.getFullYear,
    JSDate.getMonth, JSDate.getDate, JSDate.YearFromTime, JSDate.MonthFromTime,
    JSDate.DateFromTime.
  destruct (JSDate.civil_from_days (JSDate.Day (JSDate.LocalTime tz now))) as [[y m] d].
  simpl. f_equal. f_equal. lia.
Qed.

Lemma current_date_range (tz now : Z) :
  1 ≤ currentMonth_of tz now ≤ 12 ∧ 1 ≤ currentDay_of tz now ≤ 31.
Proof.
  pose proof (civil_from_days_range (JSDate.Day (JSDate.LocalTime tz now))) as H.
  rewrite current_date in H. exact H.
Qed.

Lemma current_day_number (tz now : Z) :
  JSDate.days_from_civil (currentYear_of tz now) (currentMonth_of tz now)
    (currentDay_of tz now)
  = JSDate.Day (JSDate.LocalTime tz now).
Proof.
  pose proof (days_from_civil_from_days (JSDate.Day (JSDate.LocalTime tz now))) as H.
  rewrite current_date in H. exact H.
Qed.

Lemma previous_month (tz now : Z) :
  (previousYear_of tz now, previousMonth_of tz now)
  = precedingMonth (currentYear_of tz now) (currentMonth_of tz now).
Proof.
  unfold previousYear_of, previousMonth_of, precedingMonth.
  by destruct (currentMonth_of tz now =? 1).
Qed.

Lemma within_spec (start finish : Z) (record : Row.t) :
  within start finish record = true ↔ start ≤ Row.checkinTime record ≤ finish.
Proof.
  unfold within, parseDateTime. rewrite andb_true_iff, Z.geb_le, Z.leb_le. lia.
Qed.


Lemma MakeTime_midnight : JSDate.MakeTime 0 0 0 0 = 0.
Proof. reflexivity. Qed.

Lemma MakeTime_last_second : JSDate.MakeTime 23 59 59 0 = 86399000.
Proof. reflexivity. Qed.

Lemma day_of_stamp (n t : Z) :
  0 ≤ t < 86400000 →
  JSDate.Day (n * JSDate.msPerDay + t) = n
  ∧ JSDate.TimeWithinDay (n * JSDate.msPerDay + t) = t.
Proof. intros Ht. unfold JSDate.Day, JSDate.TimeWithinDay, JSDate.msPerDay. lia. Qed.

Lemma currentMonthStart_local (tz now : Z) :
  ¬ (0 ≤ currentYear_of tz now ≤ 100) →
  localDateTime tz (currentMonthStart tz now)
  = (currentYear_of tz now, currentMonth_of tz now, 1, 0).
Proof.
  intros Hyear. pose proof (current_date_range tz now) as [Hmonth _].
  pose proof (daysInMonth_range (currentYear_of tz now) (currentMonth_of tz now)).
  unfold currentMonthStart.
  rewrite localDateTime_construct, MakeTime_midnight; [done|lia|done|lia|].
  rewrite MakeTime_midnight. unfold JSDate.msPerDay. lia.
Qed.

Lemma currentMonthEnd_LocalTime (tz now : Z) :
  ¬ (0 ≤ currentYear_of tz now ≤ 100) →
  JSDate.LocalTime tz (currentMonthEnd tz now)
  = JSDate.Day (JSDate.LocalTime tz now) * JSDate.msPerDay + 86399000.
Proof.
  intros Hyear. pose proof (current_date_range tz now) as [Hmonth _].
  unfold currentMonthEnd.
  rewrite LocalTime_construct by (done || lia).
  by rewrite <- days_from_civil_day, current_day_number, MakeTime_last_second.
Qed.

Lemma currentMonthEnd_local (tz now : Z) :
  ¬ (0 ≤ currentYear_of tz now ≤ 100) →
  localDateTime tz (currentMonthEnd tz now)
  = (currentYear_of tz now, currentMonth_of tz now, currentDay_of tz now, 86399000).
Proof.
  intros Hyear. unfold localDateTime. rewrite currentMonthEnd_LocalTime by done.
  destruct (day_of_stamp (JSDate.Day (JSDate.LocalTime tz now)) 86399000) as [-> ->]; [lia|].
  by rewrite current_date.
Qed.

Lemma now_in_current_window (tz now : Z) :
  ¬ (0 ≤ currentYear_of tz now ≤ 100) →
  currentMonthStart tz now ≤ now < currentMonthEnd tz now + 1000.
Proof.
  intros Hyear. pose proof (current_date_range tz now) as [Hmonth Hday].
  pose proof (currentMonthEnd_LocalTime tz now Hyear) as Hend.
  assert (Hstart : JSDate.LocalTime tz (currentMonthStart tz now)
                   = (JSDate.Day (JSDate.LocalTime tz now) - (currentDay_of tz now - 1))
                     * JSDate.msPerDay).
  { unfold currentMonthStart. rewrite LocalTime_construct by (done || lia).
    rewrite MakeTime_midnight, <- (current_day_number tz now).
    rewrite (days_from_civil_day _ _ (currentDay_of tz now)). lia. }
  revert Hstart Hend. unfold JSDate.LocalTime, JSDate.Day, JSDate.msPerDay.
  generalize (currentMonthStart tz now) (currentMonthEnd tz now) (currentDay_of tz now) Hday.
  intros. lia.
Qed.

Lemma precedingMonth_range (y m : Z) :
  1 ≤ m ≤ 12 → ¬ (0 ≤ y ≤ 100) →
  1 ≤ (precedingMonth y m).2 ≤ 12 ∧ ¬ (0 ≤ (precedingMonth y m).1 ≤ 99).
Proof.
  intros Hm Hy. unfold precedingMonth. destruct (Z.eqb_spec m 1); simpl; lia.
Qed.

Lemma previousMonthStart_local (tz now : Z) :
  ¬ (0 ≤ currentYear_of tz now ≤ 100) →
  localDateTime tz (previousMonthStart tz now)
  = (previousYear_of tz now, previousMonth_of tz now, 1, 0).
Proof.
  intros Hyear. pose proof (current_date_range tz now) as [Hmonth _].
  pose proof (precedingMonth_range _ _ Hmonth Hyear) as [Hpm Hpy].
  rewrite <- previous_month in Hpm, Hpy. simpl in Hpm, Hpy.
  pose proof (daysInMonth_range (previousYear_of tz now) (previousMonth_of tz now)).
  unfold previousMonthStart.
  rewrite localDateTime_construct, MakeTime_midnight; [done|done|done|lia|].
  rewrite MakeTime_midnight. unfold JSDate.msPerDay. lia.
Qed.

Lemma previousMonthEnd_local (tz now : Z) :
  ¬ (0 ≤ currentYear_of tz now ≤ 100) →
  currentDay_of tz now ≤ daysInMonth (previousYear_of tz now) (previousMonth_of tz now) →
  localDateTime tz (previousMonthEnd tz now)
  = (previousYear_of tz now, previousMonth_of tz now, currentDay_of tz now, 86399000).
Proof.
  intros Hyear Hexists. pose proof (current_date_range tz now) as [Hmonth Hday].
  pose proof (precedingMonth_range _ _ Hmonth Hyear) as [Hpm Hpy].
  rewrite <- previous_month in Hpm, Hpy. simpl in Hpm, Hpy.
  unfold previousMonthEnd.
  rewrite localDateTime_construct, MakeTime_last_second; [done|done|done|lia|].
  rewrite MakeTime_last_second. unfold JSDate.msPerDay. lia.
Qed.

Lemma elem_of_filter_within (start finish : Z) (records : list Row.t) (record : Row.t) :
  record ∈ List.filter (within start finish) records
  ↔ record ∈ records ∧ start ≤ Row.checkinTime record ≤ finish.
Proof.
  rewrite !list_elem_of_In, filter_In, within_spec. done.
Qed.

(** C8, as the code has it.  Let the clock read [now], on the local date
    year-month-day, the year outside 0..100 (where the Date constructor
    reads a two-digit year).  The current window runs from 00:00:00.000 of
    the first day of that month to 23:59:59.000 of that day, local time,
    and contains the instant [now] up to its second.  The reference window
    starts at 00:00:00.000 of the first day of the preceding month, month 1
    being preceded by month 12 of the year before; when the preceding month
    has a day of that number, it ends at 23:59:59.000 of that day.  A record
    is in a window exactly when its checkin instant is between the two ends
    of the window, both included. *)
Theorem C8_comparison_windows (tz now : Z) (records : list Row.t) (record : Row.t) :
  ¬ (0 ≤ currentYear_of tz now ≤ 100) →
  (localDateTime tz now).1
  = (currentYear_of tz now, currentMonth_of tz now, currentDay_of tz now)
  ∧ localDateTime tz (currentMonthStart tz now)
    = (currentYear_of tz now, currentMonth_of tz now, 1, 0)
  ∧ localDateTime tz (currentMonthEnd tz now)
    = (currentYear_of tz now, currentMonth_of tz now, currentDay_of tz now, 86399000)
  ∧ currentMonthStart tz now ≤ now < currentMonthEnd tz now + 1000
  ∧ (previousYear_of tz now, previousMonth_of tz now)
    = precedingMonth (currentYear_of tz now) (currentMonth_of tz now)
  ∧ localDateTime tz (previousMonthStart tz now)
    = (previousYear_of tz now, previousMonth_of tz now, 1, 0)
  ∧ (currentDay_of tz now
       ≤ daysInMonth (previousYear_of tz now) (previousMonth_of tz now) →
     localDateTime tz (previousMonthEnd tz now)
     = (previousYear_of tz now, previousMonth_of tz now, currentDay_of tz now, 86399000))
  ∧ (record ∈ currentMonthRecords tz now records
     ↔ record ∈ records
       ∧ currentMonthStart tz now ≤ Row.checkinTime record ≤ currentMonthEnd tz now)
  ∧ (record ∈ previousMonthRecords tz now records
     ↔ record ∈ records
       ∧ previousMonthStart tz now ≤ Row.checkinTime record ≤ previousMonthEnd tz now).
Proof.
  intros Hyear.
  split; [apply current_date|].
  split; [by apply currentMonthStart_local|].
  split; [by apply currentMonthEnd_local|].
  split; [by apply now_in_current_window|].
  split; [apply previous_month|].
  split; [by apply previousMonthStart_local|].
  split; [by apply previousMonthEnd_local|].
  split; apply elem_of_filter_within.
Qed.

(** The clock reads 2024-03-29 23:33:42 +0900; the record checked in one
    day earlier. *)
Lemma C8_comparison_windows_witness :
  let tz := 32400000 in
  let now := 1711722822000 in
  let record := Row.mk "A" 1711636422000 (Some 1711640022000) (1, 0, 0) in
  let records := [record] in
  (localDateTime tz now).1
  = (currentYear_of tz now, currentMonth_of tz now, currentDay_of tz now)
  ∧ localDateTime tz (currentMonthStart tz now)
    = (currentYear_of tz now, currentMonth_of tz now, 1, 0)
  ∧ localDateTime tz (currentMonthEnd tz now)
    = (currentYear_of tz now, currentMonth_of tz now, currentDay_of tz now, 86399000)
  ∧ currentMonthStart tz now ≤ now < currentMonthEnd tz now + 1000
  ∧ (previousYear_of tz now, previousMonth_of tz now)
    = precedingMonth (currentYear_of tz now) (currentMonth_of tz now)
  ∧ localDateTime tz (previousMonthStart tz now)
    = (previousYear_of tz now, previousMonth_of tz now, 1, 0)
  ∧ (currentDay_of tz now
       ≤ daysInMonth (previousYear_of tz now) (previousMonth_of tz now) →
     localDateTime tz (previousMonthEnd tz now)
     = (previousYear_of tz now, previousMonth_of tz now, currentDay_of tz now, 86399000))
  ∧ (record ∈ currentMonthRecords tz now records
     ↔ record ∈ records
       ∧ currentMonthStart tz now ≤ Row.checkinTime record ≤ currentMonthEnd tz now)
  ∧ (record ∈ previousMonthRecords tz now records
     ↔ record ∈ records
       ∧ previousMonthStart tz now ≤ Row.checkinTime record ≤ previousMonthEnd tz now).
Proof.
  intros tz now record records.
  apply (C8_comparison_windows tz now records record).
  vm_compute. intros [_ H]. apply H. reflexivity.
Defined.

(** The two windows on that date. *)
Example windows_2024_03_29 :
  JSDate.toISOString (currentMonthStart 32400000 1711722822000) = "2024-02-29T15:00:00.000Z"
  ∧ JSDate.toISOString (currentMonthEnd 32400000 1711722822000) = "2024-03-29T14:59:59.000Z"
  ∧ JSDate.toISOString (previousMonthStart 32400000 1711722822000) = "2024-01-31T15:00:00.000Z"
  ∧ JSDate.toISOString (previousMonthEnd 32400000 1711722822000) = "2024-02-29T14:59:59.000Z".
Proof. repeat split; vm_compute; reflexivity. Qed.

(** C8 as stated fails: the current window does not end at the current
    instant but at the end of the current day, so a checkin later the same
    day is in the window. *)
Lemma C8_counterexample :
  ¬ (∀ (tz now : Z) (records : list Row.t) (record : Row.t),
       record ∈ currentMonthRecords tz now records
       ↔ record ∈ records
         ∧ currentMonthStart tz now ≤ Row.checkinTime record ≤ now).
Proof.
  intros H.
  pose (record := Row.mk "A" 1711722823000 (Some 1711723000000) (0, 2, 57)).
  destruct (H 32400000 1711722822000 [record] record) as [Hin _].
  assert (Hmember : record ∈ currentMonthRecords 32400000 1711722822000 [record]).
  { apply elem_of_filter_within. split; [apply list_elem_of_here|].
    vm_compute. split; intros Hc; discriminate Hc. }
  apply Hin in Hmember as [_ [_ Hle]]. vm_compute in Hle. by apply Hle.
Qed.

(** On the 31st of a month that follows a month of 30 days, the day 31 of
    the preceding month is the first day of the current one: the reference
    window then runs into the current month. *)
Example reference_window_on_day_31 :
  let now := JSDate.construct 0 2024 4 31 10 0 0 in
  JSDate.toISOString now = "2024-05-31T10:00:00.000Z"
  ∧ JSDate.toISOString (previousMonthStart 0 now) = "2024-04-01T00:00:00.000Z"
  ∧ JSDate.toISOString (previousMonthEnd 0 now) = "2024-05-01T23:59:59.000Z"
  ∧ JSDate.toISOString (currentMonthStart 0 now) = "2024-05-01T00:00:00.000Z".
Proof. repeat split; vm_compute; reflexivity. Qed.

(** ** The comparison and the wall clock *)

(** The comparison uses of the clock reading only its local date. *)
Lemma same_day_same_date (tz now1 now2 : Z) :
  JSDate.Day (JSDate.LocalTime tz now1) = JSDate.Day (JSDate.LocalTime tz now2) →
  currentYear_of tz now1 = currentYear_of tz now2
  ∧ currentMonth_of tz now1 = currentMonth_of tz now2
  ∧ currentDay_of tz now1 = currentDay_of tz now2.
Proof.
  intros Hday.
  unfold currentYear_of, currentMonth_of, currentDay_of, JSDate.getFullYear,
    JSDate.getMonth, JSDate.getDate, JSDate.YearFromTime, JSDate.MonthFromTime,
    JSDate.DateFromTime.
  by rewrite Hday.
Qed.

Lemma same_day_same_windows (tz now1 now2 : Z) :
  JSDate.Day (JSDate.LocalTime tz now1) = JSDate.Day (JSDate.LocalTime tz now2) →
  previousYear_of tz now1 = previousYear_of tz now2
  ∧ previousMonth_of tz now1 = previousMonth_of tz now2
  ∧ currentMonthStart tz now1 = currentMonthStart tz now2
  ∧ currentMonthEnd tz now1 = currentMonthEnd tz now2
  ∧ previousMonthStart tz now1 = previousMonthStart tz now2
  ∧ previousMonthEnd tz now1 = previousMonthEnd tz now2.
Proof.
  intros Hday. destruct (same_day_same_date tz now1 now2 Hday) as (Hy & Hm & Hd).
  unfold currentMonthStart, currentMonthEnd, previousMonthStart, previousMonthEnd,
    previousYear_of, previousMonth_of.
  rewrite Hy, Hm, Hd. done.
Qed.

(** One run: two readings of the clock, the first for the windows, the
    second for [generatedAt]. *)
Lemma generateComparisonData_reads (tz : Z) (records : list Row.t) (w : World.t) :
  World.reads (generateComparisonData tz records w).2 = S (S (World.reads w))
  ∧ World.wallClock (generateComparisonData tz records w).2 = World.wallClock w
  ∧ Metadata.generatedAt (Report.metadata (generateComparisonData tz records w).1)
    = JSDate.toISOString (World.wallClock w (S (World.reads w))).
Proof. done. Qed.

(** C3, as the code has it.  generateComparisonData takes the records only
    and reads the wall clock itself, twice.  Two runs on the same records
    whose first clock readings fall on the same local calendar day produce
    reports that agree in both month reports (windows, buckets, daily
    statistics, summaries), in the comparison and in the period labels;
    generatedAt is the second clock reading of each run. *)
Theorem C3_report_follows_clock (tz : Z) (records : list Row.t) (w1 w2 : World.t) :
  JSDate.Day (JSDate.LocalTime tz (World.wallClock w1 (World.reads w1)))
  = JSDate.Day (JSDate.LocalTime tz (World.wallClock w2 (World.reads w2))) →
  let run1 := generateComparisonData tz records w1 in
  let run2 := generateComparisonData tz records w2 in
  Report.currentMonth run1.1 = Report.currentMonth run2.1
  ∧ Report.previousMonth run1.1 = Report.previousMonth run2.1
  ∧ Report.comparison run1.1 = Report.comparison run2.1
  ∧ Metadata.currentPeriod (Report.metadata run1.1)
    = Metadata.currentPeriod (Report.metadata run2.1)
  ∧ Metadata.previousPeriod (Report.metadata run1.1)
    = Metadata.previousPeriod (Report.metadata run2.1)
  ∧ Metadata.comparisonDays (Report.metadata run1.1)
    = Metadata.comparisonDays (Report.metadata run2.1)
  ∧ Metadata.generatedAt (Report.metadata run1.1)
    = JSDate.toISOString (World.wallClock w1 (S (World.reads w1)))
  ∧ Metadata.generatedAt (Report.metadata run2.1)
    = JSDate.toISOString (World.wallClock w2 (S (World.reads w2)))
  ∧ World.reads run1.2 = S (S (World.reads w1)).
Proof.
  intros Hday run1 run2.
  destruct (same_day_same_date tz _ _ Hday) as (Hy & Hm & Hd).
  destruct (same_day_same_windows tz _ _ Hday) as (Hpy & Hpm & Hcs & Hce & Hps & Hpe).
  subst run1 run2.
  unfold generateComparisonData, mbind, IO_bind, mret, IO_ret, Date_now. simpl.
  unfold currentMonthRecords, previousMonthRecords.
  rewrite Hy, Hm, Hd, Hpy, Hpm, Hcs, Hce, Hps, Hpe. done.
Qed.

(** Two runs on 2024-03-29 (+0900), a minute apart. *)
Lemma C3_report_follows_clock_witness :
  let tz := 32400000 in
  let records := [Row.mk "A" 1711636422000 (Some 1711640022000) (1, 0, 0)] in
  let w1 := World.mk (λ n, 1711722822000 + Z.of_nat n) 0 in
  let w2 := World.mk (λ n, 1711722882000 + Z.of_nat n) 0 in
  let run1 := generateComparisonData tz records w1 in
  let run2 := generateComparisonData tz records w2 in
  Report.currentMonth run1.1 = Report.currentMonth run2.1
  ∧ Report.previousMonth run1.1 = Report.previousMonth run2.1
  ∧ Report.comparison run1.1 = Report.comparison run2.1
  ∧ Metadata.currentPeriod (Report.metadata run1.1)
    = Metadata.currentPeriod (Report.metadata run2.1)
  ∧ Metadata.previousPeriod (Report.metadata run1.1)
    = Metadata.previousPeriod (Report.metadata run2.1)
  ∧ Metadata.comparisonDays (Report.metadata run1.1)
    = Metadata.comparisonDays (Report.metadata run2.1)
  ∧ Metadata.generatedAt (Report.metadata run1.1)
    = JSDate.toISOString (World.wallClock w1 (S (World.reads w1)))
  ∧ Metadata.generatedAt (Report.metadata run2.1)
    = JSDate.toISOString (World.wallClock w2 (S (World.reads w2)))
  ∧ World.reads run1.2 = S (S (World.reads w1)).
Proof.
  intros tz records w1 w2.
  apply (C3_report_follows_clock tz records w1 w2).
  vm_compute. reflexivity.
Defined.

(** C3 as stated fails.  The instant is not an input: the function reads
    the clock.  With the same records and the same instant for the windows
    two runs differ in generatedAt, which is a second reading; and with the
    same records alone they differ in the windows and in the comparison. *)
Lemma C3_counterexample :
  ¬ (∀ (tz : Z) (records : list Row.t) (w1 w2 : World.t),
       World.wallClock w1 (World.reads w1) = World.wallClock w2 (World.reads w2) →
       (generateComparisonData tz records w1).1 = (generateComparisonData tz records w2).1)
  ∧ ¬ (∀ (tz : Z) (records : list Row.t) (w1 w2 : World.t),
         Report.comparison (generateComparisonData tz records w1).1
         = Report.comparison (generateComparisonData tz records w2).1).
Proof.
  split.
  - intros H.
    specialize (H 32400000 []
                  (World.mk (λ n, match n with O => 1711722822000 | _ => 1711722822005 end) 0)
                  (World.mk (λ n, match n with O => 1711722822000 | _ => 1711722822007 end) 0)
                  eq_refl).
    apply (f_equal (λ r, Metadata.generatedAt (Report.metadata r))) in H.
    vm_compute in H. discriminate H.
  - intros H.
    specialize (H 32400000 [Row.mk "A" 1711636422000 (Some 1711640022000) (1, 0, 0)]
                  (World.mk (λ _, 1711722822000) 0)
                  (World.mk (λ _, 1714401222000) 0)).
    apply (f_equal Comparison.totalSessionsChange) in H.
    vm_compute in H. discriminate H.
Qed.

(** The same records on 2024-03-29 and on 2024-04-29. *)
Example comparison_a_month_later :
  let records := [Row.mk "A" 1711636422000 (Some 1711640022000) (1, 0, 0)] in
  let march := (generateComparisonData 32400000 records (World.mk (λ _, 1711722822000) 0)).1 in
  let april := (generateComparisonData 32400000 records (World.mk (λ _, 1714401222000) 0)).1 in
  Metadata.currentPeriod (Report.metadata march) = "2024-03-01 to 2024-03-29"
  ∧ Metadata.currentPeriod (Report.metadata april) = "2024-04-01 to 2024-04-29"
  ∧ Comparison.totalSessionsChange (Report.comparison march) = "+1"
  ∧ Comparison.totalSessionsChange (Report.comparison april) = "-1"
  ∧ Comparison.totalHoursChange (Report.comparison march) = "+∞%"
  ∧ Comparison.totalHoursChange (Report.comparison april) = "-100%".
Proof. repeat split; vm_compute; reflexivity. Qed.

(* ===================================================================== *)
(** * Part III: further properties of the code *)
(* ===================================================================== *)

(** ** Sums over the values of a map *)

Lemma sumValues_insert_fresh {A : Type} (f : A → Qc) (m : gmap string A) (k : string) (v : A) :
  m !! k = None → sumValues f (<[k:=v]> m) = (sumValues f m + f v)%Qc.
Proof.
  intros Hk. unfold sumValues. rewrite map_fold_insert_L; [done| |done].
  intros j1 j2 z1 z2 y _ _ _. rewrite <- !Qcplus_assoc. f_equal. apply Qcplus_comm.
Qed.

Lemma sumValues_delete {A : Type} (f : A → Qc) (m : gmap string A) (k : string) (b : A) :
  m !! k = Some b → sumValues f m = (sumValues f (delete k m) + f b)%Qc.
Proof.
  intros Hk. unfold sumValues. rewrite (map_fold_delete_L _ _ k b m); [done| |done].
  intros j1 j2 z1 z2 y _ _ _. rewrite <- !Qcplus_assoc. f_equal. apply Qcplus_comm.
Qed.

Lemma sumValues_insert {A : Type} (f : A → Qc) (m : gmap string A) (k : string) (b v : A) :
  m !! k = Some b → (sumValues f (<[k:=v]> m) + f b)%Qc = (sumValues f m + f v)%Qc.
Proof.
  intros Hk. rewrite <- (insert_delete_eq m).
  rewrite sumValues_insert_fresh by apply lookup_delete_eq.
  rewrite (sumValues_delete f m k b Hk). ring.
Qed.

(** Creating the entry of a key when it is missing and then updating it. *)
Lemma alter_materialized {A : Type} (g : A → A) (d : A) (m : gmap string A) (k : string) :
  alter g k (match m !! k with None => <[k:=d]> m | Some _ => m end)
  = <[k := g (default d (m !! k))]> m.
Proof.
  destruct (m !! k) as [b|] eqn:Hk; simpl.
  - apply map_eq. intros j. destruct (decide (k = j)) as [<-|Hne].
    + by rewrite lookup_alter_eq, lookup_insert_eq, Hk.
    + by rewrite lookup_alter_ne, lookup_insert_ne.
  - by rewrite alter_insert_eq.
Qed.

Lemma sumValues_upsert {A : Type} (f : A → Qc) (g : A → A) (d : A)
    (m : gmap string A) (k : string) :
  f d = Qc_of_Z 0 →
  (sumValues f (<[k := g (default d (m !! k))]> m) + f (default d (m !! k)))%Qc
  = (sumValues f m + f (g (default d (m !! k))))%Qc.
Proof.
  intros Hd. destruct (m !! k) as [b|] eqn:Hk; simpl.
  - by apply sumValues_insert.
  - rewrite sumValues_insert_fresh by done. rewrite Hd, Z2Qc_inj_0. ring.
Qed.

Lemma sumValues_integers {A : Type} (g : A → Z) (m : gmap string A) :
  sumValues (λ x, Qc_of_Z (g x)) m = Qc_of_Z (foldr Z.add 0 (g <$> (map_to_list m).*2)).
Proof.
  unfold sumValues. rewrite map_fold_foldr.
  induction (map_to_list m) as [|[key h] l IH]; simpl.
  - done.
  - rewrite IH. rewrite Z2Qc_inj_add. apply Qcplus_comm.
Qed.

Lemma sumValues_fmap {A B : Type} (f : B → Qc) (g : A → B) (m : gmap string A) :
  sumValues f (g <$> m) = sumValues (f ∘ g) m.
Proof. unfold sumValues. by rewrite map_fold_fmap. Qed.

(** ** Records that are skipped *)

Lemma counted_spec (r : Row.t) :
  counted r = true
  ↔ ∃ checkout, Row.checkoutTime r = Some checkout
                ∧ (0 < parseStayTime (Row.stayTime r))%Qc.
Proof.
  unfold counted. destruct (Row.checkoutTime r) as [checkout|].
  - rewrite negb_true_iff. split.
    + intros Hleb. exists checkout. split; [done|].
      apply Qcnot_le_lt. intros Hle. apply Qc_leb_le in Hle. congruence.
    + intros (_ & _ & Hlt). destruct (Qc_leb _ 0) eqn:Hleb; [|done].
      apply Qc_leb_le in Hleb. by apply Qcle_not_lt in Hleb.
  - split; [done|]. by intros (? & ? & _).
Qed.

Lemma fold_processRecord_filter (tz : Z) (records : list Row.t) :
  ∀ acc, fold_left (processRecord tz) records acc
         = fold_left (processRecord tz) (List.filter counted records) acc.
Proof.
  induction records as [|r records IH]; intros acc; simpl; [done|].
  destruct (counted r) eqn:Hr; simpl.
  - apply IH.
  - rewrite processRecord_uncounted by done. apply IH.
Qed.

Lemma counted_test (r : Row.t) :
  counted r = true
  ↔ is_Some (Row.checkoutTime r) ∧ ¬ (parseStayTime (Row.stayTime r) <= 0)%Qc.
Proof.
  unfold counted. destruct (Row.checkoutTime r) as [checkout|].
  - rewrite negb_true_iff. split.
    + intros Hleb. split; [by eexists|]. intros Hle. apply Qc_leb_le in Hle. congruence.
    + intros [_ Hnot]. destruct (Qc_leb _ 0) eqn:Hleb; [|done].
      by apply Qc_leb_le in Hleb.
  - split; [done|]. by intros [[? ?] _].
Qed.

(** X1. calculateHourlyOccupancy returns what it returns on the records that
    pass the test of its loop, those with a checkout whose stay is not 0 or
    less (for a stay of the form h:m:s, a positive stay): any other record
    leaves no trace in the buckets, the daily statistics or the list of
    slots. *)
Theorem skipped_records_leave_no_trace (tz : Z) (records : list Row.t) :
  calculateHourlyOccupancy tz records
  = calculateHourlyOccupancy tz (List.filter counted records)
  ∧ (∀ r, r ∈ List.filter counted records
          ↔ r ∈ records
            ∧ is_Some (Row.checkoutTime r)
            ∧ ¬ (parseStayTime (Row.stayTime r) <= 0)%Qc).
Proof.
  split.
  - unfold calculateHourlyOccupancy, accumulate.
    by rewrite fold_processRecord_filter.
  - intros r. rewrite !list_elem_of_In, filter_In, counted_test. done.
Qed.

(** ** Buckets and slots *)









(** What one record does to the buckets and to the list of slots, counted
    or not. *)
Lemma processRecord_slots (tz : Z) (acc : Acc.t) (r : Row.t) :
  Acc.hourlyOccupancy (processRecord tz acc r)
  = fold_left (countSlot (Row.customerName r)) (slotsOf tz r) (Acc.hourlyOccupancy acc)
  ∧ Acc.allTimeSlots (processRecord tz acc r)
    = Acc.allTimeSlots acc
      ++ map (λ slot, SlotDetail.mk slot (Row.customerName r)
                        (parseStayTime (Row.stayTime r))) (slotsOf tz r).
Proof.
  destruct (counted r) eqn:Hr.
  - by rewrite processRecord_counted.
  - rewrite processRecord_uncounted, slotsOf_uncounted by done. simpl.
    by rewrite app_nil_r.
Qed.





(** ** The daily statistics as a whole *)

Lemma sumInOrder_from {A : Type} (f : A → Qc) (l : list A) (start : Qc) :
  fold_left (λ total x, (total + f x)%Qc) l start = (start + sumList f l)%Qc.
Proof.
  revert start. induction l as [|x l IH]; intros start; simpl.
  - rewrite Z2Qc_inj_0. ring.
  - rewrite IH. ring.
Qed.

Lemma sumInOrder_sumList {A : Type} (f : A → Qc) (l : list A) :
  sumInOrder f l = sumList f l.
Proof. unfold sumInOrder. rewrite sumInOrder_from, Z2Qc_inj_0. ring. Qed.

Lemma visitsOf_visitsOn (day : string) (records : list Row.t) :
  flat_map (visitsOf day) records
  = map (λ r, (Row.customerName r, parseStayTime (Row.stayTime r))) (visitsOn day records).
Proof.
  unfold visitsOn. induction records as [|r records IH]; simpl; [done|].
  unfold visitsOf at 1. fold (dayKey r).
  destruct (counted r && bool_decide (dayKey r = day)); simpl; by rewrite IH.
Qed.

Lemma sumVisitHours_stayHours (l : list Row.t) :
  sumVisitHours (map (λ r, (Row.customerName r, parseStayTime (Row.stayTime r))) l)
  = sumList stayHours l.
Proof.
  induction l as [|r l IH]; simpl; [done|]. rewrite IH. apply Qcplus_comm.
Qed.

Lemma size_list_to_set_le (l : list string) :
  (size (list_to_set l : gset string) ≤ length l)%nat.
Proof.
  induction l as [|x l IH].
  - change (list_to_set [] : gset string) with (∅ : gset string).
    by rewrite size_empty.
  - change (list_to_set (x :: l) : gset string) with ({[x]} ∪ list_to_set l : gset string).
    simpl length. rewrite size_union_alt, size_singleton.
    pose proof (subseteq_size (list_to_set l ∖ {[x]}) (list_to_set l : gset string)) as H.
    assert (Hsub : list_to_set l ∖ {[x]} ⊆ (list_to_set l : gset string)).
    { intros y [Hy _]%elem_of_difference. exact Hy. }
    specialize (H Hsub). lia.
Qed.

Lemma size_list_to_set_pos (x : string) (l : list string) :
  (1 ≤ size (list_to_set (x :: l) : gset string))%nat.
Proof.
  change (list_to_set (x :: l) : gset string) with ({[x]} ∪ list_to_set l : gset string).
  rewrite size_union_alt, size_singleton. lia.
Qed.

Lemma dayOf_rows (l : list Row.t) :
  dayOf (map (λ r, (Row.customerName r, parseStayTime (Row.stayTime r))) l)
  = match l with
    | [] => None
    | _ => Some {| DayAcc.totalHours := sumList stayHours l;
                   DayAcc.totalSessions := Z.of_nat (length l);
                   DayAcc.uniqueUsers := list_to_set (Row.customerName <$> l) |}
    end.
Proof.
  destruct l as [|r l]; [done|].
  pose proof (sumVisitHours_stayHours (r :: l)) as Hsum.
  unfold dayOf. simpl map in *. cbv beta iota. rewrite Hsum. f_equal. f_equal.
  - simpl. by rewrite length_map.
  - f_equal. change (Row.customerName r
                       :: (map (λ r0, (Row.customerName r0, parseStayTime (Row.stayTime r0))) l).*1
                     = Row.customerName r :: (Row.customerName <$> l)).
    f_equal. clear Hsum. induction l as [|x l IH]; [done|].
    change (Row.customerName x
            :: (map (λ r0, (Row.customerName r0, parseStayTime (Row.stayTime r0))) l).*1
            = Row.customerName x :: (Row.customerName <$> l)).
    by f_equal.
Qed.

(** X3. The entry of a day in the daily statistics that
    calculateHourlyOccupancy returns is made of the counted records whose
    checkin falls on that day (the UTC date of the checkin): there is an
    entry exactly when there is such a record, its totalSessions is their
    number, its totalHours the sum of their stays in hours, accumulated in
    the order in which they were read, its uniqueUsers the number of their
    distinct customer names; so uniqueUsers is between 1 and
    totalSessions. *)
Theorem daily_entry_counts_visits_of_the_day (tz : Z) (records : list Row.t) (day : string) :
  let visits := visitsOn day records in
  match MonthData.dailyStats (calculateHourlyOccupancy tz records) !! day with
  | None => visits = []
  | Some entry =>
      visits ≠ []
      ∧ DailyStat.totalSessions entry = Z.of_nat (length visits)
      ∧ DailyStat.totalHours entry = sumInOrder stayHours visits
      ∧ DailyStat.uniqueUsers entry
        = Z.of_nat (size (list_to_set (Row.customerName <$> visits) : gset string))
      ∧ 1 ≤ DailyStat.uniqueUsers entry ≤ DailyStat.totalSessions entry
  end.
Proof.
  intros visits. simpl. rewrite lookup_fmap, accumulate_days, visitsOf_visitsOn.
  fold visits. rewrite dayOf_rows.
  destruct visits as [|r visits]; [done|]. simpl.
  split; [done|]. split; [done|]. split; [by rewrite sumInOrder_sumList|].
  split; [done|].
  pose proof (size_list_to_set_pos (Row.customerName r) (Row.customerName <$> visits)) as H1.
  pose proof (size_list_to_set_le (Row.customerName r :: (Row.customerName <$> visits))) as H2.
  simpl in H1, H2. rewrite length_fmap in H2.
  change (list_fmap Row.t string Row.customerName visits)
    with (Row.customerName <$> visits). lia.
Qed.

Lemma countDay_insert (customer : string) (stay : Qc) (day : string)
    (ds : gmap string DayAcc.t) :
  countDay customer stay day ds
  = <[day := visit customer stay (default emptyDay (ds !! day))]> ds.
Proof. apply alter_materialized. Qed.

Lemma countDay_hours (customer : string) (stay : Qc) (day : string)
    (ds : gmap string DayAcc.t) :
  sumValues DayAcc.totalHours (countDay customer stay day ds)
  = (sumValues DayAcc.totalHours ds + stay / Qc_of_Z 60)%Qc.
Proof.
  rewrite countDay_insert.
  pose proof (sumValues_upsert DayAcc.totalHours (visit customer stay) emptyDay ds day
                eq_refl) as H.
  simpl in H.
  apply (Qcplus_inj_l (DayAcc.totalHours (default emptyDay (ds !! day)))).
  simpl. rewrite H. ring.
Qed.

Lemma countDay_sessions (customer : string) (stay : Qc) (day : string)
    (ds : gmap string DayAcc.t) :
  sumValues (λ d, Qc_of_Z (DayAcc.totalSessions d)) (countDay customer stay day ds)
  = (sumValues (λ d, Qc_of_Z (DayAcc.totalSessions d)) ds + Qc_of_Z 1)%Qc.
Proof.
  rewrite countDay_insert.
  pose proof (sumValues_upsert (λ d, Qc_of_Z (DayAcc.totalSessions d))
                (visit customer stay) emptyDay ds day eq_refl) as H.
  simpl in H. rewrite Z2Qc_inj_add in H.
  apply (Qcplus_inj_l (Qc_of_Z (DayAcc.totalSessions (default emptyDay (ds !! day))))).
  simpl. rewrite H. ring.
Qed.

Lemma countDay_size (customer : string) (stay : Qc) (day : string)
    (ds : gmap string DayAcc.t) :
  (size (countDay customer stay day ds) ≤ S (size ds))%nat.
Proof.
  rewrite countDay_insert. destruct (ds !! day) as [d|] eqn:Hd.
  - rewrite map_size_insert_Some by by eexists. lia.
  - rewrite map_size_insert_None by done. lia.
Qed.

Lemma fold_processRecord_day_totals (tz : Z) (records : list Row.t) :
  ∀ acc,
    let acc' := fold_left (processRecord tz) records acc in
    let visits := List.filter counted records in
    sumValues DayAcc.totalHours (Acc.dailyStats acc')
    = (sumValues DayAcc.totalHours (Acc.dailyStats acc) + sumList stayHours visits)%Qc
    ∧ sumValues (λ d, Qc_of_Z (DayAcc.totalSessions d)) (Acc.dailyStats acc')
      = (sumValues (λ d, Qc_of_Z (DayAcc.totalSessions d)) (Acc.dailyStats acc)
         + Qc_of_Z (Z.of_nat (length visits)))%Qc
    ∧ (size (Acc.dailyStats acc') ≤ size (Acc.dailyStats acc) + length visits)%nat.
Proof.
  induction records as [|r records IH]; intros acc.
  - simpl. change (Z.of_nat 0) with 0. rewrite Z2Qc_inj_0, !Qcplus_0_r.
    repeat split; lia.
  - simpl fold_left. simpl List.filter. cbv zeta.
    destruct (IH (processRecord tz acc r)) as (IHh & IHs & IHn).
    cbv zeta in IHh, IHs, IHn. rewrite IHh, IHs.
    destruct (counted r) eqn:Hr.
    + rewrite processRecord_counted in * by done. simpl Acc.dailyStats in *.
      rewrite countDay_hours, countDay_sessions.
      pose proof (countDay_size (Row.customerName r) (parseStayTime (Row.stayTime r))
                    (split_T_0 (JSDate.toISOString (parseDateTime (Row.checkinTime r))))
                    (Acc.dailyStats acc)) as Hsize.
      simpl length. simpl sumList. fold (stayHours r).
      rewrite Nat2Z.inj_succ. unfold Z.succ.
      rewrite Z2Qc_inj_add. repeat split; try ring. lia.
    + rewrite processRecord_uncounted in * by done. done.
Qed.

Lemma length_filter_le {A : Type} (p : A → bool) (l : list A) :
  (length (List.filter p l) ≤ length l)%nat.
Proof. induction l as [|x l IH]; simpl; [done|]. destruct (p x); simpl; lia. Qed.

Lemma totalHours_of_counted_records (tz : Z) (records : list Row.t) :
  TotalStats.totalHours (calculateTotalStats (calculateHourlyOccupancy tz records) records)
  = round1 (sumList stayHours (List.filter counted records)).
Proof.
  unfold calculateTotalStats. simpl. f_equal.
  rewrite sumValues_fmap. change (DailyStat.totalHours ∘ closeDay) with DayAcc.totalHours.
  destruct (fold_processRecord_day_totals tz records emptyAcc) as (Hh & _ & _).
  cbv zeta in Hh. unfold accumulate. rewrite Hh. simpl.
  unfold sumValues. rewrite map_fold_empty, Z2Qc_inj_0. apply Qcplus_0_l.
Qed.

(** X4. For the month data of a record list, its stays given as h:m:s in
    whole numbers, and the summary computed from it with the same list:
    totalHours is the sum of the stays of the counted records, in hours,
    rounded to one decimal place: a number of tenths at most half a tenth
    away from that sum.  The records that
    calculateHourlyOccupancy skipped add no hours, though totalSessions and
    manHours count them: both are the number of all records. *)
Theorem total_hours_of_counted_records (tz : Z) (records : list Row.t) :
  let stats := calculateTotalStats (calculateHourlyOccupancy tz records) records in
  roundedToTenth (sumList stayHours (List.filter counted records))
    (TotalStats.totalHours stats)
  ∧ TotalStats.totalSessions stats = Z.of_nat (length records)
  ∧ TotalStats.manHours stats = Qc_of_Z (Z.of_nat (length records)).
Proof.
  intros stats. subst stats. split.
  - rewrite totalHours_of_counted_records. apply round1_roundedToTenth.
  - unfold calculateTotalStats. simpl. by rewrite round1_Qc_of_Z.
Qed.

(** X5. For the same month data and summary: the session counts of the days
    add up to the number of counted records, which is at most totalSessions;
    activeDays is at most the number of counted records; uniqueUsers is at
    most totalSessions, and is 0 only for the empty record list. *)
Theorem summary_counts_are_consistent (tz : Z) (records : list Row.t) :
  let data := calculateHourlyOccupancy tz records in
  let stats := calculateTotalStats data records in
  let counted := Z.of_nat (length (List.filter counted records)) in
  foldr Z.add 0 (DailyStat.totalSessions <$> (map_to_list (MonthData.dailyStats data)).*2)
  = counted
  ∧ TotalStats.activeDays stats ≤ counted ≤ TotalStats.totalSessions stats
  ∧ 0 ≤ TotalStats.uniqueUsers stats ≤ TotalStats.totalSessions stats
  ∧ (TotalStats.uniqueUsers stats = 0 ↔ records = []).
Proof.
  intros data stats n. subst data stats n. unfold calculateTotalStats. simpl.
  destruct (fold_processRecord_day_totals tz records emptyAcc) as (_ & Hs & Hn).
  cbv zeta in Hs, Hn. fold (accumulate tz records) in Hs, Hn. simpl in Hs, Hn.
  unfold sumValues at 2 in Hs. rewrite map_fold_empty, Z2Qc_inj_0, Qcplus_0_l in Hs.
  rewrite map_size_empty in Hn.
  pose proof (length_filter_le counted records) as Hle.
  split; [|split; [|split]].
  - apply Z2Qc_inj. rewrite <- Hs, <- sumValues_integers, sumValues_fmap. done.
  - rewrite map_size_fmap. lia.
  - pose proof (size_list_to_set_le (map Row.customerName records)) as H.
    rewrite length_map in H. lia.
  - destruct records as [|r records]; [done|]. split; [|done].
    pose proof (size_list_to_set_pos (Row.customerName r) (map Row.customerName records)) as H.
    simpl map. lia.
Qed.

(** ** A visit that ends before it starts *)

Lemma generateTimeSlots_empty (tz checkin checkout : Z) :
  checkout ≤ checkin → generateTimeSlots tz checkin checkout = [].
Proof.
  intros Hle. pose proof (generateTimeSlots_loop tz checkin checkout _ (le_n _)) as Hloop.
  rewrite slots_loop_done in Hloop by done. by injection Hloop as <-.
Qed.

Lemma accumulate_snoc (tz : Z) (records : list Row.t) (r : Row.t) :
  accumulate tz (records ++ [r]) = processRecord tz (accumulate tz records) r.
Proof. unfold accumulate. by rewrite fold_left_app. Qed.

(** X6. A record with a positive stay whose checkout is not after its
    checkin is counted as a session of its day, with its stay in hours, but
    occupies no bucket: appended to any record list it leaves the buckets
    and the list of slots as they were and adds 1 to the totalSessions and
    its stay to the totalHours of its day. *)
Theorem visit_without_interval (tz : Z) (records : list Row.t) (r : Row.t) (checkout : Z) :
  Row.checkoutTime r = Some checkout →
  checkout ≤ Row.checkinTime r →
  (0 < parseStayTime (Row.stayTime r))%Qc →
  let before := calculateHourlyOccupancy tz records in
  let after := calculateHourlyOccupancy tz (records ++ [r]) in
  MonthData.hourlyOccupancy after = MonthData.hourlyOccupancy before
  ∧ MonthData.allTimeSlots after = MonthData.allTimeSlots before
  ∧ ∃ entry, MonthData.dailyStats after !! dayKey r = Some entry
             ∧ DailyStat.totalSessions entry
               = default 0 (DailyStat.totalSessions
                              <$> MonthData.dailyStats before !! dayKey r) + 1
             ∧ DailyStat.totalHours entry
               = (default (Qc_of_Z 0) (DailyStat.totalHours
                                         <$> MonthData.dailyStats before !! dayKey r)
                  + stayHours r)%Qc.
Proof.
  intros Hco Hle Hstay before after. subst before after.
  assert (Hr : counted r = true) by (apply counted_spec; eauto).
  assert (Hslots : slotsOf tz r = []).
  { unfold slotsOf. rewrite Hco, Hr. by apply generateTimeSlots_empty. }
  unfold calculateHourlyOccupancy. rewrite accumulate_snoc.
  destruct (processRecord_slots tz (accumulate tz records) r) as [Hho Hall].
  rewrite Hslots in Hho, Hall. simpl in Hho, Hall. rewrite app_nil_r in Hall.
  simpl. split; [done|]. split; [done|].
  rewrite processRecord_counted by done. simpl Acc.dailyStats.
  rewrite countDay_insert. fold (dayKey r).
  rewrite !lookup_fmap, lookup_insert_eq. simpl.
  eexists. split; [done|]. simpl.
  destruct (Acc.dailyStats (accumulate tz records) !! dayKey r) as [d|]; simpl; done.
Qed.

(** A stay of 30 minutes whose checkout column repeats the checkin. *)
Lemma visit_without_interval_witness :
  let r := Row.mk "A" 1711722822000 (Some 1711722822000) (0, 30, 0) in
  let before := calculateHourlyOccupancy 32400000 [] in
  let after := calculateHourlyOccupancy 32400000 ([] ++ [r]) in
  MonthData.hourlyOccupancy after = MonthData.hourlyOccupancy before
  ∧ MonthData.allTimeSlots after = MonthData.allTimeSlots before
  ∧ ∃ entry, MonthData.dailyStats after !! dayKey r = Some entry
             ∧ DailyStat.totalSessions entry
               = default 0 (DailyStat.totalSessions
                              <$> MonthData.dailyStats before !! dayKey r) + 1
             ∧ DailyStat.totalHours entry
               = (default (Qc_of_Z 0) (DailyStat.totalHours
                                         <$> MonthData.dailyStats before !! dayKey r)
                  + stayHours r)%Qc.
Proof.
  intros r.
  apply (visit_without_interval 32400000 [] r 1711722822000).
  - reflexivity.
  - vm_compute. discriminate.
  - reflexivity.
Defined.

(** ** The peak and the average *)

Lemma maxValues_spec {A : Type} (f : A → Z) (m : gmap string A) :
  0 ≤ maxValues f m
  ∧ (∀ k x, m !! k = Some x → f x ≤ maxValues f m)
  ∧ (maxValues f m = 0 ∨ ∃ k x, m !! k = Some x ∧ f x = maxValues f m).
Proof.
  unfold maxValues.
  apply (map_fold_weak_ind
           (λ r m, 0 ≤ r ∧ (∀ k x, m !! k = Some x → f x ≤ r)
                   ∧ (r = 0 ∨ ∃ k x, m !! k = Some x ∧ f x = r))).
  - split; [done|]. split; [|by left]. intros k x Hk. by rewrite lookup_empty in Hk.
  - intros i x m' r Hi (Hr & Hall & Hatt). split; [lia|]. split.
    + intros k y Hk. destruct (decide (i = k)) as [<-|Hne].
      * rewrite lookup_insert_eq in Hk. injection Hk as <-. lia.
      * rewrite lookup_insert_ne in Hk by done. specialize (Hall k y Hk). lia.
    + destruct (Z.max_spec r (f x)) as [[Hlt ->]|[Hle ->]].
      * right. exists i, x. by rewrite lookup_insert_eq.
      * destruct Hatt as [->|(k & y & Hk & Hy)]; [by left|].
        right. exists k, y. split; [|done].
        rewrite lookup_insert_ne; [done|]. intros <-. congruence.
Qed.

(** X7. peakOccupancy is the largest count of a bucket: no bucket has a
    larger count, and unless it is 0 some bucket has exactly that count.  For
    buckets that calculateHourlyOccupancy returned it is 0 only when there
    is no bucket. *)
Theorem peak_is_largest_count (monthData : MonthData.t) (records : list Row.t) :
  let peak := TotalStats.peakOccupancy (calculateTotalStats monthData records) in
  0 ≤ peak
  ∧ (∀ key b, MonthData.hourlyOccupancy monthData !! key = Some b → Bucket.count b ≤ peak)
  ∧ (peak = 0 ∨ ∃ key b, MonthData.hourlyOccupancy monthData !! key = Some b
                         ∧ Bucket.count b = peak)
  ∧ (∀ tz visits,
       monthData = calculateHourlyOccupancy tz visits →
       (peak = 0 ↔ MonthData.hourlyOccupancy monthData = ∅)).
Proof.
  intros peak. subst peak. unfold calculateTotalStats. simpl.
  destruct (maxValues_spec Bucket.count (MonthData.hourlyOccupancy monthData))
    as (H0 & Hall & Hatt).
  split; [done|]. split; [done|]. split; [done|].
  intros tz visits ->. split.
  - intros Hpeak. apply map_empty. intros key.
    destruct (MonthData.hourlyOccupancy (calculateHourlyOccupancy tz visits) !! key)
      as [b|] eqn:Hb; [|done].
    pose proof (Hall key b Hb) as Hle. simpl in Hb. rewrite accumulate_buckets in Hb.
    apply bucketOf_invariant in Hb as [(_ & _ & ?) _]. lia.
  - intros ->. unfold maxValues. by rewrite map_fold_empty.
Qed.

Lemma Math_round_mono (x y : Qc) : (x <= y)%Qc → Math_round x ≤ Math_round y.
Proof.
  intros Hle. unfold Math_round. apply Qfloor_resp_le.
  change (x + Q2Qc (1 # 2) <= y + Q2Qc (1 # 2))%Qc. by apply Qcplus_le_mono_r.
Qed.

Lemma round1_mono (x y : Qc) : (x <= y)%Qc → (round1 x <= round1 y)%Qc.
Proof.
  intros Hle. unfold round1. apply Qc_div_le_mono; [done|].
  apply (proj1 (Z2Qc_inj_le _ _)). apply Math_round_mono.
  apply Qcmult_le_mono_nonneg_r; [|done]. by apply (proj1 (Z2Qc_inj_le 0 10)).
Qed.

Lemma foldr_add_bounds (l : list Z) (lo hi : Z) :
  Forall (λ x, lo ≤ x ≤ hi) l →
  lo * Z.of_nat (length l) ≤ foldr Z.add 0 l ≤ hi * Z.of_nat (length l).
Proof.
  induction 1 as [|x l Hx _ IH]; simpl foldr; simpl length; [lia|].
  rewrite Nat2Z.inj_succ. nia.
Qed.

Lemma counts_of_map (m : gmap string Bucket.t) (lo hi : Z) :
  (∀ k b, m !! k = Some b → lo ≤ Bucket.count b ≤ hi) →
  Forall (λ x, lo ≤ x ≤ hi) (Bucket.count <$> (map_to_list m).*2).
Proof.
  intros Hall. apply list.Forall_forall. intros x Hx.
  apply list_elem_of_fmap in Hx as (b & -> & Hb).
  apply list_elem_of_fmap in Hb as ([k b'] & -> & Hkb).
  apply elem_of_map_to_list in Hkb. by apply (Hall k).
Qed.

Lemma meanCount_bounds (m : gmap string Bucket.t) (lo hi : Z) :
  m ≠ ∅ →
  (∀ k b, m !! k = Some b → lo ≤ Bucket.count b ≤ hi) →
  (Qc_of_Z lo <= meanCount m)%Qc ∧ (meanCount m <= Qc_of_Z hi)%Qc.
Proof.
  intros Hne Hall. unfold meanCount.
  pose proof (foldr_add_bounds _ lo hi (counts_of_map m lo hi Hall)) as Hsum.
  rewrite !length_fmap in Hsum.
  set (n := Z.of_nat (length (map_to_list m))) in *.
  assert (Hn : 0 < n).
  { subst n. rewrite length_map_to_list. apply map_size_non_empty_iff in Hne. lia. }
  rewrite <- (Qc_of_Z_div_exact lo n), <- (Qc_of_Z_div_exact hi n) by lia.
  split; (apply Qc_div_le_mono; [done|]); apply (proj1 (Z2Qc_inj_le _ _)); lia.
Qed.

(** X8. The averageOccupancy that calculateTotalStats returns is never
    above peakOccupancy; for buckets that calculateHourlyOccupancy returned
    it is at least 1 as soon as a bucket exists. *)
Theorem average_between_one_and_peak (monthData : MonthData.t) (records : list Row.t) :
  let stats := calculateTotalStats monthData records in
  (TotalStats.averageOccupancy stats <= Qc_of_Z (TotalStats.peakOccupancy stats))%Qc
  ∧ (∀ tz visits,
       monthData = calculateHourlyOccupancy tz visits →
       MonthData.hourlyOccupancy monthData ≠ ∅ →
       (Qc_of_Z 1 <= TotalStats.averageOccupancy stats)%Qc).
Proof.
  intros stats. subst stats. unfold calculateTotalStats. simpl.
  set (ho := MonthData.hourlyOccupancy monthData).
  destruct (maxValues_spec Bucket.count ho) as (H0 & Hall & _).
  assert (Havg : ho ≠ ∅ →
                 (if Z.of_nat (size ho) >? 0
                  then (sumValues (λ h, Qc_of_Z (Bucket.count h)) ho
                        / Qc_of_Z (Z.of_nat (size ho)))%Qc
                  else Qc_of_Z 0) = meanCount ho).
  { intros Hne. apply map_size_non_empty_iff in Hne.
    destruct (Z.gtb_spec (Z.of_nat (size ho)) 0) as [_|Hle]; [|lia].
    unfold meanCount. by rewrite sumValues_counts, length_map_to_list. }
  split.
  - rewrite <- (round1_Qc_of_Z (maxValues Bucket.count ho)). apply round1_mono.
    destruct (decide (ho = ∅)) as [->|Hne].
    + rewrite map_size_empty. simpl. by apply (proj1 (Z2Qc_inj_le _ _)).
    + rewrite Havg by done.
      assert (Hmin : ∀ l z y, y ∈ l → foldr Z.min z l ≤ y).
      { induction l as [|y' l IH]; intros z y Hy; [by apply elem_of_nil in Hy|].
        apply elem_of_cons in Hy as [->|Hy]; simpl; [lia|]. specialize (IH z y Hy). lia. }
      apply (meanCount_bounds ho
               (foldr Z.min 0 (Bucket.count <$> (map_to_list ho).*2))
               (maxValues Bucket.count ho)); [done|].
      intros k b Hb. split; [|by apply (Hall k)].
      apply Hmin. apply list_elem_of_fmap. exists b. split; [done|].
      apply list_elem_of_fmap. exists (k, b). split; [done|]. by apply elem_of_map_to_list.
  - intros tz visits -> Hne. fold ho in Hne. rewrite Havg by done.
    rewrite <- (round1_Qc_of_Z 1). apply round1_mono.
    apply (meanCount_bounds ho 1 (maxValues Bucket.count ho)); [done|].
    intros k b Hb. split; [|by apply (Hall k)].
    subst ho. simpl in Hb. rewrite accumulate_buckets in Hb.
    by apply bucketOf_invariant in Hb as [(_ & _ & ?) _].
Qed.

(** ** The texts of the comparison *)

Lemma read_show_Z (z : Z) : read_Z (show_Z z) = Some z.
Proof.
  unfold read_Z, show_Z. rewrite NilZero.isi.
  - simpl. f_equal. apply DecimalZ.of_to.
  - destruct z; simpl; try discriminate.
    intros [= H]. by apply DecimalPos.Unsigned.to_uint_nonnil in H.
  - destruct z; simpl; try discriminate.
    intros [= H]. by apply DecimalPos.Unsigned.to_uint_nonnil in H.
Qed.

Lemma show_Z_negative (z : Z) : z < 0 → ∃ digits, show_Z z = String "-" digits.
Proof. destruct z; try lia. intros _. unfold show_Z. simpl. eauto. Qed.

(** X9. The text of an absolute delta (uniqueUsers, totalSessions,
    peakOccupancy) always carries its sign, "+" when the current value is
    not below the previous one and "-" otherwise, and reads back as the
    difference current minus previous. *)
Theorem difference_text_reads_back (curr prev : Z) :
  readSigned (calculateDifference curr prev) = Some (curr - prev)
  ∧ (prev ≤ curr → ∃ digits, calculateDifference curr prev = String "+" digits)
  ∧ (curr < prev → ∃ digits, calculateDifference curr prev = String "-" digits).
Proof.
  unfold calculateDifference.
  destruct (Z.geb_spec (curr - prev) 0) as [Hge|Hlt].
  - split; [|split].
    + simpl. apply read_show_Z.
    + intros _. simpl. eauto.
    + lia.
  - destruct (show_Z_negative (curr - prev)) as [digits Hd]; [lia|].
    split; [|split].
    + change (readSigned (show_Z (curr - prev)) = Some (curr - prev)).
      rewrite Hd. simpl. rewrite <- Hd. apply read_show_Z.
    + lia.
    + intros _. exists digits. exact Hd.
Qed.

Lemma calculateChange_of_integer (curr prev : Qc) (p : Z) :
  prev ≠ Qc_of_Z 0 →
  percentChange curr prev = Qc_of_Z p →
  calculateChange curr prev
  = ((if (0 <=? p)%Z then "+" else "") ++ show_tenths (p * 10)%Z ++ "%")%string.
Proof.
  intros Hprev Hp. unfold calculateChange.
  destruct (Qc_eqb prev (Qc_of_Z 0)) eqn:Heq; [by apply Qc_eqb_eq in Heq|].
  fold (percentChange curr prev). rewrite Number_toString_round1, Hp.
  rewrite <- Z2Qc_inj_mul, Math_round_Qc_of_Z. f_equal.
  destruct (Z.leb_spec 0 p) as [Hle|Hlt].
  - by rewrite (proj2 (Qc_leb_le _ _) (proj1 (Z2Qc_inj_le 0 p) Hle)).
  - destruct (Qc_leb (Qc_of_Z 0) (Qc_of_Z p)) eqn:Hleb; [|done].
    apply Qc_leb_le, Z2Qc_inj_le in Hleb. lia.
Qed.

(** X10. Landmarks of the percentage delta, for a previous value that is
    not 0: an unchanged value reads "+0%", a value that fell to 0 reads
    "-100%", a value that doubled reads "+100%".  With a previous value of
    0 the text is "0%" for every current value that is not positive. *)
Theorem percentage_delta_landmarks (prev : Qc) :
  (prev ≠ Qc_of_Z 0 →
   calculateChange prev prev = "+0%"
   ∧ calculateChange (Qc_of_Z 0) prev = "-100%"
   ∧ calculateChange (prev + prev) prev = "+100%")
  ∧ (∀ curr, (curr <= Qc_of_Z 0)%Qc → calculateChange curr (Qc_of_Z 0) = "0%").
Proof.
  split.
  - intros Hprev. assert (Hprev' : prev ≠ 0%Qc) by by rewrite <- Z2Qc_inj_0.
    split; [|split].
    + apply (calculateChange_of_integer prev prev 0 Hprev).
      unfold percentChange. rewrite Z2Qc_inj_0. by field.
    + apply (calculateChange_of_integer (Qc_of_Z 0) prev (-100) Hprev).
      unfold percentChange. rewrite Z2Qc_inj_0.
      replace (Qc_of_Z (-100)) with (- Qc_of_Z 100)%Qc by by apply Qc_is_canon.
      by field.
    + apply (calculateChange_of_integer (prev + prev) prev 100 Hprev).
      unfold percentChange. by field.
  - intros curr Hcurr. unfold calculateChange.
    rewrite (proj2 (Qc_eqb_eq _ _) eq_refl).
    destruct (Qc_ltb (Qc_of_Z 0) curr) eqn:Hlt; [|done].
    apply Qc_ltb_lt in Hlt. by apply Qcle_not_lt in Hcurr.
Qed.

(** ** The two windows *)

(** The first day of a month comes as many days after the first day of the
    preceding month as that month has. *)
Lemma month_after_preceding (y m : Z) :
  1 ≤ m ≤ 12 →
  JSDate.days_from_civil (precedingMonth y m).1 (precedingMonth y m).2 1
  + daysInMonth (precedingMonth y m).1 (precedingMonth y m).2
  = JSDate.days_from_civil y m 1.
Proof.
  intros Hm. unfold precedingMonth, daysInMonth.
  pose proof (leapYear_spec y) as Hleap.
  assert (Hc : m = 1 ∨ m = 2 ∨ m = 3 ∨ m = 4 ∨ m = 5 ∨ m = 6 ∨ m = 7 ∨ m = 8
               ∨ m = 9 ∨ m = 10 ∨ m = 11 ∨ m = 12) by lia.
  destruct Hc as [->|[->|[->|[->|[->|[->|[->|[->|[->|[->|[->| ->]]]]]]]]]]];
    simpl; unfold JSDate.days_from_civil; simpl; try lia.
  destruct (leapYear y).
  - destruct Hleap as [Hleap _]. specialize (Hleap eq_refl). lia.
  - assert (¬ (y mod 4 = 0 ∧ (y mod 100 ≠ 0 ∨ y mod 400 = 0))).
    { intros H. apply Hleap in H. discriminate. }
    lia.
Qed.

Lemma filter_disjoint_length {A : Type} (p q : A → bool) (l : list A) :
  (∀ x, p x = true → q x = true → False) →
  (length (List.filter p l) + length (List.filter q l) ≤ length l)%nat.
Proof.
  intros Hpq. induction l as [|x l IH]; simpl; [done|].
  destruct (p x) eqn:Hp, (q x) eqn:Hq; simpl; try lia.
  exfalso. by apply (Hpq x).
Qed.

Lemma previousMonthEnd_LocalTime (tz now : Z) :
  ¬ (0 ≤ currentYear_of tz now ≤ 100) →
  JSDate.LocalTime tz (previousMonthEnd tz now)
  = (JSDate.days_from_civil (previousYear_of tz now) (previousMonth_of tz now) 1
     + currentDay_of tz now - 1) * JSDate.msPerDay + 86399000.
Proof.
  intros Hyear. pose proof (current_date_range tz now) as [Hmonth _].
  pose proof (precedingMonth_range _ _ Hmonth Hyear) as [Hpm Hpy].
  rewrite <- previous_month in Hpm, Hpy. simpl in Hpm, Hpy.
  unfold previousMonthEnd. rewrite LocalTime_construct by done.
  by rewrite MakeTime_last_second.
Qed.

Lemma currentMonthStart_LocalTime (tz now : Z) :
  ¬ (0 ≤ currentYear_of tz now ≤ 100) →
  JSDate.LocalTime tz (currentMonthStart tz now)
  = JSDate.days_from_civil (currentYear_of tz now) (currentMonth_of tz now) 1
    * JSDate.msPerDay.
Proof.
  intros Hyear. pose proof (current_date_range tz now) as [Hmonth _].
  unfold currentMonthStart. rewrite LocalTime_construct by (done || lia).
  rewrite MakeTime_midnight. lia.
Qed.

(** X11. With the clock on the local date year-month-day (the year outside
    0..100), the reference window ends before the current window starts
    exactly when the preceding month has a day of that number.  Then no
    record is in both windows and the two record sets together are not
    more than the records; otherwise (on the 29th to 31st after a shorter
    month) the reference window reaches into the current month. *)
Theorem windows_disjoint_iff_day_exists (tz now : Z) (records : list Row.t) :
  ¬ (0 ≤ currentYear_of tz now ≤ 100) →
  (previousMonthEnd tz now < currentMonthStart tz now
   ↔ currentDay_of tz now
       ≤ daysInMonth (previousYear_of tz now) (previousMonth_of tz now))
  ∧ (currentDay_of tz now
       ≤ daysInMonth (previousYear_of tz now) (previousMonth_of tz now) →
     (∀ r, r ∈ currentMonthRecords tz now records →
           r ∈ previousMonthRecords tz now records → False)
     ∧ (length (currentMonthRecords tz now records)
        + length (previousMonthRecords tz now records) ≤ length records)%nat).
Proof.
  intros Hyear. pose proof (current_date_range tz now) as [Hmonth Hday].
  pose proof (month_after_preceding (currentYear_of tz now) (currentMonth_of tz now) Hmonth)
    as Hlen.
  rewrite <- previous_month in Hlen. simpl in Hlen.
  pose proof (previousMonthEnd_LocalTime tz now Hyear) as Hend.
  pose proof (currentMonthStart_LocalTime tz now Hyear) as Hstart.
  assert (Hiff : previousMonthEnd tz now < currentMonthStart tz now
                 ↔ currentDay_of tz now
                     ≤ daysInMonth (previousYear_of tz now) (previousMonth_of tz now)).
  { revert Hend Hstart Hlen. unfold JSDate.LocalTime, JSDate.msPerDay.
    generalize (previousMonthEnd tz now) (currentMonthStart tz now)
      (daysInMonth (previousYear_of tz now) (previousMonth_of tz now))
      (JSDate.days_from_civil (previousYear_of tz now) (previousMonth_of tz now) 1)
      (JSDate.days_from_civil (currentYear_of tz now) (currentMonth_of tz now) 1)
      (currentDay_of tz now).
    intros. lia. }
  split; [exact Hiff|]. intros Hexists. apply Hiff in Hexists.
  assert (Hboth : ∀ r, within (currentMonthStart tz now) (currentMonthEnd tz now) r = true →
                       within (previousMonthStart tz now) (previousMonthEnd tz now) r = true →
                       False).
  { intros r Hc Hp. apply within_spec in Hc, Hp. lia. }
  split.
  - intros r Hc Hp. unfold currentMonthRecords, previousMonthRecords in *.
    apply list_elem_of_In, filter_In in Hc as [_ Hc].
    apply list_elem_of_In, filter_In in Hp as [_ Hp]. by apply (Hboth r).
  - by apply filter_disjoint_length.
Qed.

(** The clock on 2024-03-29 (+0900): February 2024 has a 29th. *)
Lemma windows_disjoint_iff_day_exists_witness :
  let tz := 32400000 in
  let now := 1711722822000 in
  let records := [Row.mk "A" 1711636422000 (Some 1711640022000) (1, 0, 0)] in
  (previousMonthEnd tz now < currentMonthStart tz now
   ↔ currentDay_of tz now
       ≤ daysInMonth (previousYear_of tz now) (previousMonth_of tz now))
  ∧ (currentDay_of tz now
       ≤ daysInMonth (previousYear_of tz now) (previousMonth_of tz now) →
     (∀ r, r ∈ currentMonthRecords tz now records →
           r ∈ previousMonthRecords tz now records → False)
     ∧ (length (currentMonthRecords tz now records)
        + length (previousMonthRecords tz now records) ≤ length records)%nat).
Proof.
  intros tz now records.
  apply (windows_disjoint_iff_day_exists tz now records).
  vm_compute. intros [_ H]. apply H. reflexivity.
Defined.

(** ** The slots of a visit, one by one *)

Lemma slotEnd_of_hourStart (tz c : Z) : slotEnd_of tz c = hourStart tz (clockHour tz c + 1).
Proof. rewrite slotEnd_of_eq. unfold hourStart, JSDate.UTC. lia. Qed.

Lemma hourStart_bounds (tz c : Z) :
  hourStart tz (clockHour tz c) ≤ c < hourStart tz (clockHour tz c + 1).
Proof.
  unfold hourStart, clockHour, JSDate.UTC, JSDate.LocalTime, JSDate.msPerHour. lia.
Qed.

Lemma clockHour_hourStart (tz n : Z) : clockHour tz (hourStart tz n) = n.
Proof.
  unfold hourStart, clockHour, JSDate.UTC, JSDate.LocalTime, JSDate.msPerHour. lia.
Qed.

Lemma hourStart_mono (tz n m : Z) : n ≤ m → hourStart tz n ≤ hourStart tz m.
Proof. unfold hourStart, JSDate.UTC, JSDate.msPerHour. lia. Qed.

Lemma slots_loop_nth (tz : Z) (fuel : nat) :
  ∀ c e l (i : nat) s,
    slots_loop tz fuel c e = Some l → c < e → l !! i = Some s →
    Slot.checkin s = Z.max c (hourStart tz (clockHour tz c + Z.of_nat i))
    ∧ Slot.checkout s = Z.min (hourStart tz (clockHour tz c + Z.of_nat i + 1)) e.
Proof.
  induction fuel as [|fuel IH]; intros c e l i s Hl Hce Hs.
  - simpl in Hl. by rewrite (proj2 (Z.ltb_lt c e) Hce) in Hl.
  - rewrite slots_loop_step in Hl by done.
    destruct (slots_loop tz fuel (slotEnd_of tz c) e) as [rest|] eqn:Hrest; [|done].
    simpl in Hl. injection Hl as <-.
    pose proof (hourStart_bounds tz c) as Hc.
    destruct i as [|j].
    + simpl in Hs. injection Hs as <-. simpl.
      rewrite Z.add_0_r. unfold actualEnd_of. rewrite slotEnd_of_hourStart.
      destruct (Z.gtb_spec (hourStart tz (clockHour tz c + 1)) e); lia.
    + simpl in Hs.
      destruct (Z.lt_ge_cases (slotEnd_of tz c) e) as [Hlt|Hge].
      * destruct (IH _ _ _ _ _ Hrest Hlt Hs) as [Hci Hco].
        rewrite slotEnd_of_hourStart, clockHour_hourStart in Hci, Hco.
        rewrite Hci, Hco.
        replace (clockHour tz c + Z.of_nat (S j)) with (clockHour tz c + 1 + Z.of_nat j) by lia.
        pose proof (hourStart_mono tz (clockHour tz c + 1) (clockHour tz c + 1 + Z.of_nat j)
                      ltac:(lia)).
        lia.
      * rewrite slots_loop_done in Hrest by done. injection Hrest as <-. done.
Qed.

Lemma slots_loop_length (tz : Z) (fuel : nat) :
  ∀ c e l, slots_loop tz fuel c e = Some l → c < e →
           Z.of_nat (length l) = hoursTouched tz c e.
Proof.
  induction fuel as [|fuel IH]; intros c e l Hl Hce.
  - simpl in Hl. by rewrite (proj2 (Z.ltb_lt c e) Hce) in Hl.
  - rewrite slots_loop_step in Hl by done.
    destruct (slots_loop tz fuel (slotEnd_of tz c) e) as [rest|] eqn:Hrest; [|done].
    simpl in Hl. injection Hl as <-. simpl length. rewrite Nat2Z.inj_succ.
    destruct (Z.lt_ge_cases (slotEnd_of tz c) e) as [Hlt|Hge].
    + rewrite (IH _ _ _ Hrest Hlt). unfold hoursTouched. rewrite clockHour_slotEnd. lia.
    + rewrite slots_loop_done in Hrest by done. injection Hrest as <-. simpl.
      rewrite slotEnd_of_eq in Hge.
      unfold hoursTouched, clockHour, JSDate.LocalTime, JSDate.msPerHour in *. lia.
Qed.

Lemma generateTimeSlots_one_per_clock_hour (tz checkin checkout : Z) :
  let slots := generateTimeSlots tz checkin checkout in
  (checkout ≤ checkin → slots = [])
  ∧ (checkin < checkout →
     Z.of_nat (length slots) = clockHour tz (checkout - 1) - clockHour tz checkin + 1
     ∧ ∀ (i : nat) s,
         slots !! i = Some s →
         Slot.checkin s = Z.max checkin (hourStart tz (clockHour tz checkin + Z.of_nat i))
         ∧ Slot.checkout s
           = Z.min (hourStart tz (clockHour tz checkin + Z.of_nat i + 1)) checkout
         ∧ ((0 < i)%nat → (S i < length slots)%nat →
            Slot.duration s = Qc_of_Z 60)).
Proof.
  intros slots. split; [apply generateTimeSlots_empty|]. intros Hlt.
  pose proof (generateTimeSlots_loop tz checkin checkout _ (le_n _)) as Hloop.
  fold slots in Hloop.
  pose proof (slots_loop_length tz _ _ _ _ Hloop Hlt) as Hlen.
  split; [exact Hlen|]. intros i s Hs.
  destruct (slots_loop_nth tz _ _ _ _ _ _ Hloop Hlt Hs) as [Hci Hco].
  split; [done|]. split; [done|]. intros Hi Hlast.
  pose proof (slots_loop_emitted tz _ _ _ _ Hloop) as Hall.
  apply list_elem_of_lookup_2 in Hs.
  apply (proj1 (list.Forall_forall _ _) Hall) in Hs as (_ & _ & ->).
  rewrite Hci, Hco.
  replace (Z.min (hourStart tz (clockHour tz checkin + Z.of_nat i + 1)) checkout
           - Z.max checkin (hourStart tz (clockHour tz checkin + Z.of_nat i)))
    with (60 * JSDate.msPerMinute); [by apply Qc_of_Z_div_exact|].
  pose proof (hourStart_bounds tz checkin).
  pose proof (hourStart_bounds tz (checkout - 1)).
  pose proof (hourStart_mono tz (clockHour tz checkin + 1) (clockHour tz checkin + Z.of_nat i)
                ltac:(lia)).
  pose proof (hourStart_mono tz (clockHour tz checkin + Z.of_nat i + 1)
                (clockHour tz (checkout - 1)) ltac:(unfold hoursTouched in Hlen; lia)).
  unfold hourStart, JSDate.UTC, JSDate.msPerHour, JSDate.msPerMinute in *. lia.
Qed.

(** X12. On a host whose zone offset from UTC is the constant tz (no
    daylight saving time), the loop of generateTimeSlots ends and, for a
    visit with checkout after checkin, returns one slot per clock hour that
    the visit touches; the slot number i (from 0) runs from the start of
    the i-th of these hours, or from the checkin if that is later, to the
    start of the next hour, or to the checkout if that is earlier.  So
    every slot but the first starts on the hour, every slot but the last
    ends on the hour, and every slot in between lasts exactly 60 minutes.
    When checkout is not after checkin there is no slot. *)
Theorem slots_one_per_clock_hour (LocalTZA : Z → bool → Z) (tz checkin checkout : Z) :
  constantZone LocalTZA tz →
  ∃ slots,
    (∀ fuel, (turns checkin checkout ≤ fuel)%nat →
             Zoned.slots_loop LocalTZA fuel checkin checkout = Some slots)
    ∧ (checkout ≤ checkin → slots = [])
    ∧ (checkin < checkout →
       Z.of_nat (length slots) = clockHour tz (checkout - 1) - clockHour tz checkin + 1
       ∧ ∀ (i : nat) s,
           slots !! i = Some s →
           Slot.checkin s = Z.max checkin (hourStart tz (clockHour tz checkin + Z.of_nat i))
           ∧ Slot.checkout s
             = Z.min (hourStart tz (clockHour tz checkin + Z.of_nat i + 1)) checkout
           ∧ ((0 < i)%nat → (S i < length slots)%nat →
              Slot.duration s = Qc_of_Z 60)).
Proof.
  intros Hzone. exists (generateTimeSlots tz checkin checkout). split.
  - intros fuel Hfuel. rewrite (Zoned_slots_loop_constant _ tz) by done.
    by apply generateTimeSlots_loop.
  - apply generateTimeSlots_one_per_clock_hour.
Qed.

(** A visit from 23:33:42 to 02:03:42 on a host nine hours ahead of UTC all
    year: four slots, the two in the middle of 60 minutes. *)
Lemma slots_one_per_clock_hour_witness :
  ∃ slots,
    (∀ fuel, (turns 1711722822000 1711731822000 ≤ fuel)%nat →
             Zoned.slots_loop (λ _ _, 32400000) fuel 1711722822000 1711731822000
             = Some slots)
    ∧ (1711731822000 ≤ 1711722822000 → slots = [])
    ∧ (1711722822000 < 1711731822000 →
       Z.of_nat (length slots)
       = clockHour 32400000 (1711731822000 - 1) - clockHour 32400000 1711722822000 + 1
       ∧ ∀ (i : nat) s,
           slots !! i = Some s →
           Slot.checkin s
           = Z.max 1711722822000
               (hourStart 32400000 (clockHour 32400000 1711722822000 + Z.of_nat i))
           ∧ Slot.checkout s
             = Z.min (hourStart 32400000 (clockHour 32400000 1711722822000 + Z.of_nat i + 1))
                 1711731822000
           ∧ ((0 < i)%nat → (S i < length slots)%nat →
              Slot.duration s = Qc_of_Z 60)).
Proof.
  apply (slots_one_per_clock_hour (λ _ _, 32400000) 32400000 1711722822000 1711731822000).
  intros t isUTC. reflexivity.
Defined.

(** ** The analysis by time of day *)

Lemma slotStats_attendSlot (slot ts : TimeSlot) (r : Visit.t) (stats : TimeSlotStats.t) :
  slot ≠ other → ts ≠ other →
  slotStats slot (attendSlot ts r stats)
  = if decide (ts = slot) then attend r (slotStats slot stats) else slotStats slot stats.
Proof. by destruct slot, ts. Qed.

Lemma slotCount_bump (slot ts : TimeSlot) (day : DayOccupancy.t) :
  slot ≠ other → ts ≠ other →
  slotCount slot (bump ts day)
  = slotCount slot day + (if decide (ts = slot) then 1 else 0).
Proof. destruct slot, ts; simpl; intros; try done; lia. Qed.

Lemma countTimeSlot_other (state : TimeSlotStats.t * gmap string DayOccupancy.t)
    (r : Visit.t) :
  Visit.timeSlot r = other → countTimeSlot state r = state.
Proof. intros Hr. destruct state. unfold countTimeSlot. by rewrite decide_True. Qed.

Lemma countTimeSlot_daytime (stats : TimeSlotStats.t) (daily : gmap string DayOccupancy.t)
    (r : Visit.t) :
  Visit.timeSlot r ≠ other →
  countTimeSlot (stats, daily) r
  = (attendSlot (Visit.timeSlot r) r stats,
     <[split_T_0 (JSDate.toISOString (Visit.checkinDate r)) :=
         bump (Visit.timeSlot r)
           (default emptyDayOccupancy
              (daily !! split_T_0 (JSDate.toISOString (Visit.checkinDate r))))]> daily).
Proof.
  intros Hr. unfold countTimeSlot. rewrite decide_False by done.
  by rewrite alter_materialized.
Qed.


Lemma inSlot_cons (slot : TimeSlot) (r : Visit.t) (l : list Visit.t) :
  inSlot slot (r :: l)
  = if decide (Visit.timeSlot r = slot) then r :: inSlot slot l else inSlot slot l.
Proof.
  unfold inSlot. simpl. destruct (decide (Visit.timeSlot r = slot)) as [H|H].
  - by rewrite bool_decide_eq_true_2.
  - by rewrite bool_decide_eq_false_2.
Qed.

Lemma fold_countTimeSlot (records : list Visit.t) :
  ∀ (stats : TimeSlotStats.t) (daily : gmap string DayOccupancy.t) (slot : TimeSlot),
    slot ≠ other →
    let final := fold_left countTimeSlot records (stats, daily) in
    slotStats slot final.1 = attendAll (inSlot slot records) (slotStats slot stats)
    ∧ sumValues (λ day, Qc_of_Z (slotCount slot day)) final.2
      = (sumValues (λ day, Qc_of_Z (slotCount slot day)) daily
         + Qc_of_Z (Z.of_nat (length (inSlot slot records))))%Qc.
Proof.
  induction records as [|r records IH]; intros stats daily slot Hslot.
  - cbv zeta. simpl fold_left. change (Z.of_nat (length (inSlot slot []))) with 0.
    rewrite Z2Qc_inj_0, Qcplus_0_r. done.
  - change (fold_left countTimeSlot (r :: records) (stats, daily))
      with (fold_left countTimeSlot records (countTimeSlot (stats, daily) r)).
    cbv zeta. rewrite inSlot_cons.
    destruct (decide (Visit.timeSlot r = other)) as [Hother|Hday].
    + rewrite countTimeSlot_other by done.
      rewrite decide_False by congruence. by apply IH.
    + rewrite countTimeSlot_daytime by done.
      destruct (IH (attendSlot (Visit.timeSlot r) r stats)
                  (<[split_T_0 (JSDate.toISOString (Visit.checkinDate r)) :=
                       bump (Visit.timeSlot r)
                         (default emptyDayOccupancy
                            (daily !! split_T_0 (JSDate.toISOString (Visit.checkinDate r))))]>
                     daily) slot Hslot) as [IHs IHd].
      cbv zeta in IHs, IHd. rewrite IHs, IHd. clear IHs IHd.
      rewrite slotStats_attendSlot by done.
      pose proof (sumValues_upsert (λ day, Qc_of_Z (slotCount slot day))
                    (bump (Visit.timeSlot r)) emptyDayOccupancy daily
                    (split_T_0 (JSDate.toISOString (Visit.checkinDate r)))) as Hup.
      cbv beta in Hup. rewrite slotCount_bump in Hup by done.
      assert (Hzero : Qc_of_Z (slotCount slot emptyDayOccupancy) = Qc_of_Z 0)
        by by destruct slot.
      specialize (Hup Hzero). rewrite Z2Qc_inj_add in Hup.
      set (old := default emptyDayOccupancy
                    (daily !! split_T_0 (JSDate.toISOString (Visit.checkinDate r)))) in *.
      assert (Hnew : sumValues (λ day, Qc_of_Z (slotCount slot day))
                       (<[split_T_0 (JSDate.toISOString (Visit.checkinDate r)) :=
                            bump (Visit.timeSlot r) old]> daily)
                     = (sumValues (λ day, Qc_of_Z (slotCount slot day)) daily
                        + Qc_of_Z (if decide (Visit.timeSlot r = slot) then 1 else 0))%Qc).
      { apply (Qcplus_inj_l (Qc_of_Z (slotCount slot old))). simpl. rewrite Hup. ring. }
      rewrite Hnew. destruct (decide (Visit.timeSlot r = slot)) as [Heq|Hne].
      * split; [done|]. simpl length. rewrite Nat2Z.inj_succ. unfold Z.succ.
        rewrite Z2Qc_inj_add. ring.
      * split; [done|]. rewrite Z2Qc_inj_0. ring.
Qed.

Lemma fold_countTimeSlot_days (records : list Visit.t) :
  ∀ (stats : TimeSlotStats.t) (daily : gmap string DayOccupancy.t),
    (∀ k d, daily !! k = Some d → dayCounted d) →
    ∀ k d, (fold_left countTimeSlot records (stats, daily)).2 !! k = Some d → dayCounted d.
Proof.
  induction records as [|r records IH]; intros stats daily Hinv; [done|].
  change (fold_left countTimeSlot (r :: records) (stats, daily))
    with (fold_left countTimeSlot records (countTimeSlot (stats, daily) r)).
  destruct (decide (Visit.timeSlot r = other)) as [Hother|Hday].
  - rewrite countTimeSlot_other by done. by apply IH.
  - rewrite countTimeSlot_daytime by done. apply IH.
    intros k d Hk. destruct (decide (split_T_0 (JSDate.toISOString (Visit.checkinDate r)) = k))
      as [<-|Hne].
    + rewrite lookup_insert_eq in Hk. injection Hk as <-.
      destruct (daily !! split_T_0 (JSDate.toISOString (Visit.checkinDate r)))
        as [old|] eqn:Hold; simpl.
      * pose proof (Hinv _ _ Hold) as (? & ? & ? & ?).
        unfold dayCounted. destruct (Visit.timeSlot r); simpl; lia.
      * unfold dayCounted. destruct (Visit.timeSlot r); simpl; lia.
    + rewrite lookup_insert_ne in Hk by done. by apply (Hinv k).
Qed.

Lemma attendAll_spec (l : list Visit.t) :
  ∀ s, SlotStats.sessions (attendAll l s) = SlotStats.sessions s ++ l
       ∧ SlotStats.users (attendAll l s)
         = SlotStats.users s ∪ list_to_set (Visit.userId <$> l)
       ∧ SlotStats.totalHours (attendAll l s)
         = (SlotStats.totalHours s + sumList visitHours l)%Qc.
Proof.
  induction l as [|r l IH]; intros s; simpl.
  - rewrite app_nil_r, Z2Qc_inj_0, Qcplus_0_r. split; [done|]. split; [|done].
    by rewrite (right_id_L ∅ (∪)).
  - destruct (IH (attend r s)) as (-> & -> & ->). simpl.
    rewrite <- app_assoc. split; [done|]. split.
    + by rewrite (assoc_L (∪)).
    + unfold visitHours. ring.
Qed.

Lemma length_by_slot (l : list Visit.t) :
  length l
  = (length (inSlot morning l) + length (inSlot afternoon l)
     + length (inSlot evening l) + length (inSlot other l))%nat.
Proof.
  induction l as [|r l IH]; [done|]. rewrite !inSlot_cons.
  destruct (Visit.timeSlot r); simpl; lia.
Qed.

Lemma analyzeTimeSlots_unfold (records : list Visit.t) (targetMonth : string) :
  let final :=
    fold_left countTimeSlot (monthRecordsOf records targetMonth)
      ({| TimeSlotStats.morning := emptySlotStats;
          TimeSlotStats.afternoon := emptySlotStats;
          TimeSlotStats.evening := emptySlotStats |}, ∅) in
  analyzeTimeSlots records targetMonth
  = {| TimeSlotAnalysis.timeSlotAverages :=
         {| TimeSlotAverages.morning := slotAverage morning final.1 final.2;
            TimeSlotAverages.afternoon := slotAverage afternoon final.1 final.2;
            TimeSlotAverages.evening := slotAverage evening final.1 final.2 |};
       TimeSlotAnalysis.dailyOccupancy := final.2;
       TimeSlotAnalysis.daysAnalyzed := Z.of_nat (size final.2);
       TimeSlotAnalysis.totalRecords :=
         Z.of_nat (length (monthRecordsOf records targetMonth)) |}.
Proof.
  intros final. unfold analyzeTimeSlots. fold (monthRecordsOf records targetMonth).
  fold final. by destruct final.
Qed.

Lemma averageOf_slotAverage (slot : TimeSlot) (records : list Visit.t) (targetMonth : string) :
  slot ≠ other →
  let final :=
    fold_left countTimeSlot (monthRecordsOf records targetMonth)
      ({| TimeSlotStats.morning := emptySlotStats;
          TimeSlotStats.afternoon := emptySlotStats;
          TimeSlotStats.evening := emptySlotStats |}, ∅) in
  averageOf slot (TimeSlotAnalysis.timeSlotAverages (analyzeTimeSlots records targetMonth))
  = slotAverage slot final.1 final.2
  ∧ slotStats slot final.1
    = attendAll (inSlot slot (monthRecordsOf records targetMonth)) emptySlotStats
  ∧ sumValues (λ day, Qc_of_Z (slotCount slot day)) final.2
    = Qc_of_Z (Z.of_nat (length (inSlot slot (monthRecordsOf records targetMonth)))).
Proof.
  intros Hslot final. rewrite analyzeTimeSlots_unfold. fold final.
  destruct (fold_countTimeSlot (monthRecordsOf records targetMonth)
              {| TimeSlotStats.morning := emptySlotStats;
                 TimeSlotStats.afternoon := emptySlotStats;
                 TimeSlotStats.evening := emptySlotStats |} ∅ slot Hslot) as [Hs Hd].
  cbv zeta in Hs, Hd. fold final in Hs, Hd.
  split; [by destruct slot|]. split.
  - rewrite Hs. by destruct slot.
  - rewrite Hd. unfold sumValues at 1. rewrite map_fold_empty, Z2Qc_inj_0. apply Qcplus_0_l.
Qed.

(** X13. In analyzeTimeSlots, when the stays of the target month are whole
    numbers of seconds, for each of the three time slots: totalSessions
    is the number of records of the target month that checked in in that
    slot, uniqueUsers the number of their distinct user ids (so at most
    totalSessions), totalHours the sum of their stays in hours rounded to
    one decimal place (a number of tenths at most half a tenth away from
    that sum).  totalRecords counts all records of the month: the
    three totalSessions plus the records in the slot 'other' (checkin from
    23:00 to 07:59), which no time slot counts. *)
Theorem time_slot_sessions (records : list Visit.t) (targetMonth : string) :
  let analysis := analyzeTimeSlots records targetMonth in
  let monthRecords := monthRecordsOf records targetMonth in
  let sessions slot :=
    SlotAverage.totalSessions (averageOf slot (TimeSlotAnalysis.timeSlotAverages analysis)) in
  Forall (λ r, wholeSeconds (Visit.stayTime r)) monthRecords →
  Forall (λ slot,
            let average := averageOf slot (TimeSlotAnalysis.timeSlotAverages analysis) in
            SlotAverage.totalSessions average
            = Z.of_nat (length (inSlot slot monthRecords))
            ∧ SlotAverage.uniqueUsers average
              = Z.of_nat (size (list_to_set (Visit.userId <$> inSlot slot monthRecords)
                                : gset string))
            ∧ 0 ≤ SlotAverage.uniqueUsers average ≤ SlotAverage.totalSessions average
            ∧ roundedToTenth (sumList visitHours (inSlot slot monthRecords))
                (SlotAverage.totalHours average))
         [morning; afternoon; evening]
  ∧ TimeSlotAnalysis.totalRecords analysis
    = sessions morning + sessions afternoon + sessions evening
      + Z.of_nat (length (inSlot other monthRecords)).
Proof.
  intros analysis monthRecords sessions _.
  assert (Hslot : ∀ slot, slot ≠ other →
            let average := averageOf slot (TimeSlotAnalysis.timeSlotAverages analysis) in
            SlotAverage.totalSessions average
            = Z.of_nat (length (inSlot slot monthRecords))
            ∧ SlotAverage.uniqueUsers average
              = Z.of_nat (size (list_to_set (Visit.userId <$> inSlot slot monthRecords)
                                : gset string))
            ∧ 0 ≤ SlotAverage.uniqueUsers average ≤ SlotAverage.totalSessions average
            ∧ roundedToTenth (sumList visitHours (inSlot slot monthRecords))
                (SlotAverage.totalHours average)).
  { intros slot Hne average. subst average analysis.
    destruct (averageOf_slotAverage slot records targetMonth Hne) as (-> & Hstats & _).
    cbv zeta in Hstats. unfold slotAverage. simpl. rewrite Hstats.
    destruct (attendAll_spec (inSlot slot (monthRecordsOf records targetMonth)) emptySlotStats)
      as (-> & -> & ->).
    simpl. rewrite (left_id_L ∅ (∪)), Z2Qc_inj_0, Qcplus_0_l. fold monthRecords.
    pose proof (size_list_to_set_le (Visit.userId <$> inSlot slot monthRecords)) as Hle.
    rewrite length_fmap in Hle.
    split; [done|]. split; [done|]. split; [lia|]. apply round1_roundedToTenth. }
  split.
  - repeat constructor; by apply Hslot.
  - subst sessions. cbv beta.
    rewrite (proj1 (Hslot morning ltac:(done))), (proj1 (Hslot afternoon ltac:(done))),
      (proj1 (Hslot evening ltac:(done))).
    subst analysis. rewrite analyzeTimeSlots_unfold. simpl. fold monthRecords.
    rewrite (length_by_slot monthRecords). lia.
Qed.

(** Three visits of March 2024, of 90, 45 and 30 minutes, and one of April. *)
Lemma time_slot_sessions_witness :
  let records :=
    [Visit.mk 1711722822000 (Qc_of_Z 90) "A" "2024-03" 23 5 other;
     Visit.mk 1711678000000 (Qc_of_Z 45) "B" "2024-03" 11 5 morning;
     Visit.mk 1711760000000 (Qc_of_Z 30) "A" "2024-03" 9 6 morning;
     Visit.mk 1712000000000 (Qc_of_Z 30) "A" "2024-04" 4 2 other] in
  let analysis := analyzeTimeSlots records "2024-03" in
  let monthRecords := monthRecordsOf records "2024-03" in
  let sessions slot :=
    SlotAverage.totalSessions (averageOf slot (TimeSlotAnalysis.timeSlotAverages analysis)) in
  Forall (λ slot,
            let average := averageOf slot (TimeSlotAnalysis.timeSlotAverages analysis) in
            SlotAverage.totalSessions average
            = Z.of_nat (length (inSlot slot monthRecords))
            ∧ SlotAverage.uniqueUsers average
              = Z.of_nat (size (list_to_set (Visit.userId <$> inSlot slot monthRecords)
                                : gset string))
            ∧ 0 ≤ SlotAverage.uniqueUsers average ≤ SlotAverage.totalSessions average
            ∧ roundedToTenth (sumList visitHours (inSlot slot monthRecords))
                (SlotAverage.totalHours average))
         [morning; afternoon; evening]
  ∧ TimeSlotAnalysis.totalRecords analysis
    = sessions morning + sessions afternoon + sessions evening
      + Z.of_nat (length (inSlot other monthRecords)).
Proof.
  intros records.
  apply (time_slot_sessions records "2024-03").
  vm_compute. repeat constructor.
  - exists 5400. by apply Qc_is_canon.
  - exists 2700. by apply Qc_is_canon.
  - exists 1800. by apply Qc_is_canon.
Defined.

Lemma round1_div_bounds (n d : Z) :
  0 ≤ n → 1 ≤ d →
  (Qc_of_Z 0 <= round1 (Qc_of_Z n / Qc_of_Z d))%Qc
  ∧ (round1 (Qc_of_Z n / Qc_of_Z d) <= Qc_of_Z n)%Qc.
Proof.
  intros Hn Hd.
  assert (Hlo : (Qc_of_Z 0 <= Qc_of_Z n / Qc_of_Z d)%Qc).
  { rewrite <- (Qc_of_Z_div_exact 0 d) by lia. apply Qc_div_le_mono; [lia|].
    apply (proj1 (Z2Qc_inj_le _ _)). lia. }
  assert (Hhi : (Qc_of_Z n / Qc_of_Z d <= Qc_of_Z n)%Qc).
  { rewrite <- (Qc_of_Z_div_exact n d) at 2 by lia. apply Qc_div_le_mono; [lia|].
    apply (proj1 (Z2Qc_inj_le _ _)). nia. }
  split.
  - rewrite <- (round1_Qc_of_Z 0). by apply round1_mono.
  - rewrite <- (round1_Qc_of_Z n) at 2. by apply round1_mono.
Qed.

(** X14. In analyzeTimeSlots, for each of the three time slots, the
    counters of the slot over the days of dailyOccupancy add up to the
    slot's totalSessions, and averageOccupancy is totalSessions divided by
    daysAnalyzed, the number of days that have a session in any of the
    three slots, rounded to one decimal place; it is 0 when there is no
    such day, and always between 0 and totalSessions. *)
Theorem time_slot_average_occupancy (records : list Visit.t) (targetMonth : string) :
  let analysis := analyzeTimeSlots records targetMonth in
  let days := TimeSlotAnalysis.daysAnalyzed analysis in
  Forall (λ slot,
            let average := averageOf slot (TimeSlotAnalysis.timeSlotAverages analysis) in
            foldr Z.add 0
              (slotCount slot <$> (map_to_list (TimeSlotAnalysis.dailyOccupancy analysis)).*2)
            = SlotAverage.totalSessions average
            ∧ SlotAverage.averageOccupancy average
              = (if days >? 0
                 then round1 (Qc_of_Z (SlotAverage.totalSessions average) / Qc_of_Z days)
                 else Qc_of_Z 0)
            ∧ (Qc_of_Z 0 <= SlotAverage.averageOccupancy average)%Qc
            ∧ (SlotAverage.averageOccupancy average
               <= Qc_of_Z (SlotAverage.totalSessions average))%Qc)
         [morning; afternoon; evening].
Proof.
  intros analysis days.
  assert (Hslot : ∀ slot, slot ≠ other →
            let average := averageOf slot (TimeSlotAnalysis.timeSlotAverages analysis) in
            foldr Z.add 0
              (slotCount slot <$> (map_to_list (TimeSlotAnalysis.dailyOccupancy analysis)).*2)
            = SlotAverage.totalSessions average
            ∧ SlotAverage.averageOccupancy average
              = (if days >? 0
                 then round1 (Qc_of_Z (SlotAverage.totalSessions average) / Qc_of_Z days)
                 else Qc_of_Z 0)
            ∧ (Qc_of_Z 0 <= SlotAverage.averageOccupancy average)%Qc
            ∧ (SlotAverage.averageOccupancy average
               <= Qc_of_Z (SlotAverage.totalSessions average))%Qc).
  { intros slot Hne average. subst average days analysis.
    destruct (averageOf_slotAverage slot records targetMonth Hne) as (-> & Hstats & Hsum).
    cbv zeta in Hstats, Hsum. rewrite analyzeTimeSlots_unfold.
    set (final := fold_left countTimeSlot (monthRecordsOf records targetMonth) _) in *.
    unfold slotAverage. simpl. rewrite Hstats, Hsum.
    destruct (attendAll_spec (inSlot slot (monthRecordsOf records targetMonth)) emptySlotStats)
      as (-> & _ & _).
    simpl. set (n := Z.of_nat (length (inSlot slot (monthRecordsOf records targetMonth)))) in *.
    split.
    { rewrite sumValues_integers in Hsum. by apply Z2Qc_inj_iff in Hsum. }
    destruct (Z.gtb_spec (Z.of_nat (size final.2)) 0) as [Hpos|Hzero].
    - split; [done|]. apply round1_div_bounds; lia.
    - rewrite round1_Qc_of_Z. split; [done|]. split; [done|].
      apply (proj1 (Z2Qc_inj_le _ _)). lia. }
  repeat constructor; by apply Hslot.
Qed.

Lemma inSlot_app (slot : TimeSlot) (l1 l2 : list Visit.t) :
  inSlot slot (l1 ++ l2) = inSlot slot l1 ++ inSlot slot l2.
Proof. apply List.filter_app. Qed.

Lemma onDate_app (day : string) (l1 l2 : list Visit.t) :
  onDate day (l1 ++ l2) = onDate day l1 ++ onDate day l2.
Proof. apply List.filter_app. Qed.

Lemma daytime_app (l1 l2 : list Visit.t) : daytime (l1 ++ l2) = daytime l1 ++ daytime l2.
Proof. apply List.filter_app. Qed.

Lemma onDate_cons (day : string) (r : Visit.t) (l : list Visit.t) :
  onDate day (r :: l)
  = if decide (dateKeyOf r = day) then r :: onDate day l else onDate day l.
Proof.
  unfold onDate. simpl. destruct (decide (dateKeyOf r = day)) as [H|H].
  - by rewrite bool_decide_eq_true_2.
  - by rewrite bool_decide_eq_false_2.
Qed.

Lemma daytime_cons (r : Visit.t) (l : list Visit.t) :
  daytime (r :: l)
  = if decide (Visit.timeSlot r = other) then daytime l else r :: daytime l.
Proof.
  unfold daytime. simpl. destruct (decide (Visit.timeSlot r = other)) as [H|H].
  - by rewrite bool_decide_eq_true_2.
  - by rewrite bool_decide_eq_false_2.
Qed.

Lemma onDate_daytime_length (day : string) (l : list Visit.t) :
  length (onDate day (daytime l))
  = (length (onDate day (inSlot morning l)) + length (onDate day (inSlot afternoon l))
     + length (onDate day (inSlot evening l)))%nat.
Proof.
  induction l as [|r l IH]; [done|].
  rewrite !inSlot_cons, daytime_cons.
  destruct (Visit.timeSlot r) eqn:Hr;
    repeat (first [rewrite decide_True by done | rewrite decide_False by done]);
    rewrite ?onDate_cons; try done;
    destruct (decide (dateKeyOf r = day)); rewrite ?length_cons; lia.
Qed.

Lemma dayTally_snoc (day : string) (l : list Visit.t) (r : Visit.t) :
  dayTally day (l ++ [r])
  = if decide (Visit.timeSlot r = other) then dayTally day l
    else if decide (dateKeyOf r = day) then bump (Visit.timeSlot r) (dayTally day l)
    else dayTally day l.
Proof.
  unfold dayTally. rewrite !inSlot_app, !onDate_app, !length_app, !inSlot_cons.
  change (inSlot _ []) with (@nil Visit.t).
  destruct (Visit.timeSlot r) eqn:Hr; simpl decide; cbv iota;
    destruct (decide (dateKeyOf r = day)) as [Hk|Hk];
    unfold onDate at 2 4 6; simpl List.filter;
    rewrite ?(bool_decide_eq_true_2 _ Hk), ?(bool_decide_eq_false_2 _ Hk);
    simpl length; rewrite ?Nat.add_0_r; try done;
    unfold bump; simpl; f_equal; lia.
Qed.

Lemma dayTally_empty (day : string) (l : list Visit.t) :
  onDate day (daytime l) = [] → dayTally day l = emptyDayOccupancy.
Proof.
  intros Hnil. pose proof (onDate_daytime_length day l) as Hlen.
  rewrite Hnil in Hlen. simpl in Hlen. unfold dayTally, emptyDayOccupancy.
  f_equal; lia.
Qed.

Lemma fold_countTimeSlot_snoc (l : list Visit.t) (r : Visit.t)
    (init : TimeSlotStats.t * gmap string DayOccupancy.t) :
  fold_left countTimeSlot (l ++ [r]) init = countTimeSlot (fold_left countTimeSlot l init) r.
Proof. by rewrite fold_left_app. Qed.

Lemma dailyOccupancy_closed_form (records : list Visit.t) (stats : TimeSlotStats.t)
    (day : string) :
  (fold_left countTimeSlot records (stats, ∅)).2 !! day
  = match onDate day (daytime records) with
    | [] => None
    | _ :: _ => Some (dayTally day records)
    end.
Proof.
  induction records as [|r l IH] using rev_ind; [done|].
  rewrite fold_countTimeSlot_snoc, dayTally_snoc, daytime_app, onDate_app.
  destruct (fold_left countTimeSlot l (stats, ∅)) as [s d] eqn:Hfold. simpl in IH.
  destruct (decide (Visit.timeSlot r = other)) as [Hother|Hday].
  - rewrite countTimeSlot_other by done. unfold daytime at 2. simpl List.filter.
    rewrite (bool_decide_eq_true_2 _ Hother). simpl. by rewrite app_nil_r.
  - rewrite countTimeSlot_daytime by done. unfold daytime at 2. simpl List.filter.
    rewrite (bool_decide_eq_false_2 _ Hday). simpl negb. cbv iota.
    unfold onDate at 2. simpl List.filter. fold (dateKeyOf r). simpl snd.
    destruct (decide (dateKeyOf r = day)) as [Hk|Hk].
    + rewrite (bool_decide_eq_true_2 _ Hk). subst day. rewrite lookup_insert_eq.
      rewrite IH. destruct (onDate (dateKeyOf r) (daytime l)) eqn:Hl; simpl.
      * by rewrite (dayTally_empty _ _ Hl).
      * done.
    + rewrite (bool_decide_eq_false_2 _ Hk), app_nil_r, lookup_insert_ne by done.
      exact IH.
Qed.

Lemma onDate_nil_iff (day : string) (l : list Visit.t) :
  onDate day l = [] ↔ day ∉ dateKeyOf <$> l.
Proof.
  induction l as [|r l IH]; simpl.
  - split; [|done]. intros _ Hin. by apply list.elem_of_nil in Hin.
  - unfold onDate in *. simpl. rewrite list.not_elem_of_cons.
    destruct (decide (dateKeyOf r = day)) as [Hk|Hk].
    + rewrite (bool_decide_eq_true_2 _ Hk). split; [done|]. intros [Hne _]. by destruct Hne.
    + rewrite (bool_decide_eq_false_2 _ Hk). rewrite IH. split; [|tauto].
      intros Hl. split; [congruence|done].
Qed.

(** X15. The dailyOccupancy that analyzeTimeSlots returns has an entry for
    a day exactly when a record of the target month in one of the three time
    slots has that day as the date part of its ISO (UTC) checkin; the entry
    then counts, slot by slot, the records of that day.  daysAnalyzed is the
    number of distinct such days: at most the number of records in the three
    slots, and 0 only when there is none. *)
Theorem daily_occupancy_by_utc_day (records : list Visit.t) (targetMonth : string) :
  let analysis := analyzeTimeSlots records targetMonth in
  let monthRecords := monthRecordsOf records targetMonth in
  (∀ day, TimeSlotAnalysis.dailyOccupancy analysis !! day
          = match onDate day (daytime monthRecords) with
            | [] => None
            | _ :: _ => Some (dayTally day monthRecords)
            end)
  ∧ (∀ day tally, TimeSlotAnalysis.dailyOccupancy analysis !! day = Some tally →
                  dayCounted tally)
  ∧ TimeSlotAnalysis.daysAnalyzed analysis
    = Z.of_nat (size (list_to_set (dateKeyOf <$> daytime monthRecords) : gset string))
  ∧ TimeSlotAnalysis.daysAnalyzed analysis ≤ Z.of_nat (length (daytime monthRecords))
  ∧ (TimeSlotAnalysis.daysAnalyzed analysis = 0 ↔ daytime monthRecords = []).
Proof.
  intros analysis monthRecords. subst analysis. rewrite analyzeTimeSlots_unfold.
  fold monthRecords. simpl.
  set (init := {| TimeSlotStats.morning := emptySlotStats;
                  TimeSlotStats.afternoon := emptySlotStats;
                  TimeSlotStats.evening := emptySlotStats |}).
  assert (Hdom : dom (fold_left countTimeSlot monthRecords (init, ∅)).2
                 = list_to_set (dateKeyOf <$> daytime monthRecords)).
  { apply set_eq. intros day. rewrite elem_of_dom, elem_of_list_to_set.
    rewrite dailyOccupancy_closed_form.
    pose proof (onDate_nil_iff day (daytime monthRecords)) as Hnil.
    destruct (onDate day (daytime monthRecords)) as [|x l].
    - split; [by intros [? ?]|]. intros Hin. by apply (proj1 Hnil) in Hin.
    - split; [|by eexists]. intros _.
      destruct (decide (day ∈ dateKeyOf <$> daytime monthRecords)) as [Hin|Hout]; [done|].
      by apply (proj2 Hnil) in Hout. }
  assert (Hsize : Z.of_nat (size (fold_left countTimeSlot monthRecords (init, ∅)).2)
                  = Z.of_nat (size (list_to_set (dateKeyOf <$> daytime monthRecords)
                                    : gset string))).
  { by rewrite <- Hdom, size_dom. }
  split; [intros day; apply dailyOccupancy_closed_form|].
  split.
  { intros day tally. apply (fold_countTimeSlot_days monthRecords init ∅).
    intros k d Hk. by rewrite lookup_empty in Hk. }
  split; [done|]. rewrite Hsize.
  pose proof (size_list_to_set_le (dateKeyOf <$> daytime monthRecords)) as Hle.
  rewrite length_fmap in Hle. split; [lia|].
  destruct (daytime monthRecords) as [|x l] eqn:Hl.
  - done.
  - pose proof (size_list_to_set_pos (dateKeyOf x) (dateKeyOf <$> l)) as Hpos.
    change (dateKeyOf <$> x :: l) with (dateKeyOf x :: (dateKeyOf <$> l)).
    split; [lia|done].
Qed.

(** ** The analysis by day of the week *)

Lemma initialDayStats_lookup (day : Z) :
  initialDayStats !! day
  = if decide (isWeekday day) then Some emptyWeekdayStats else None.
Proof.
  unfold initialDayStats. simpl list_to_map.
  destruct (decide (isWeekday day)) as [Hday|Hday]; unfold isWeekday in Hday.
  - assert (Hcases : day = 0 ∨ day = 1 ∨ day = 2 ∨ day = 3 ∨ day = 4 ∨ day = 5 ∨ day = 6)
      by lia.
    destruct Hcases as [->|[->|[->|[->|[->|[->| ->]]]]]]; reflexivity.
  - rewrite !lookup_insert_ne by lia. apply lookup_empty.
Qed.

Lemma onWeekday_cons (day : Z) (r : Visit.t) (l : list Visit.t) :
  onWeekday day (r :: l)
  = if decide (Visit.dayOfWeek r = day) then r :: onWeekday day l else onWeekday day l.
Proof.
  unfold onWeekday. simpl. destruct (decide (Visit.dayOfWeek r = day)) as [H|H].
  - by rewrite bool_decide_eq_true_2.
  - by rewrite bool_decide_eq_false_2.
Qed.

Lemma countWeekday_keys (dayStats dayStats' : gmap Z WeekdayStats.t) (r : Visit.t) (day : Z) :
  countWeekday dayStats r = Some dayStats' →
  (is_Some (dayStats' !! day) ↔ is_Some (dayStats !! day)).
Proof.
  unfold countWeekday. destruct (dayStats !! Visit.dayOfWeek r) as [s|] eqn:Hs; [|done].
  intros [= <-]. destruct (decide (Visit.dayOfWeek r = day)) as [<-|Hne].
  - rewrite lookup_insert_eq, Hs. split; by eexists.
  - by rewrite lookup_insert_ne.
Qed.

Lemma countWeekdays_is_Some (records : list Visit.t) :
  ∀ dayStats : gmap Z WeekdayStats.t,
    is_Some (countWeekdays dayStats records)
    ↔ Forall (λ r, is_Some (dayStats !! Visit.dayOfWeek r)) records.
Proof.
  induction records as [|r records IH]; intros dayStats; simpl.
  - split; [by constructor|by eexists].
  - rewrite list.Forall_cons.
    destruct (countWeekday dayStats r) as [dayStats'|] eqn:Hstep.
    + rewrite IH. assert (Hr : is_Some (dayStats !! Visit.dayOfWeek r)).
      { unfold countWeekday in Hstep.
        destruct (dayStats !! Visit.dayOfWeek r); [by eexists|done]. }
      split.
      * intros Hall. split; [done|]. eapply Forall_impl; [|exact Hall].
        intros x Hx. by apply (countWeekday_keys _ _ _ _ Hstep).
      * intros [_ Hall]. eapply Forall_impl; [|exact Hall].
        intros x Hx. by apply (countWeekday_keys _ _ _ _ Hstep).
    + split; [by intros [? ?]|]. intros [[s Hs] _].
      unfold countWeekday in Hstep. by rewrite Hs in Hstep.
Qed.

Lemma countWeekdays_closed_form (records : list Visit.t) :
  ∀ (dayStats final : gmap Z WeekdayStats.t) (day : Z),
    countWeekdays dayStats records = Some final →
    match dayStats !! day with
    | None => final !! day = None
    | Some s =>
        ∃ s', final !! day = Some s'
              ∧ WeekdayStats.sessions s' = WeekdayStats.sessions s ++ onWeekday day records
              ∧ WeekdayStats.users s'
                = WeekdayStats.users s ∪ list_to_set (Visit.userId <$> onWeekday day records)
              ∧ WeekdayStats.totalHours s'
                = (WeekdayStats.totalHours s + sumList visitHours (onWeekday day records))%Qc
              ∧ WeekdayStats.dates s'
                = WeekdayStats.dates s ∪ list_to_set (dateKeyOf <$> onWeekday day records)
    end.
Proof.
  induction records as [|r records IH]; intros dayStats final day; simpl countWeekdays.
  - intros [= <-]. destruct (dayStats !! day) as [s|] eqn:Hs; [|done].
    exists s. change (onWeekday day []) with (@nil Visit.t). simpl. rewrite app_nil_r, !(right_id_L ∅ (∪)), Z2Qc_inj_0, Qcplus_0_r. done.
  - destruct (countWeekday dayStats r) as [dayStats'|] eqn:Hstep; [|done].
    intros Hfinal. specialize (IH dayStats' final day Hfinal).
    unfold countWeekday in Hstep. fold (dateKeyOf r) in Hstep.
    destruct (dayStats !! Visit.dayOfWeek r) as [sr|] eqn:Hsr; [|done].
    injection Hstep as <-. rewrite onWeekday_cons.
    destruct (decide (Visit.dayOfWeek r = day)) as [<-|Hne].
    + rewrite lookup_insert_eq in IH. rewrite Hsr.
      destruct IH as (s' & Hs' & Hsessions & Husers & Hhours & Hdates).
      simpl in Hsessions, Husers, Hhours, Hdates.
      exists s'. split; [done|]. split; [by rewrite Hsessions, <- app_assoc|].
      split.
      { rewrite Husers.
        change (Visit.userId <$> r :: onWeekday (Visit.dayOfWeek r) records)
          with (Visit.userId r :: (Visit.userId <$> onWeekday (Visit.dayOfWeek r) records)).
        change (list_to_set (Visit.userId r :: ?l) : gset string)
          with ({[Visit.userId r]} ∪ list_to_set l : gset string).
        by rewrite (assoc_L (∪)). }
      split.
      { rewrite Hhours. simpl. unfold visitHours. ring. }
      rewrite Hdates.
      change (dateKeyOf <$> r :: onWeekday (Visit.dayOfWeek r) records)
        with (dateKeyOf r :: (dateKeyOf <$> onWeekday (Visit.dayOfWeek r) records)).
      change (list_to_set (dateKeyOf r :: ?l) : gset string)
        with ({[dateKeyOf r]} ∪ list_to_set l : gset string).
      by rewrite (assoc_L (∪)).
    + by rewrite lookup_insert_ne in IH.
Qed.

Lemma WeekDay_range (t : Z) : isWeekday (WeekDay t).
Proof. unfold isWeekday, WeekDay. lia. Qed.

Lemma loadRows_weekdays (tz : Z) (rows : list (Z * Qc * string)) :
  Forall (λ r, isWeekday (Visit.dayOfWeek r)) (loadRows tz rows).
Proof.
  apply list.Forall_forall. intros r Hr. unfold loadRows in Hr.
  apply list_elem_of_omap in Hr as (row & _ & Hrow). unfold loadRecord in Hrow.
  destruct (Qc_ltb 0 row.1.2); [|done]. injection Hrow as <-. simpl.
  apply WeekDay_range.
Qed.

Lemma monthRecordsOf_Forall (P : Visit.t → Prop) (records : list Visit.t) (month : string) :
  Forall P records → Forall P (monthRecordsOf records month).
Proof.
  rewrite !list.Forall_forall. intros Hall r Hr. apply Hall.
  unfold monthRecordsOf in Hr. apply list_elem_of_In, filter_In in Hr as [Hr _].
  by apply list_elem_of_In.
Qed.

Lemma analyzeDayOfWeek_is_Some (records : list Visit.t) (targetMonth : string) :
  is_Some (analyzeDayOfWeek records targetMonth)
  ↔ Forall (λ r, isWeekday (Visit.dayOfWeek r)) (monthRecordsOf records targetMonth).
Proof.
  unfold analyzeDayOfWeek. fold (monthRecordsOf records targetMonth).
  pose proof (countWeekdays_is_Some (monthRecordsOf records targetMonth) initialDayStats)
    as Hsome.
  assert (Hsame : Forall (λ r, is_Some (initialDayStats !! Visit.dayOfWeek r))
                    (monthRecordsOf records targetMonth)
                  ↔ Forall (λ r, isWeekday (Visit.dayOfWeek r))
                      (monthRecordsOf records targetMonth)).
  { rewrite !list.Forall_forall. split; intros Hall r Hr; specialize (Hall r Hr);
      rewrite initialDayStats_lookup in *; destruct (decide (isWeekday (Visit.dayOfWeek r)));
      try done; by destruct Hall. }
  rewrite <- Hsame, <- Hsome.
  destruct (countWeekdays initialDayStats (monthRecordsOf records targetMonth));
    split; try done; by intros [? ?].
Qed.

(** X16. analyzeDayOfWeek returns a result exactly when every record of the
    target month has a dayOfWeek from 0 to 6; on any other record it throws
    (dayStats has no entry to push to).  The records that loadCSV builds
    from rows whose checkin is a valid date take their dayOfWeek from
    getDay, so on them it never throws. *)
Theorem weekday_analysis_defined (tz : Z) (rows : list (Z * Qc * string))
    (records : list Visit.t) (targetMonth : string) :
  (is_Some (analyzeDayOfWeek records targetMonth)
   ↔ Forall (λ r, isWeekday (Visit.dayOfWeek r)) (monthRecordsOf records targetMonth))
  ∧ is_Some (analyzeDayOfWeek (loadRows tz rows) targetMonth).
Proof.
  split; [apply analyzeDayOfWeek_is_Some|].
  apply analyzeDayOfWeek_is_Some, monthRecordsOf_Forall, loadRows_weekdays.
Qed.

Lemma analyzeDayOfWeek_entries (records : list Visit.t) (targetMonth : string)
    (result : gmap Z WeekdayAverage.t) (day : Z) :
  analyzeDayOfWeek records targetMonth = Some result →
  if decide (isWeekday day)
  then ∃ s, result !! day = Some (weekdayAverage day s)
            ∧ WeekdayStats.sessions s = onWeekday day (monthRecordsOf records targetMonth)
            ∧ WeekdayStats.users s
              = list_to_set (Visit.userId
                               <$> onWeekday day (monthRecordsOf records targetMonth))
            ∧ WeekdayStats.totalHours s
              = sumList visitHours (onWeekday day (monthRecordsOf records targetMonth))
            ∧ WeekdayStats.dates s
              = list_to_set (dateKeyOf
                               <$> onWeekday day (monthRecordsOf records targetMonth))
  else result !! day = None.
Proof.
  unfold analyzeDayOfWeek. fold (monthRecordsOf records targetMonth).
  destruct (countWeekdays initialDayStats (monthRecordsOf records targetMonth))
    as [final|] eqn:Hfinal; [|done].
  intros [= <-]. rewrite map_lookup_imap.
  pose proof (countWeekdays_closed_form _ _ _ day Hfinal) as Hday.
  rewrite initialDayStats_lookup in Hday.
  destruct (decide (isWeekday day)).
  - destruct Hday as (s & -> & Hsessions & Husers & Hhours & Hdates).
    simpl in Hsessions, Husers, Hhours, Hdates.
    rewrite (left_id_L ∅ (∪)) in Husers, Hdates.
    rewrite Z2Qc_inj_0, Qcplus_0_l in Hhours.
    exists s. done.
  - by rewrite Hday.
Qed.

Lemma getDayName_weekday (day : Z) : isWeekday day → is_Some (getDayName day).
Proof.
  unfold isWeekday. intros Hday.
  assert (Hcases : day = 0 ∨ day = 1 ∨ day = 2 ∨ day = 3 ∨ day = 4 ∨ day = 5 ∨ day = 6)
    by lia.
  destruct Hcases as [->|[->|[->|[->|[->|[->| ->]]]]]]; by eexists.
Qed.

Lemma sumWeek_unfold (f : Z → Z) :
  sumWeek f = f 0 + f 1 + f 2 + f 3 + f 4 + f 5 + f 6.
Proof. unfold sumWeek. simpl. lia. Qed.

Lemma length_by_weekday (l : list Visit.t) :
  Forall (λ r, isWeekday (Visit.dayOfWeek r)) l →
  Z.of_nat (length l) = sumWeek (λ day, Z.of_nat (length (onWeekday day l))).
Proof.
  rewrite sumWeek_unfold. induction 1 as [|r l Hr _ IH]; [done|].
  rewrite !onWeekday_cons, length_cons. unfold isWeekday in Hr.
  assert (Hcases : Visit.dayOfWeek r = 0 ∨ Visit.dayOfWeek r = 1 ∨ Visit.dayOfWeek r = 2
                   ∨ Visit.dayOfWeek r = 3 ∨ Visit.dayOfWeek r = 4
                   ∨ Visit.dayOfWeek r = 5 ∨ Visit.dayOfWeek r = 6) by lia.
  destruct Hcases as [->|[->|[->|[->|[->|[->| ->]]]]]];
    repeat (first [rewrite decide_True by done | rewrite decide_False by done]);
    rewrite ?length_cons; lia.
Qed.

Lemma analyzeDayOfWeek_sumWeek (records : list Visit.t) (targetMonth : string)
    (result : gmap Z WeekdayAverage.t) :
  analyzeDayOfWeek records targetMonth = Some result →
  sumWeek (λ day, from_option WeekdayAverage.totalSessions 0 (result !! day))
  = Z.of_nat (length (monthRecordsOf records targetMonth)).
Proof.
  intros Hresult.
  assert (Hall : Forall (λ r, isWeekday (Visit.dayOfWeek r))
                   (monthRecordsOf records targetMonth)).
  { apply analyzeDayOfWeek_is_Some. by eexists. }
  rewrite (length_by_weekday _ Hall), !sumWeek_unfold.
  assert (Hsessions : ∀ day, isWeekday day →
            from_option WeekdayAverage.totalSessions 0 (result !! day)
            = Z.of_nat (length (onWeekday day (monthRecordsOf records targetMonth)))).
  { intros day Hday.
    pose proof (analyzeDayOfWeek_entries records targetMonth result day Hresult) as Hentry.
    rewrite decide_True in Hentry by done.
    by destruct Hentry as (s & -> & <- & _). }
  rewrite !Hsessions by (unfold isWeekday; lia). done.
Qed.

(** X17. When every record of the target month has a dayOfWeek from 0 to 6
    and a stay of a whole number of seconds,
    analyzeDayOfWeek returns an entry for each of the seven days and for no
    other key.  The entry of a day carries its Japanese name; its
    totalSessions is the number of records of the month on that day of the
    week, uniqueUsers the number of their distinct users, totalHours the
    sum of their stays in hours rounded to one decimal place (a number of
    tenths at most half a tenth away from that sum), daysAnalyzed the
    number of distinct (UTC) dates among them.  Over the seven days the
    totalSessions add up to the number of records of the month. *)
Theorem weekday_totals (records : list Visit.t) (targetMonth : string) :
  let monthRecords := monthRecordsOf records targetMonth in
  Forall (λ r, isWeekday (Visit.dayOfWeek r)) monthRecords →
  Forall (λ r, wholeSeconds (Visit.stayTime r)) monthRecords →
  ∃ result,
    analyzeDayOfWeek records targetMonth = Some result
    ∧ (∀ day, is_Some (result !! day) ↔ isWeekday day)
    ∧ (∀ day average,
         result !! day = Some average →
         WeekdayAverage.dayName average = getDayName day
         ∧ is_Some (WeekdayAverage.dayName average)
         ∧ WeekdayAverage.totalSessions average
           = Z.of_nat (length (onWeekday day monthRecords))
         ∧ WeekdayAverage.uniqueUsers average
           = Z.of_nat (size (list_to_set (Visit.userId <$> onWeekday day monthRecords)
                             : gset string))
         ∧ 0 ≤ WeekdayAverage.uniqueUsers average ≤ WeekdayAverage.totalSessions average
         ∧ roundedToTenth (sumList visitHours (onWeekday day monthRecords))
             (WeekdayAverage.totalHours average)
         ∧ WeekdayAverage.daysAnalyzed average
           = Z.of_nat (size (list_to_set (dateKeyOf <$> onWeekday day monthRecords)
                             : gset string)))
    ∧ sumWeek (λ day, from_option WeekdayAverage.totalSessions 0 (result !! day))
      = Z.of_nat (length monthRecords).
Proof.
  intros monthRecords Hall _.
  destruct (proj2 (analyzeDayOfWeek_is_Some records targetMonth) Hall) as [result Hresult].
  exists result. split; [done|].
  pose proof (λ day, analyzeDayOfWeek_entries records targetMonth result day Hresult)
    as Hentries.
  fold monthRecords in Hentries.
  split; [|split].
  - intros day. specialize (Hentries day). destruct (decide (isWeekday day)) as [Hd|Hd].
    + destruct Hentries as (s & -> & _). split; [done|by eexists].
    + rewrite Hentries. split; [by intros [? ?]|done].
  - intros day average Hday. specialize (Hentries day).
    destruct (decide (isWeekday day)) as [Hd|Hd]; [|by rewrite Hentries in Hday].
    destruct Hentries as (s & Hs & Hsessions & Husers & Hhours & Hdates).
    rewrite Hs in Hday. injection Hday as <-. unfold weekdayAverage. simpl.
    rewrite Hsessions, Husers, Hhours, Hdates.
    pose proof (size_list_to_set_le (Visit.userId <$> onWeekday day monthRecords)) as Hle.
    rewrite length_fmap in Hle.
    split; [done|]. split; [by apply getDayName_weekday|]. split; [done|].
    split; [done|]. split; [lia|]. split; [apply round1_roundedToTenth|done].
  - by apply analyzeDayOfWeek_sumWeek.
Qed.

(** Two visits on a Friday and one on a Saturday of March 2024, and one
    visit of April. *)
Lemma weekday_totals_witness :
  let records :=
    [Visit.mk 1711722822000 (Qc_of_Z 90) "A" "2024-03" 23 5 other;
     Visit.mk 1711678000000 (Qc_of_Z 45) "B" "2024-03" 11 5 morning;
     Visit.mk 1711760000000 (Qc_of_Z 30) "A" "2024-03" 9 6 morning;
     Visit.mk 1712000000000 (Qc_of_Z 30) "A" "2024-04" 4 2 other] in
  let monthRecords := monthRecordsOf records "2024-03" in
  ∃ result,
    analyzeDayOfWeek records "2024-03" = Some result
    ∧ (∀ day, is_Some (result !! day) ↔ isWeekday day)
    ∧ (∀ day average,
         result !! day = Some average →
         WeekdayAverage.dayName average = getDayName day
         ∧ is_Some (WeekdayAverage.dayName average)
         ∧ WeekdayAverage.totalSessions average
           = Z.of_nat (length (onWeekday day monthRecords))
         ∧ WeekdayAverage.uniqueUsers average
           = Z.of_nat (size (list_to_set (Visit.userId <$> onWeekday day monthRecords)
                             : gset string))
         ∧ 0 ≤ WeekdayAverage.uniqueUsers average ≤ WeekdayAverage.totalSessions average
         ∧ roundedToTenth (sumList visitHours (onWeekday day monthRecords))
             (WeekdayAverage.totalHours average)
         ∧ WeekdayAverage.daysAnalyzed average
           = Z.of_nat (size (list_to_set (dateKeyOf <$> onWeekday day monthRecords)
                             : gset string)))
    ∧ sumWeek (λ day, from_option WeekdayAverage.totalSessions 0 (result !! day))
      = Z.of_nat (length monthRecords).
Proof.
  intros records.
  apply (weekday_totals records "2024-03").
  - unfold isWeekday. vm_compute. repeat constructor; discriminate.
  - vm_compute. repeat constructor.
    + exists 5400. by apply Qc_is_canon.
    + exists 2700. by apply Qc_is_canon.
    + exists 1800. by apply Qc_is_canon.
Defined.

Lemma round1_div_ge_1 (n d : Z) :
  1 ≤ d → d ≤ n → (Qc_of_Z 1 <= round1 (Qc_of_Z n / Qc_of_Z d))%Qc.
Proof.
  intros Hd Hn. rewrite <- (round1_Qc_of_Z 1) at 1. apply round1_mono.
  rewrite <- (Qc_of_Z_div_exact 1 d) by lia. apply Qc_div_le_mono; [lia|].
  apply (proj1 (Z2Qc_inj_le _ _)). lia.
Qed.

Lemma size_list_to_set_fmap {A : Type} (f : A → string) (l : list A) :
  (size (list_to_set (f <$> l) : gset string) ≤ length l)%nat
  ∧ (size (list_to_set (f <$> l) : gset string) = 0%nat ↔ l = []).
Proof.
  pose proof (size_list_to_set_le (f <$> l)) as Hle. rewrite length_fmap in Hle.
  split; [done|]. destruct l as [|x l]; [done|].
  pose proof (size_list_to_set_pos (f x) (f <$> l)) as Hpos.
  change (f <$> x :: l) with (f x :: (f <$> l)). split; [lia|done].
Qed.

(** X18. When every record of the target month has a dayOfWeek from 0 to 6
    and a stay of a whole number of seconds: in an entry of the result of
    analyzeDayOfWeek, daysAnalyzed is at
    most totalSessions and is 0 only when totalSessions is; averageOccupancy
    is totalSessions divided by daysAnalyzed rounded to one decimal place,
    between 1 and totalSessions, when the day of the week has a session, and
    0 when it has none; averageSessionLength is the hours of the day's
    sessions divided by totalSessions, rounded to one decimal place (a number
    of tenths at most half a tenth away from the quotient), or 0 without a
    session. *)
Theorem weekday_average_occupancy (records : list Visit.t) (targetMonth : string) :
  let monthRecords := monthRecordsOf records targetMonth in
  Forall (λ r, isWeekday (Visit.dayOfWeek r)) monthRecords →
  Forall (λ r, wholeSeconds (Visit.stayTime r)) monthRecords →
  ∃ result,
    analyzeDayOfWeek records targetMonth = Some result
    ∧ ∀ day average,
        result !! day = Some average →
        let sessions := WeekdayAverage.totalSessions average in
        let days := WeekdayAverage.daysAnalyzed average in
        0 ≤ days ≤ sessions
        ∧ (days = 0 ↔ sessions = 0)
        ∧ WeekdayAverage.averageOccupancy average
          = (if sessions >? 0 then round1 (Qc_of_Z sessions / Qc_of_Z days) else Qc_of_Z 0)
        ∧ (0 < sessions →
           (Qc_of_Z 1 <= WeekdayAverage.averageOccupancy average)%Qc
           ∧ (WeekdayAverage.averageOccupancy average <= Qc_of_Z sessions)%Qc)
        ∧ (0 < sessions →
           roundedToTenth
             (sumList visitHours (onWeekday day monthRecords) / Qc_of_Z sessions)
             (WeekdayAverage.averageSessionLength average))
        ∧ (sessions = 0 → WeekdayAverage.averageSessionLength average = Qc_of_Z 0).
Proof.
  intros monthRecords Hall _.
  destruct (proj2 (analyzeDayOfWeek_is_Some records targetMonth) Hall) as [result Hresult].
  exists result. split; [done|]. intros day average Hday.
  pose proof (analyzeDayOfWeek_entries records targetMonth result day Hresult) as Hentry.
  fold monthRecords in Hentry.
  destruct (decide (isWeekday day)) as [Hd|Hd]; [|by rewrite Hentry in Hday].
  destruct Hentry as (s & Hs & Hsessions & _ & Hhours & Hdates).
  rewrite Hs in Hday. injection Hday as <-. unfold weekdayAverage. simpl.
  rewrite Hsessions, Hhours, Hdates.
  destruct (size_list_to_set_fmap dateKeyOf (onWeekday day monthRecords)) as [Hle Hzero].
  set (days := size (list_to_set (dateKeyOf <$> onWeekday day monthRecords) : gset string)) in *.
  set (sessions := length (onWeekday day monthRecords)) in *.
  assert (Hsame : days = 0%nat ↔ sessions = 0%nat).
  { rewrite Hzero. subst sessions. by destruct (onWeekday day monthRecords). }
  split; [lia|]. split; [lia|].
  destruct (Z.gtb_spec (Z.of_nat days) 0) as [Hdays|Hdays];
    destruct (Z.gtb_spec (Z.of_nat sessions) 0) as [Hpos|Hnone]; try lia.
  - split; [done|]. split; [|split].
    + intros _. split.
      * apply round1_div_ge_1; lia.
      * apply round1_div_bounds; lia.
    + intros _. apply round1_roundedToTenth.
    + lia.
  - split; [done|]. split; [lia|]. split; [lia|done].
Qed.

(** Two visits on a Friday and one on a Saturday of March 2024. *)
Lemma weekday_average_occupancy_witness :
  let records :=
    [Visit.mk 1711722822000 (Qc_of_Z 90) "A" "2024-03" 23 5 other;
     Visit.mk 1711678000000 (Qc_of_Z 45) "B" "2024-03" 11 5 morning;
     Visit.mk 1711760000000 (Qc_of_Z 30) "A" "2024-03" 9 6 morning] in
  let monthRecords := monthRecordsOf records "2024-03" in
  ∃ result,
    analyzeDayOfWeek records "2024-03" = Some result
    ∧ ∀ day average,
        result !! day = Some average →
        let sessions := WeekdayAverage.totalSessions average in
        let days := WeekdayAverage.daysAnalyzed average in
        0 ≤ days ≤ sessions
        ∧ (days = 0 ↔ sessions = 0)
        ∧ WeekdayAverage.averageOccupancy average
          = (if sessions >? 0 then round1 (Qc_of_Z sessions / Qc_of_Z days) else Qc_of_Z 0)
        ∧ (0 < sessions →
           (Qc_of_Z 1 <= WeekdayAverage.averageOccupancy average)%Qc
           ∧ (WeekdayAverage.averageOccupancy average <= Qc_of_Z sessions)%Qc)
        ∧ (0 < sessions →
           roundedToTenth
             (sumList visitHours (onWeekday day monthRecords) / Qc_of_Z sessions)
             (WeekdayAverage.averageSessionLength average))
        ∧ (sessions = 0 → WeekdayAverage.averageSessionLength average = Qc_of_Z 0).
Proof.
  intros records.
  apply (weekday_average_occupancy records "2024-03").
  - unfold isWeekday. vm_compute. repeat constructor; discriminate.
  - vm_compute. repeat constructor.
    + exists 5400. by apply Qc_is_canon.
    + exists 2700. by apply Qc_is_canon.
    + exists 1800. by apply Qc_is_canon.
Defined.

(** ** The records that loadCSV collects *)

Lemma getHours_range (tz t : Z) : 0 ≤ JSDate.getHours tz t ≤ 23.
Proof. unfold JSDate.getHours, JSDate.HourFromTime. lia. Qed.

Lemma getTimeSlot_spec (hour : Z) :
  (getTimeSlot hour = morning ↔ 8 ≤ hour ≤ 11)
  ∧ (getTimeSlot hour = afternoon ↔ 12 ≤ hour ≤ 17)
  ∧ (getTimeSlot hour = evening ↔ 18 ≤ hour ≤ 22)
  ∧ (getTimeSlot hour = other ↔ hour ≤ 7 ∨ 23 ≤ hour).
Proof.
  unfold getTimeSlot.
  destruct (Z.geb_spec hour 8), (Z.ltb_spec hour 12), (Z.geb_spec hour 12),
    (Z.ltb_spec hour 18), (Z.geb_spec hour 18), (Z.ltb_spec hour 23);
    simpl; repeat split; intros; try done; try lia.
Qed.

(** X19. loadCSV keeps a row whose checkin parsed exactly when its stay is
    positive.  The record it builds has the local hour of the checkin, from
    0 to 23, a dayOfWeek from 0 to 6, and the time slot of that hour:
    'morning' for the hours 8 to 11, 'afternoon' for 12 to 17, 'evening' for
    18 to 22 and 'other' for 23 and for 0 to 7. *)
Theorem loaded_record_fields (tz checkinDate : Z) (stayTime : Qc) (userId : string) :
  (is_Some (loadRecord tz checkinDate stayTime userId) ↔ (0 < stayTime)%Qc)
  ∧ ∀ r, loadRecord tz checkinDate stayTime userId = Some r →
         Visit.checkinDate r = checkinDate
         ∧ Visit.stayTime r = stayTime
         ∧ (0 < visitHours r)%Qc
         ∧ Visit.hour r = clockHour tz checkinDate mod 24
         ∧ 0 ≤ Visit.hour r ≤ 23
         ∧ isWeekday (Visit.dayOfWeek r)
         ∧ (Visit.timeSlot r = morning ↔ 8 ≤ Visit.hour r ≤ 11)
         ∧ (Visit.timeSlot r = afternoon ↔ 12 ≤ Visit.hour r ≤ 17)
         ∧ (Visit.timeSlot r = evening ↔ 18 ≤ Visit.hour r ≤ 22)
         ∧ (Visit.timeSlot r = other ↔ Visit.hour r ≤ 7 ∨ Visit.hour r = 23).
Proof.
  unfold loadRecord. destruct (Qc_ltb 0 stayTime) eqn:Hstay.
  - apply Qc_ltb_lt in Hstay. split; [split; [done|by eexists]|].
    intros r [= <-]. simpl.
    pose proof (getHours_range tz checkinDate) as Hhour.
    destruct (getTimeSlot_spec (JSDate.getHours tz checkinDate)) as (Hm & Ha & He & Ho).
    split; [done|]. split; [done|]. split.
    { unfold visitHours. simpl Visit.stayTime.
      replace 0%Qc with (0 / Qc_of_Z 60)%Qc by apply Qcmult_0_l.
      by apply Qc_div_lt_mono. }
    split; [done|]. split; [done|]. split; [apply WeekDay_range|].
    split; [done|]. split; [done|]. split; [done|]. rewrite Ho. lia.
  - split; [|done]. split; [by intros [? ?]|]. intros Hpos.
    apply Qc_ltb_lt in Hpos. congruence.
Qed.

(** ** The month of a record *)

Lemma string_app_nil (t : string) : (EmptyString ++ t)%string = t.
Proof. reflexivity. Qed.

Lemma string_app_cons (c : ascii) (s t : string) :
  (String c s ++ t)%string = String c (s ++ t).
Proof. reflexivity. Qed.

Lemma string_length_app (s t : string) :
  String.length (s ++ t)%string = (String.length s + String.length t)%nat.
Proof.
  induction s as [|c s IH]; [done|].
  rewrite string_app_cons. simpl. by rewrite IH.
Qed.

Lemma string_app_inj_tail (s1 s2 t1 t2 : string) :
  String.length t1 = String.length t2 →
  (s1 ++ t1)%string = (s2 ++ t2)%string → s1 = s2 ∧ t1 = t2.
Proof.
  revert s2. induction s1 as [|c1 s1 IH]; intros [|c2 s2] Hlen Heq;
    rewrite ?string_app_nil, ?string_app_cons in Heq.
  - done.
  - subst t1. simpl in Hlen. rewrite string_length_app in Hlen. lia.
  - subst t2. simpl in Hlen. rewrite string_length_app in Hlen. lia.
  - injection Heq as -> Heq. destruct (IH s2 Hlen Heq) as [-> ->]. done.
Qed.

Lemma show_Z_inj (a b : Z) : show_Z a = show_Z b → a = b.
Proof.
  intros Heq. pose proof (read_show_Z a) as Ha. rewrite Heq, read_show_Z in Ha. congruence.
Qed.

Lemma pad2_month (m : Z) :
  1 ≤ m ≤ 12 →
  String.length (padStart (show_Z m) 2 "0") = 2%nat
  ∧ read_Z (padStart (show_Z m) 2 "0") = Some m.
Proof.
  intros Hm.
  assert (Hcases : m = 1 ∨ m = 2 ∨ m = 3 ∨ m = 4 ∨ m = 5 ∨ m = 6 ∨ m = 7 ∨ m = 8
                   ∨ m = 9 ∨ m = 10 ∨ m = 11 ∨ m = 12) by lia.
  destruct Hcases as [->|[->|[->|[->|[->|[->|[->|[->|[->|[->|[->| ->]]]]]]]]]]];
    by vm_compute.
Qed.

Lemma getMonth_range (tz t : Z) : 1 ≤ JSDate.getMonth tz t + 1 ≤ 12.
Proof.
  pose proof (civil_from_days_range (JSDate.Day (JSDate.LocalTime tz t))) as [Hm _].
  unfold JSDate.getMonth, JSDate.MonthFromTime. lia.
Qed.

Lemma getYearMonth_inj (tz a b : Z) :
  getYearMonth tz a = getYearMonth tz b ↔ localMonth tz a = localMonth tz b.
Proof.
  unfold getYearMonth, localMonth. split.
  - intros Heq.
    destruct (pad2_month _ (getMonth_range tz a)) as [Hla Hra].
    destruct (pad2_month _ (getMonth_range tz b)) as [Hlb Hrb].
    apply string_app_inj_tail in Heq as [Hyear Hmonth].
    + apply show_Z_inj in Hyear. rewrite !string_app_cons, !string_app_nil in Hmonth.
      injection Hmonth as Hmonth.
      rewrite Hmonth, Hrb in Hra. congruence.
    + rewrite !string_app_cons, !string_app_nil. simpl String.length.
      by rewrite Hla, Hlb.
  - intros [= -> Hm]. by replace (JSDate.getMonth tz a) with (JSDate.getMonth tz b) by lia.
Qed.

(** X20. Two instants have the same yearMonth text exactly when they lie in
    the same local calendar month of the same year; so the records that the
    analyses select for the yearMonth of an instant are the loaded records
    whose checkin lies in the local calendar month of that instant, and a
    record is selected for at most one month. *)
Theorem month_selection (tz t : Z) (rows : list (Z * Qc * string)) (r : Visit.t) :
  (∀ a b, getYearMonth tz a = getYearMonth tz b ↔ localMonth tz a = localMonth tz b)
  ∧ (r ∈ monthRecordsOf (loadRows tz rows) (getYearMonth tz t)
     ↔ r ∈ loadRows tz rows ∧ localMonth tz (Visit.checkinDate r) = localMonth tz t)
  ∧ (∀ month month', r ∈ monthRecordsOf (loadRows tz rows) month →
                     r ∈ monthRecordsOf (loadRows tz rows) month' → month = month').
Proof.
  split; [intros a b; apply getYearMonth_inj|]. split.
  - unfold monthRecordsOf. rewrite !list_elem_of_In, filter_In, <- !list_elem_of_In.
    rewrite bool_decide_eq_true.
    split; intros [Hr Hmonth]; (split; [done|]).
    + unfold loadRows in Hr. apply list_elem_of_omap in Hr as (row & _ & Hrow).
      unfold loadRecord in Hrow. destruct (Qc_ltb 0 row.1.2); [|done].
      injection Hrow as <-. simpl in *. by apply getYearMonth_inj.
    + unfold loadRows in Hr. apply list_elem_of_omap in Hr as (row & _ & Hrow).
      unfold loadRecord in Hrow. destruct (Qc_ltb 0 row.1.2); [|done].
      injection Hrow as <-. simpl in *. by apply getYearMonth_inj.
  - intros month month'. unfold monthRecordsOf.
    rewrite !list_elem_of_In, !filter_In, !bool_decide_eq_true.
    intros [_ <-] [_ <-]. done.
Qed.

(** ** The day under which a checkin is filed *)

Lemma digitsValue_zero (s : string) (z : Z) :
  digitsValue s = Some z → digitsValue (String "0" s) = Some z.
Proof.
  unfold digitsValue. simpl NilEmpty.uint_of_string.
  destruct (NilEmpty.uint_of_string s) as [d|]; [|done]. done.
Qed.

Lemma digitsValue_zeros (k : nat) (s : string) (z : Z) :
  digitsValue s = Some z → digitsValue (replicate_char k "0" ++ s)%string = Some z.
Proof.
  intros Hs. induction k as [|k IH]; [done|].
  change (replicate_char (S k) "0") with (String "0" (replicate_char k "0")).
  rewrite string_app_cons. by apply digitsValue_zero.
Qed.

Lemma digitsValue_show_Z (z : Z) : 0 ≤ z → digitsValue (show_Z z) = Some z.
Proof.
  destruct z as [|p|p]; [done| |lia]. intros _. unfold digitsValue, show_Z. simpl Z.to_int.
  unfold NilZero.string_of_int, NilZero.string_of_uint.
  pose proof (DecimalPos.Unsigned.to_uint_nonnil p) as Hnil.
  pose proof (DecimalPos.Unsigned.of_to p) as Hp.
  assert (Hs : NilEmpty.uint_of_string (NilEmpty.string_of_uint (Pos.to_uint p))
               = Some (Pos.to_uint p)) by apply NilEmpty.usu.
  destruct (Pos.to_uint p) eqn:Hd; try done;
    rewrite Hs; simpl; unfold Z.of_uint; by rewrite Hp.
Qed.

Lemma digitsValue_pad (n : nat) (z : Z) : 0 ≤ z → digitsValue (JSDate.pad n z) = Some z.
Proof. intros Hz. by apply digitsValue_zeros, digitsValue_show_Z. Qed.

Lemma digitsValue_sign (c : ascii) (s : string) :
  c = "-"%char ∨ c = "+"%char → digitsValue (String c s) = None.
Proof.
  unfold digitsValue. simpl NilEmpty.uint_of_string.
  intros [-> | ->]; by destruct (NilEmpty.uint_of_string s).
Qed.

Lemma pad_inj (n : nat) (a b : Z) : 0 ≤ a → 0 ≤ b → JSDate.pad n a = JSDate.pad n b → a = b.
Proof.
  intros Ha Hb Heq. pose proof (digitsValue_pad n a Ha) as Hva.
  rewrite Heq, digitsValue_pad in Hva by done. congruence.
Qed.

Lemma iso_year_shape (y : Z) :
  (0 ≤ y ≤ 9999 ∧ JSDate.iso_year y = JSDate.pad 4 y)
  ∨ (¬ 0 ≤ y ≤ 9999
     ∧ JSDate.iso_year y
       = String (if y <? 0 then "-"%char else "+"%char) (JSDate.pad 6 (Z.abs y))).
Proof.
  unfold JSDate.iso_year.
  destruct (Z.leb_spec 0 y), (Z.leb_spec y 9999); simpl andb; cbv iota.
  - left. split; [lia|done].
  - right. split; [lia|]. by destruct (y <? 0).
  - right. split; [lia|]. by destruct (y <? 0).
  - right. split; [lia|]. by destruct (y <? 0).
Qed.

Lemma iso_year_inj (a b : Z) : JSDate.iso_year a = JSDate.iso_year b → a = b.
Proof.
  destruct (iso_year_shape a) as [[Ha ->]|[Ha ->]],
    (iso_year_shape b) as [[Hb ->]|[Hb ->]]; intros Heq.
  - apply pad_inj in Heq; lia.
  - pose proof (digitsValue_pad 4 a ltac:(lia)) as Hv. rewrite Heq in Hv.
    rewrite digitsValue_sign in Hv; [done|]. destruct (b <? 0); auto.
  - pose proof (digitsValue_pad 4 b ltac:(lia)) as Hv. rewrite <- Heq in Hv.
    rewrite digitsValue_sign in Hv; [done|]. destruct (a <? 0); auto.
  - injection Heq as Hsign Hpad. apply pad_inj in Hpad; [|lia|lia].
    destruct (Z.ltb_spec a 0), (Z.ltb_spec b 0); try done; lia.
Qed.

Lemma split_T_0_cons (c : ascii) (s : string) :
  c ≠ "T"%char → split_T_0 (String c s) = String c (split_T_0 s).
Proof. intros Hc. simpl. by destruct (Ascii.eqb_spec c "T"). Qed.

Lemma split_T_0_digits (s t : string) (z : Z) :
  digitsValue s = Some z → split_T_0 (s ++ t)%string = (s ++ split_T_0 t)%string.
Proof.
  revert z. induction s as [|c s IH]; intros z; [done|].
  unfold digitsValue. simpl NilEmpty.uint_of_string.
  destruct (NilEmpty.uint_of_string s) as [d|] eqn:Hs; [|done].
  destruct (uint_of_char c (Some d)) as [d'|] eqn:Hc; [|done]. intros _.
  rewrite !string_app_cons.
  assert (Hs' : digitsValue s = Some (Z.of_uint d)) by (unfold digitsValue; by rewrite Hs).
  rewrite split_T_0_cons, (IH _ Hs'); [done|].
  apply uint_of_char_spec in Hc.
  destruct Hc as [[-> _]|[[-> _]|[[-> _]|[[-> _]|[[-> _]|[[-> _]|[[-> _]|[[-> _]|[[-> _]|[-> _]]]]]]]]]];
    discriminate.
Qed.

Lemma split_T_0_iso_year (y : Z) (t : string) :
  split_T_0 (JSDate.iso_year y ++ t)%string = (JSDate.iso_year y ++ split_T_0 t)%string.
Proof.
  destruct (iso_year_shape y) as [[Hy ->]|[Hy ->]].
  - apply (split_T_0_digits _ _ y), digitsValue_pad. lia.
  - rewrite !string_app_cons, split_T_0_cons by (destruct (y <? 0); discriminate).
    f_equal. apply (split_T_0_digits _ _ (Z.abs y)), digitsValue_pad. lia.
Qed.

Lemma utcDate_range (t : Z) : 1 ≤ (utcDate t).1.2 ≤ 12 ∧ 1 ≤ (utcDate t).2 ≤ 31.
Proof. apply civil_from_days_range. Qed.

Lemma split_T_0_toISOString (t : Z) : split_T_0 (JSDate.toISOString t) = isoDate (utcDate t).
Proof.
  unfold JSDate.toISOString, isoDate.
  pose proof (utcDate_range t) as [Hm Hd].
  replace (JSDate.MonthFromTime t + 1) with (utcDate t).1.2
    by (unfold JSDate.MonthFromTime, utcDate; lia).
  change (JSDate.YearFromTime t) with (utcDate t).1.1.
  change (JSDate.DateFromTime t) with (utcDate t).2.
  rewrite split_T_0_iso_year. f_equal.
  rewrite !string_app_cons, !string_app_nil, split_T_0_cons by discriminate. f_equal.
  rewrite (split_T_0_digits _ _ (utcDate t).1.2) by (apply digitsValue_pad; lia). f_equal.
  rewrite split_T_0_cons by discriminate. f_equal.
  rewrite (split_T_0_digits _ _ (utcDate t).2) by (apply digitsValue_pad; lia).
  simpl split_T_0.
  generalize (JSDate.pad 2 (utcDate t).2). intros s.
  induction s as [|c s IH]; [done|]. rewrite !string_app_cons. by rewrite IH.
Qed.

Lemma pad2_length_all :
  forallb (λ n, Nat.eqb (String.length (JSDate.pad 2 (Z.of_nat n))) 2) (seq 0 100) = true.
Proof. by vm_compute. Qed.

Lemma pad2_length (z : Z) : 0 ≤ z < 100 → String.length (JSDate.pad 2 z) = 2%nat.
Proof.
  intros Hz. pose proof pad2_length_all as Hall.
  rewrite forallb_forall in Hall. specialize (Hall (Z.to_nat z)).
  rewrite Z2Nat.id in Hall by lia. apply Nat.eqb_eq, Hall, in_seq. lia.
Qed.

Lemma isoDate_inj (a b : Z * Z * Z) :
  0 ≤ a.1.2 < 100 → 0 ≤ a.2 < 100 → 0 ≤ b.1.2 < 100 → 0 ≤ b.2 < 100 →
  isoDate a = isoDate b → a = b.
Proof.
  destruct a as [[ya ma] da], b as [[yb mb] db]. simpl. intros Hma Hda Hmb Hdb.
  unfold isoDate. simpl. intros Heq.
  apply string_app_inj_tail in Heq as [Hyear Htail].
  - apply iso_year_inj in Hyear. rewrite !string_app_cons, !string_app_nil in Htail.
    injection Htail as Htail.
    apply string_app_inj_tail in Htail as [Hmonth Hday].
    + apply pad_inj in Hmonth; [|lia|lia]. injection Hday as Hday.
      apply pad_inj in Hday; [|lia|lia]. congruence.
    + simpl String.length. by rewrite !pad2_length.
  - rewrite !string_app_cons, !string_app_nil. simpl String.length.
    rewrite !string_length_app. simpl String.length. by rewrite !pad2_length.
Qed.

Lemma day_key_inj (a b : Z) :
  split_T_0 (JSDate.toISOString a) = split_T_0 (JSDate.toISOString b)
  ↔ JSDate.Day a = JSDate.Day b.
Proof.
  rewrite !split_T_0_toISOString. split.
  - intros Heq. pose proof (utcDate_range a) as [? ?]. pose proof (utcDate_range b) as [? ?].
    apply isoDate_inj in Heq; try lia. unfold utcDate in Heq.
    rewrite <- (days_from_civil_from_days (JSDate.Day a)),
      <- (days_from_civil_from_days (JSDate.Day b)).
    by rewrite Heq.
  - unfold utcDate. by intros ->.
Qed.

Lemma isoDate_civil_inj (d1 d2 : Z) :
  isoDate (JSDate.civil_from_days d1) = isoDate (JSDate.civil_from_days d2) ↔ d1 = d2.
Proof.
  split; [|by intros ->]. intros Heq.
  pose proof (civil_from_days_range d1) as [? ?].
  pose proof (civil_from_days_range d2) as [? ?].
  apply isoDate_inj in Heq; try lia.
  rewrite <- (days_from_civil_from_days d1), <- (days_from_civil_from_days d2).
  by rewrite Heq.
Qed.

(** X21. The day under which a checkin is filed, in the dailyStats of
    calculateHourlyOccupancy and in both analyses by time of day and day of
    the week, is the text of its calendar date in UTC: year, month and day
    of the month, each padded with zeros.  Two checkins share a day exactly
    when they fall on the same UTC day. *)
Theorem day_key_is_utc_date :
  (∀ t, split_T_0 (JSDate.toISOString t) = isoDate (utcDate t))
  ∧ (∀ r1 r2 : Row.t,
       dayKey r1 = dayKey r2
       ↔ JSDate.Day (Row.checkinTime r1) = JSDate.Day (Row.checkinTime r2))
  ∧ (∀ r1 r2 : Visit.t,
       dateKeyOf r1 = dateKeyOf r2
       ↔ JSDate.Day (Visit.checkinDate r1) = JSDate.Day (Visit.checkinDate r2)).
Proof.
  split; [apply split_T_0_toISOString|]. split; intros; apply day_key_inj.
Qed.

(** X22. In a zone ahead of UTC, a checkin whose local time of day is
    earlier than the zone offset is filed under the day before its local
    date, and any other checkin under its local date. *)
Theorem early_checkin_filed_under_previous_day (tz : Z) (r : Visit.t) :
  0 < tz ≤ JSDate.msPerDay →
  let localTime := JSDate.LocalTime tz (Visit.checkinDate r) in
  (dateKeyOf r = isoDate (JSDate.civil_from_days (JSDate.Day localTime - 1))
   ↔ JSDate.TimeWithinDay localTime < tz)
  ∧ (dateKeyOf r = isoDate (JSDate.civil_from_days (JSDate.Day localTime))
     ↔ tz ≤ JSDate.TimeWithinDay localTime).
Proof.
  intros Htz localTime. unfold dateKeyOf. rewrite split_T_0_toISOString.
  unfold utcDate. rewrite !isoDate_civil_inj. subst localTime.
  unfold JSDate.TimeWithinDay, JSDate.Day, JSDate.LocalTime, JSDate.msPerDay in *. lia.
Qed.

(** A checkin at 08:30 of 30 March 2024 in Japan (UTC+9) is filed under
    29 March. *)
Lemma early_checkin_filed_under_previous_day_witness :
  let r := Visit.mk 1711755000000 (Qc_of_Z 45) "A" "2024-03" 8 6 morning in
  let localTime := JSDate.LocalTime 32400000 (Visit.checkinDate r) in
  (dateKeyOf r = isoDate (JSDate.civil_from_days (JSDate.Day localTime - 1))
   ↔ JSDate.TimeWithinDay localTime < 32400000)
  ∧ (dateKeyOf r = isoDate (JSDate.civil_from_days (JSDate.Day localTime))
     ↔ 32400000 ≤ JSDate.TimeWithinDay localTime).
Proof.
  intros r. apply (early_checkin_filed_under_previous_day 32400000 r).
  unfold JSDate.msPerDay. lia.
Defined.

Lemma getHours_pad_inj (tz a b : Z) :
  JSDate.pad 2 (JSDate.getHours tz a) = JSDate.pad 2 (JSDate.getHours tz b)
  ↔ JSDate.getHours tz a = JSDate.getHours tz b.
Proof.
  split; [|by intros ->]. pose proof (getHours_range tz a). pose proof (getHours_range tz b).
  intros Heq. apply pad_inj in Heq; lia.
Qed.

Lemma dateHour_inj (tz a b ca cb : Z) :
  Slot.dateHour (slot_at tz a ca) = Slot.dateHour (slot_at tz b cb)
  ↔ JSDate.Day a = JSDate.Day b ∧ JSDate.getHours tz a = JSDate.getHours tz b.
Proof.
  unfold slot_at. simpl Slot.dateHour. fold (JSDate.pad 2 (JSDate.getHours tz a)).
  fold (JSDate.pad 2 (JSDate.getHours tz b)).
  rewrite <- day_key_inj, <- getHours_pad_inj. split.
  - intros Heq. apply string_app_inj_tail in Heq as [Hday Hhour].
    + split; [done|]. rewrite !string_app_cons, !string_app_nil in Hhour.
      by injection Hhour.
    + rewrite !string_app_cons, !string_app_nil. simpl String.length.
      rewrite !pad2_length; [done| |].
      * pose proof (getHours_range tz b). lia.
      * pose proof (getHours_range tz a). lia.
  - by intros [-> ->].
Qed.

Lemma dateHour_clockHour (tz a b ca cb : Z) :
  tz mod JSDate.msPerHour = 0 →
  Slot.dateHour (slot_at tz a ca) = Slot.dateHour (slot_at tz b cb)
  ↔ clockHour tz a = clockHour tz b.
Proof.
  intros Hwhole. rewrite dateHour_inj.
  unfold clockHour, JSDate.Day, JSDate.getHours, JSDate.HourFromTime, JSDate.LocalTime,
    JSDate.msPerDay, JSDate.msPerHour in *. lia.
Qed.

(** X23. The key of the bucket that a slot is counted in joins the UTC date
    of the slot's start with its local hour of the day.  Two slots share a
    bucket exactly when they start on the same UTC day at the same local
    hour of the day; this is the same as starting in the same clock hour
    exactly when the zone offset is a whole number of hours: otherwise
    slots of different clock hours can share a bucket. *)
Theorem bucket_key_and_clock_hour (tz : Z) :
  (∀ a b ca cb,
     Slot.dateHour (slot_at tz a ca) = Slot.dateHour (slot_at tz b cb)
     ↔ JSDate.Day a = JSDate.Day b ∧ JSDate.getHours tz a = JSDate.getHours tz b)
  ∧ ((∀ a b ca cb,
        Slot.dateHour (slot_at tz a ca) = Slot.dateHour (slot_at tz b cb)
        ↔ clockHour tz a = clockHour tz b)
     ↔ tz mod JSDate.msPerHour = 0).
Proof.
  split; [intros; apply dateHour_inj|]. split.
  - intros Hkeys.
    destruct (decide (tz mod JSDate.msPerHour = 0)) as [|Hrest]; [done|]. exfalso.
    specialize (Hkeys 0 (JSDate.msPerDay - tz mod JSDate.msPerHour) 0 0).
    rewrite dateHour_inj in Hkeys.
    unfold clockHour, JSDate.Day, JSDate.getHours, JSDate.HourFromTime, JSDate.LocalTime,
      JSDate.msPerDay, JSDate.msPerHour in *.
    assert (Hsame : 0 / 86400000 = (86400000 - tz mod 3600000) / 86400000
                    ∧ ((0 + tz) / 3600000) mod 24
                      = ((86400000 - tz mod 3600000 + tz) / 3600000) mod 24) by lia.
    apply (proj1 Hkeys) in Hsame. lia.
  - intros Hwhole a b ca cb. by apply dateHour_clockHour.
Qed.

(** ** The comparison of several months *)

Lemma compareMonth_is_Some (records : list Visit.t) (month : string) :
  is_Some (compareMonth records month)
  ↔ Forall (λ r, isWeekday (Visit.dayOfWeek r)) (monthRecordsOf records month).
Proof.
  rewrite <- analyzeDayOfWeek_is_Some. unfold compareMonth.
  destruct (analyzeDayOfWeek records month); split; try done; by intros [? ?].
Qed.

Lemma compareMonths_is_Some (records : list Visit.t) (months : list string) :
  ∀ comparison,
    is_Some (compareMonths records months comparison)
    ↔ Forall (λ month, is_Some (compareMonth records month)) months.
Proof.
  induction months as [|month rest IH]; intros comparison; simpl.
  - split; [by constructor|by eexists].
  - rewrite list.Forall_cons. destruct (compareMonth records month) as [entry|].
    + rewrite IH. split; [by split|by intros [_ ?]].
    + split; [by intros [? ?]|]. by intros [[? ?] _].
Qed.

Lemma compareMonths_lookup (records : list Visit.t) (months : list string) :
  ∀ comparison final month,
    compareMonths records months comparison = Some final →
    final !! month
    = if decide (month ∈ months) then compareMonth records month else comparison !! month.
Proof.
  induction months as [|first rest IH]; intros comparison final month; simpl compareMonths.
  - intros [= <-]. rewrite decide_False; [done|]. apply list.not_elem_of_nil.
  - destruct (compareMonth records first) as [entry|] eqn:Hentry; [|done].
    intros Hfinal. rewrite (IH _ _ month Hfinal).
    destruct (decide (month ∈ rest)) as [Hin|Hout].
    + rewrite decide_True; [done|]. rewrite list.elem_of_cons. by right.
    + destruct (decide (first = month)) as [<-|Hne].
      * rewrite lookup_insert_eq, decide_True; [done|]. rewrite list.elem_of_cons. by left.
      * rewrite lookup_insert_ne by done. rewrite decide_False; [done|].
        rewrite list.elem_of_cons. intros [->|?]; done.
Qed.

(** X24. compareMultipleMonths returns a result exactly when analyzeDayOfWeek
    does for each requested month, so always on the records that loadCSV
    builds from rows whose checkin is a valid date.  The result has an
    entry for each requested month and no
    other; the entry of a month is made from that month alone, whatever the
    other months requested, their order and their repetitions: its time
    slots are analyzeTimeSlots of the month, its days of the week
    analyzeDayOfWeek of the month, and its totalRecords equals both the
    totalRecords of the time slots and the totalSessions of the seven days
    of the week together. *)
Theorem months_compared_independently (tz : Z) (rows : list (Z * Qc * string))
    (records : list Visit.t) (months : list string) :
  (is_Some (compareMultipleMonths records months)
   ↔ Forall (λ month, is_Some (analyzeDayOfWeek records month)) months)
  ∧ is_Some (compareMultipleMonths (loadRows tz rows) months)
  ∧ ∀ comparison,
      compareMultipleMonths records months = Some comparison →
      (∀ month, is_Some (comparison !! month) ↔ month ∈ months)
      ∧ ∀ month entry,
          comparison !! month = Some entry →
          MonthComparison.month entry = month
          ∧ MonthComparison.timeSlots entry = analyzeTimeSlots records month
          ∧ analyzeDayOfWeek records month = Some (MonthComparison.dayOfWeek entry)
          ∧ MonthComparison.totalRecords entry
            = TimeSlotAnalysis.totalRecords (MonthComparison.timeSlots entry)
          ∧ MonthComparison.totalRecords entry
            = sumWeek (λ day, from_option WeekdayAverage.totalSessions 0
                                (MonthComparison.dayOfWeek entry !! day)).
Proof.
  assert (Hsome : ∀ l, is_Some (compareMultipleMonths l months)
                       ↔ Forall (λ month, is_Some (analyzeDayOfWeek l month)) months).
  { intros l. unfold compareMultipleMonths. rewrite compareMonths_is_Some.
    rewrite !list.Forall_forall. split; intros Hall month Hmonth;
      specialize (Hall month Hmonth);
      rewrite compareMonth_is_Some, <- analyzeDayOfWeek_is_Some in *; done. }
  split; [apply Hsome|]. split.
  { apply Hsome, list.Forall_forall. intros month _.
    apply analyzeDayOfWeek_is_Some, monthRecordsOf_Forall, loadRows_weekdays. }
  intros comparison Hcomparison. unfold compareMultipleMonths in Hcomparison.
  pose proof (λ month, compareMonths_lookup records months ∅ comparison month Hcomparison)
    as Hlookup.
  assert (Hall : Forall (λ month, is_Some (compareMonth records month)) months).
  { apply (compareMonths_is_Some records months ∅). by eexists. }
  rewrite list.Forall_forall in Hall.
  split.
  - intros month. rewrite Hlookup. destruct (decide (month ∈ months)) as [Hin|Hout].
    + split; [done|]. intros _. by apply Hall.
    + rewrite lookup_empty. split; [by intros [? ?]|done].
  - intros month entry Hentry. rewrite Hlookup in Hentry.
    destruct (decide (month ∈ months)); [|by rewrite lookup_empty in Hentry].
    unfold compareMonth in Hentry.
    destruct (analyzeDayOfWeek records month) as [dow|] eqn:Hdow; [|done].
    injection Hentry as <-. simpl. fold (monthRecordsOf records month).
    split; [done|]. split; [done|]. split; [done|]. split.
    + by rewrite analyzeTimeSlots_unfold.
    + by rewrite (analyzeDayOfWeek_sumWeek records month dow Hdow).
Qed.

(** ** One entry of a bucket per visit *)

Lemma slots_loop_keys (tz : Z) (fuel : nat) :
  ∀ c e l, slots_loop tz fuel c e = Some l →
           Forall (λ s, Slot.dateHour s = Slot.dateHour (slot_at tz (Slot.checkin s) e)) l.
Proof.
  induction fuel as [|fuel IH]; intros c e l Hl.
  - simpl in Hl. destruct (c <? e); [done|]. by injection Hl as <-.
  - destruct (Z.lt_ge_cases c e) as [Hce|Hce].
    + rewrite slots_loop_step in Hl by done.
      destruct (slots_loop tz fuel (slotEnd_of tz c) e) as [rest|] eqn:Hrest; [|done].
      simpl in Hl. injection Hl as <-. constructor; [done|]. by eapply IH.
    + rewrite slots_loop_done in Hl by done. injection Hl as <-. constructor.
Qed.

Lemma slots_clock_hours (tz checkin checkout : Z) (i : nat) (s : Slot.t) :
  generateTimeSlots tz checkin checkout !! i = Some s →
  clockHour tz (Slot.checkin s) = clockHour tz checkin + Z.of_nat i.
Proof.
  intros Hs. destruct (Z.lt_ge_cases checkin checkout) as [Hlt|Hge].
  - pose proof (generateTimeSlots_loop tz checkin checkout _ (le_n _)) as Hloop.
    destruct (slots_loop_nth tz _ _ _ _ _ _ Hloop Hlt Hs) as [-> _].
    pose proof (hourStart_bounds tz checkin) as Hc.
    destruct i as [|i].
    + rewrite Z.add_0_r, Z.max_l by lia. lia.
    + pose proof (hourStart_mono tz (clockHour tz checkin + 1)
                    (clockHour tz checkin + Z.of_nat (S i)) ltac:(lia)).
      rewrite Z.max_r by lia. apply clockHour_hourStart.
  - rewrite generateTimeSlots_empty in Hs by done. done.
Qed.

Lemma slots_keys_NoDup (tz checkin checkout : Z) :
  tz mod JSDate.msPerHour = 0 →
  NoDup (Slot.dateHour <$> generateTimeSlots tz checkin checkout).
Proof.
  intros Hwhole. apply NoDup_alt. intros i j key Hi Hj.
  rewrite list_lookup_fmap in Hi, Hj.
  destruct (generateTimeSlots tz checkin checkout !! i) as [si|] eqn:Hsi; [|done].
  destruct (generateTimeSlots tz checkin checkout !! j) as [sj|] eqn:Hsj; [|done].
  simpl in Hi, Hj. injection Hi as Hi. injection Hj as Hj.
  pose proof (slots_loop_keys tz _ _ _ _
                (generateTimeSlots_loop tz checkin checkout _ (le_n _))) as Hkeys.
  rewrite list.Forall_forall in Hkeys.
  pose proof (Hkeys si (list_elem_of_lookup_2 _ _ _ Hsi)) as Hki.
  pose proof (Hkeys sj (list_elem_of_lookup_2 _ _ _ Hsj)) as Hkj.
  rewrite Hki in Hi. rewrite Hkj, <- Hi in Hj.
  apply dateHour_clockHour in Hj; [|done].
  rewrite (slots_clock_hours _ _ _ _ _ Hsi), (slots_clock_hours _ _ _ _ _ Hsj) in Hj. lia.
Qed.

Lemma filter_key_length {A : Type} (f : A → string) (key : string) (l : list A) :
  NoDup (f <$> l) → (length (filter (λ s, f s = key) l) ≤ 1)%nat.
Proof.
  induction l as [|x l IH]; [intros _; simpl; lia|].
  change (f <$> x :: l) with (f x :: (f <$> l)). intros [Hx Hl]%list.NoDup_cons.
  rewrite filter_cons. destruct (decide (f x = key)) as [Hkey|Hkey]; [|by apply IH].
  assert (Hnone : filter (λ s, f s = key) l = []).
  { destruct (filter (λ s, f s = key) l) as [|y ys] eqn:Hfilter; [done|].
    assert (Hy : y ∈ filter (λ s, f s = key) l) by (rewrite Hfilter; by left).
    apply list_elem_of_filter in Hy as [Hyk Hy]. destruct Hx.
    rewrite Hkey, <- Hyk. by apply list_elem_of_fmap_2. }
  by rewrite Hnone.
Qed.

Lemma entriesOf_length (tz : Z) (key : string) (r : Row.t) :
  tz mod JSDate.msPerHour = 0 →
  (length (entriesOf tz key r) ≤ if counted r then 1 else 0)%nat.
Proof.
  intros Hwhole. unfold entriesOf, entries. rewrite length_fmap.
  destruct (counted r) eqn:Hr.
  - unfold slotsOf. rewrite Hr. destruct (Row.checkoutTime r) as [checkout|].
    + by apply filter_key_length, slots_keys_NoDup.
    + simpl. lia.
  - by rewrite slotsOf_uncounted.
Qed.

Lemma flat_map_entries_length (tz : Z) (key : string) (records : list Row.t) :
  tz mod JSDate.msPerHour = 0 →
  (length (flat_map (entriesOf tz key) records) ≤ length (List.filter counted records))%nat.
Proof.
  intros Hwhole. induction records as [|r records IH]; [done|].
  simpl. rewrite length_app. pose proof (entriesOf_length tz key r Hwhole) as Hr.
  destruct (counted r); simpl; lia.
Qed.

Lemma entriesOf_durations (tz : Z) (key : string) (records : list Row.t) :
  Forall (λ u, (0 < User.duration u)%Qc ∧ (User.duration u <= Qc_of_Z 60)%Qc)
    (flat_map (entriesOf tz key) records).
Proof.
  apply list.Forall_forall. intros u Hu.
  apply list_elem_of_In, in_flat_map in Hu as (r & _ & Hu). apply list_elem_of_In in Hu.
  unfold entriesOf, entries in Hu.
  apply list_elem_of_fmap in Hu as (s & -> & Hs). apply list_elem_of_filter in Hs as [_ Hs].
  simpl. unfold slotsOf in Hs. destruct (Row.checkoutTime r) as [checkout|].
  - destruct (counted r); [|by apply list.elem_of_nil in Hs].
    pose proof (generateTimeSlots_emitted tz (Row.checkinTime r) checkout) as Hall.
    rewrite list.Forall_forall in Hall. by eapply emitted_duration_bounds, Hall.
  - by apply list.elem_of_nil in Hs.
Qed.

Lemma sumUserMinutes_bounds (us : list User.t) :
  Forall (λ u, (0 < User.duration u)%Qc ∧ (User.duration u <= Qc_of_Z 60)%Qc) us →
  (Qc_of_Z 0 <= sumUserMinutes us)%Qc
  ∧ (sumUserMinutes us <= Qc_of_Z (60 * Z.of_nat (length us)))%Qc.
Proof.
  induction 1 as [|u us [Hpos Hle] _ [IHlo IHhi]]; simpl.
  - split; [done|]. by apply (proj1 (Z2Qc_inj_le _ _)).
  - split.
    + rewrite Z2Qc_inj_0 in *. rewrite <- (Qcplus_0_l 0).
      apply Qcplus_le_compat; [by apply Qclt_le_weak|done].
    + replace (60 * Z.of_nat (S (length us))) with (60 + 60 * Z.of_nat (length us)) by lia.
      rewrite Z2Qc_inj_add. by apply Qcplus_le_compat.
Qed.

(** X25. On a host whose zone offset from UTC is the constant tz (no
    daylight saving time), tz being a whole number of hours: a visit enters
    a bucket at most once, so the count of a bucket is at most the number
    of counted records, and so is peakOccupancy, which then counts visits
    present in one clock hour; and a bucket holds at most 60 minutes per
    entry. *)
Theorem bucket_counts_visits (tz : Z) (records : list Row.t) :
  tz mod JSDate.msPerHour = 0 →
  let monthData := calculateHourlyOccupancy tz records in
  let visits := Z.of_nat (length (List.filter counted records)) in
  (∀ key b, MonthData.hourlyOccupancy monthData !! key = Some b →
            1 ≤ Bucket.count b ≤ visits
            ∧ (0 <= Bucket.totalMinutes b)%Qc
            ∧ (Bucket.totalMinutes b <= Qc_of_Z (60 * Bucket.count b))%Qc)
  ∧ TotalStats.peakOccupancy (calculateTotalStats monthData records) ≤ visits
  ∧ visits ≤ TotalStats.totalSessions (calculateTotalStats monthData records).
Proof.
  intros Hwhole monthData visits.
  assert (Hbuckets : ∀ key b, MonthData.hourlyOccupancy monthData !! key = Some b →
            1 ≤ Bucket.count b ≤ visits
            ∧ (0 <= Bucket.totalMinutes b)%Qc
            ∧ (Bucket.totalMinutes b <= Qc_of_Z (60 * Bucket.count b))%Qc).
  { intros key b Hb. subst monthData. simpl in Hb. rewrite accumulate_buckets in Hb.
    pose proof (flat_map_entries_length tz key records Hwhole) as Hlen.
    pose proof (sumUserMinutes_bounds _ (entriesOf_durations tz key records)) as [Hlo Hhi].
    destruct (flat_map (entriesOf tz key) records) as [|u us] eqn:Hus; [done|].
    injection Hb as <-. simpl Bucket.count. simpl Bucket.totalMinutes.
    rewrite Z2Qc_inj_0 in Hlo. simpl length in Hlen. split; [subst visits; lia|]. done. }
  split; [done|]. split.
  - change (TotalStats.peakOccupancy (calculateTotalStats monthData records))
      with (maxValues Bucket.count (MonthData.hourlyOccupancy monthData)).
    destruct (maxValues_spec Bucket.count (MonthData.hourlyOccupancy monthData))
      as (_ & _ & [->|(key & b & Hb & <-)]).
    + subst visits. lia.
    + by apply (Hbuckets key b).
  - unfold calculateTotalStats. simpl TotalStats.totalSessions. subst visits.
    pose proof (length_filter_le counted records). lia.
Qed.

(** Two visits in Japan (UTC+9) that overlap in the hour from 23:00. *)
Lemma bucket_counts_visits_witness :
  let records :=
    [Row.mk "A" 1711722822000 (Some 1711728222000) (1, 30, 0);
     Row.mk "B" 1711724000000 (Some 1711725000000) (0, 16, 40)] in
  let monthData := calculateHourlyOccupancy 32400000 records in
  let visits := Z.of_nat (length (List.filter counted records)) in
  (∀ key b, MonthData.hourlyOccupancy monthData !! key = Some b →
            1 ≤ Bucket.count b ≤ visits
            ∧ (0 <= Bucket.totalMinutes b)%Qc
            ∧ (Bucket.totalMinutes b <= Qc_of_Z (60 * Bucket.count b))%Qc)
  ∧ TotalStats.peakOccupancy (calculateTotalStats monthData records) ≤ visits
  ∧ visits ≤ TotalStats.totalSessions (calculateTotalStats monthData records).
Proof.
  intros records.
  apply (bucket_counts_visits 32400000 records). reflexivity.
Defined.

(** ** The report as a whole *)

Lemma readSigned_calculateDifference (curr prev : Z) :
  readSigned (calculateDifference curr prev) = Some (curr - prev).
Proof.
  unfold calculateDifference.
  destruct (Z.geb_spec (curr - prev) 0) as [Hge|Hlt].
  - simpl. apply read_show_Z.
  - destruct (show_Z_negative (curr - prev)) as [digits Hd]; [lia|].
    change (readSigned (show_Z (curr - prev)) = Some (curr - prev)).
    rewrite Hd. simpl. rewrite <- Hd. apply read_show_Z.
Qed.

Lemma filter_filter_weaker {A : Type} (p q : A → bool) (l : list A) :
  (∀ x, p x = true → q x = true) → List.filter p (List.filter q l) = List.filter p l.
Proof.
  intros Hpq. induction l as [|x l IH]; [done|]. simpl.
  destruct (q x) eqn:Hq; simpl.
  - by rewrite IH.
  - destruct (p x) eqn:Hp; [|done]. apply Hpq in Hp. congruence.
Qed.

(** X26. The report of generateComparisonData is made of the records of
    its two windows alone: dropping every other record from the input
    changes nothing in it.  In each month report, records and the summary's
    totalSessions are both the number of records in the window, and the
    totalSessionsChange of the comparison reads back as the difference of
    the two numbers; manHoursChange is the percentage delta of the same two
    numbers.  comparisonDays is the day of the month of the clock, from 1
    to 31. *)
Theorem report_made_of_window_records (tz : Z) (records : list Row.t) (w : World.t) :
  let now := World.wallClock w (World.reads w) in
  let report := (generateComparisonData tz records w).1 in
  let current := Z.of_nat (length (currentMonthRecords tz now records)) in
  let previous := Z.of_nat (length (previousMonthRecords tz now records)) in
  (generateComparisonData tz (List.filter (inWindows tz now) records) w).1 = report
  ∧ MonthReport.records (Report.currentMonth report) = current
  ∧ MonthReport.records (Report.previousMonth report) = previous
  ∧ TotalStats.totalSessions (MonthReport.totalStats (Report.currentMonth report)) = current
  ∧ TotalStats.totalSessions (MonthReport.totalStats (Report.previousMonth report)) = previous
  ∧ readSigned (Comparison.totalSessionsChange (Report.comparison report))
    = Some (current - previous)
  ∧ Comparison.manHoursChange (Report.comparison report)
    = calculateChange (Qc_of_Z current) (Qc_of_Z previous)
  ∧ Metadata.comparisonDays (Report.metadata report) = currentDay_of tz now
  ∧ 1 ≤ Metadata.comparisonDays (Report.metadata report) ≤ 31.
Proof.
  intros now report current previous.
  assert (Hcurrent : currentMonthRecords tz now (List.filter (inWindows tz now) records)
                     = currentMonthRecords tz now records).
  { apply filter_filter_weaker. intros r Hr. unfold inWindows. by rewrite Hr. }
  assert (Hprevious : previousMonthRecords tz now (List.filter (inWindows tz now) records)
                      = previousMonthRecords tz now records).
  { apply filter_filter_weaker. intros r Hr. unfold inWindows. rewrite Hr.
    apply orb_true_r. }
  split.
  { subst report. unfold generateComparisonData, mbind, IO_bind, mret, IO_ret, Date_now.
    simpl. fold now. by rewrite Hcurrent, Hprevious. }
  split; [done|]. split; [done|]. split; [done|]. split; [done|].
  split; [apply readSigned_calculateDifference|].
  split.
  { subst report. unfold generateComparisonData, mbind, IO_bind, mret, IO_ret, Date_now.
    simpl. fold now. by rewrite !round1_Qc_of_Z. }
  split; [done|].
  pose proof (current_date_range tz now) as [_ Hday]. exact Hday.
Qed.

(** ** Reading a decimal text *)

Lemma string_app_nil_r (s : string) : (s ++ EmptyString)%string = s.
Proof. induction s as [|c s IH]; [done|]. by rewrite string_app_cons, IH. Qed.

Lemma digits_before_point (s t : string) (z : Z) :
  digitsValue s = Some z →
  beforePoint (s ++ t)%string = (s ++ beforePoint t)%string
  ∧ afterPoint (s ++ t)%string = afterPoint t.
Proof.
  revert z. induction s as [|c s IH]; intros z; [done|].
  unfold digitsValue. simpl NilEmpty.uint_of_string.
  destruct (NilEmpty.uint_of_string s) as [d|] eqn:Hs; [|done].
  destruct (uint_of_char c (Some d)) as [d'|] eqn:Hc; [|done]. intros _.
  rewrite !string_app_cons.
  assert (Hs' : digitsValue s = Some (Z.of_uint d)) by (unfold digitsValue; by rewrite Hs).
  destruct (IH _ Hs') as [IHb IHa].
  assert (Hpoint : Ascii.eqb c "." = false).
  { apply uint_of_char_spec in Hc.
    destruct Hc as [[-> _]|[[-> _]|[[-> _]|[[-> _]|[[-> _]|[[-> _]|[[-> _]|[[-> _]|[[-> _]|[-> _]]]]]]]]]];
      reflexivity. }
  simpl. rewrite Hpoint, IHb, IHa. done.
Qed.

Lemma show_Z_digits (z : Z) :
  0 ≤ z → ∃ c s, show_Z z = String c s ∧ c ≠ "-"%char ∧ digitsValue (String c s) = Some z.
Proof.
  intros Hz. pose proof (digitsValue_show_Z z Hz) as Hv.
  destruct (show_Z z) as [|c s] eqn:Hshow.
  - destruct z as [|p|p]; [done| |lia]. exfalso.
    unfold show_Z in Hshow. simpl in Hshow.
    pose proof (DecimalPos.Unsigned.to_uint_nonnil p) as Hnil.
    destruct (Pos.to_uint p); try done; try (simpl in Hshow; discriminate).
  - exists c, s. split; [done|]. split; [|done]. intros ->.
    by rewrite digitsValue_sign in Hv by auto.
Qed.

Lemma readTenths_unsigned (c : ascii) (s : string) :
  c ≠ "-"%char → readTenths (String c s) = readUnsignedTenths (String c s).
Proof.
  intros Hc. by destruct c as [[] [] [] [] [] [] [] []].
Qed.

Lemma readUnsignedTenths_whole (q : Z) :
  0 ≤ q → readUnsignedTenths (show_Z q) = Some (10 * q).
Proof.
  intros Hq. destruct (show_Z_digits q Hq) as (c & s & Hshow & _ & Hv). rewrite Hshow.
  destruct (digits_before_point (String c s) EmptyString q Hv) as [Hb Ha].
  rewrite string_app_nil_r in Hb, Ha. simpl beforePoint in Hb at 2.
  rewrite string_app_nil_r in Hb. simpl afterPoint in Ha at 2.
  unfold readUnsignedTenths. rewrite Hb, Ha. unfold readDigits. by rewrite Hv.
Qed.

Lemma readUnsignedTenths_point (q r : Z) :
  0 ≤ q → 1 ≤ r ≤ 9 →
  readUnsignedTenths (show_Z q ++ "." ++ show_Z r)%string = Some (10 * q + r).
Proof.
  intros Hq Hr. destruct (show_Z_digits q Hq) as (c & s & Hshow & _ & Hv). rewrite Hshow.
  destruct (digits_before_point (String c s) ("." ++ show_Z r)%string q Hv) as [Hb Ha].
  rewrite !string_app_cons, !string_app_nil in Hb, Ha.
  simpl beforePoint in Hb at 2. simpl afterPoint in Ha at 2.
  rewrite <- string_app_cons in Hb, Ha. rewrite string_app_nil_r in Hb.
  unfold readUnsignedTenths. rewrite !string_app_cons, !string_app_nil.
  rewrite <- string_app_cons. rewrite Hb, Ha. unfold readDigits. rewrite Hv.
  assert (Hcases : r = 1 ∨ r = 2 ∨ r = 3 ∨ r = 4 ∨ r = 5 ∨ r = 6 ∨ r = 7 ∨ r = 8 ∨ r = 9)
    by lia.
  destruct Hcases as [->|[->|[->|[->|[->|[->|[->|[->| ->]]]]]]]]; reflexivity.
Qed.

Lemma readUnsignedTenths_show (a : Z) :
  0 ≤ a →
  readUnsignedTenths
    (show_Z (a / 10)%Z
     ++ (if (a mod 10 =? 0)%Z then "" else "." ++ show_Z (a mod 10)%Z))%string
  = Some a.
Proof.
  intros Ha. destruct (Z.eqb_spec (a mod 10) 0) as [Hzero|Hrest].
  - rewrite string_app_nil_r, readUnsignedTenths_whole by lia. f_equal. lia.
  - rewrite readUnsignedTenths_point by lia. f_equal. lia.
Qed.

Lemma readTenths_show_tenths (n : Z) : readTenths (show_tenths n) = Some n.
Proof.
  unfold show_tenths. cbv zeta.
  pose proof (readUnsignedTenths_show (Z.abs n) ltac:(lia)) as Hread.
  destruct (Z.ltb_spec n 0) as [Hneg|Hpos].
  - rewrite string_app_cons, string_app_nil.
    change (readTenths (String "-" ?s)) with (Z.opp <$> readUnsignedTenths s).
    rewrite Hread. simpl. f_equal. lia.
  - rewrite string_app_nil.
    destruct (show_Z_digits (Z.abs n / 10) ltac:(lia)) as (c & s & Hshow & Hc & _).
    rewrite Hshow in *. rewrite string_app_cons in *.
    rewrite readTenths_unsigned by done. rewrite Hread. f_equal. lia.
Qed.

(** ** Percentage deltas: the claim *)

Lemma calculateChange_reads (curr prev : Qc) :
  percentDeltaReads curr prev (calculateChange curr prev).
Proof.
  unfold percentDeltaReads, calculateChange. split; [|split].
  - intros -> Hcurr. rewrite (proj2 (Qc_eqb_eq _ _) eq_refl).
    by rewrite (proj2 (Qc_ltb_lt _ _) Hcurr).
  - intros -> ->. by rewrite (proj2 (Qc_eqb_eq _ _) eq_refl).
  - intros Hprev. destruct (Qc_eqb prev (Qc_of_Z 0)) eqn:Heq.
    { by apply Qc_eqb_eq in Heq. }
    fold (percentChange curr prev). rewrite Number_toString_round1.
    exists (show_tenths (Math_round (percentChange curr prev * Qc_of_Z 10))),
      (Math_round (percentChange curr prev * Qc_of_Z 10)).
    split; [apply readTenths_show_tenths|].
    split; [apply round1_roundedToTenth|]. split.
    + intros Hsign. by rewrite (proj2 (Qc_leb_le _ _) Hsign).
    + intros Hsign. destruct (Qc_leb (Qc_of_Z 0) (percentChange curr prev)) eqn:Hleb; [|done].
      apply Qc_leb_le in Hleb. by apply Qcle_not_lt in Hleb.
Qed.

(** C5. Each of the three percentage-delta texts of calculateComparison
    (totalHours, manHours, averageOccupancy) is, when the previous value is
    not 0, a number followed by "%" that reads as the percentage
    (curr - prev) / prev * 100 rounded to one decimal place (a number of
    tenths at most half a tenth away from it), with a leading "+" exactly
    when the percentage is not negative; it is the text "+∞%" when the
    previous value is 0 and the current one positive, and "0%" when both
    are 0.  calculateComparison is total: no input makes it fail. *)
Theorem C5_percentage_delta (current previous : TotalStats.t) :
  percentDeltaReads (TotalStats.totalHours current) (TotalStats.totalHours previous)
    (Comparison.totalHoursChange (calculateComparison current previous))
  ∧ percentDeltaReads (TotalStats.manHours current) (TotalStats.manHours previous)
      (Comparison.manHoursChange (calculateComparison current previous))
  ∧ percentDeltaReads (TotalStats.averageOccupancy current)
      (TotalStats.averageOccupancy previous)
      (Comparison.averageOccupancyChange (calculateComparison current previous)).
Proof. repeat split; apply calculateChange_reads. Qed.

(** The reading of a text is independent of how the program prints. *)
Example readTenths_examples :
  readTenths "-61.3" = Some (-613)
  ∧ readTenths "100" = Some 1000
  ∧ readTenths "-0.5" = Some (-5)
  ∧ readTenths "0" = Some 0
  ∧ readTenths "" = None
  ∧ readTenths "1.25" = None
  ∧ readTenths "+3" = None.
Proof. repeat split; reflexivity. Qed.

(** ** Order of the records: the claim *)

Lemma filter_perm {A : Type} (p : A → bool) (l l' : list A) :
  l ≡ₚ l' → List.filter p l ≡ₚ List.filter p l'.
Proof.
  induction 1 as [|x l l' _ IH|x y l|l l' l'' _ IH1 _ IH2]; simpl.
  - done.
  - destruct (p x); [by constructor|done].
  - destruct (p x), (p y); try done. apply perm_swap.
  - by etrans.
Qed.

Lemma bucketOf_sameMembers (us us' : list User.t) :
  us ≡ₚ us' →
  match bucketOf us, bucketOf us' with
  | Some bucket, Some bucket' => sameMembers bucket bucket'
  | None, None => True
  | _, _ => False
  end.
Proof.
  intros Hperm. destruct us as [|u us], us' as [|u' us']; simpl.
  - done.
  - by apply Permutation_nil_cons in Hperm.
  - symmetry in Hperm. by apply Permutation_nil_cons in Hperm.
  - unfold sameMembers. simpl. rewrite !sumInOrder_sumList.
    split; [|done]. apply Permutation_length in Hperm. simpl in Hperm. lia.
Qed.

(** C4, as the code has it.  For every list of input records and every
    permutation of it, calculateHourlyOccupancy materializes the same
    buckets and the same days.  A bucket has the same count and the same
    members in both results, the member list being in the order in which
    the records were read; a day has the same totalSessions and
    uniqueUsers.  The totalMinutes of a bucket is the sum of the durations
    of its members, and the totalHours of a day the sum of the stays of the
    visits of that day, each accumulated in reading order: sums of the same
    terms in both results, taken in two orders. *)
Theorem C4_aggregation_order (tz : Z) (records records' : list Row.t) :
  records ≡ₚ records' →
  let data := calculateHourlyOccupancy tz records in
  let data' := calculateHourlyOccupancy tz records' in
  (∀ key, match MonthData.hourlyOccupancy data !! key,
                MonthData.hourlyOccupancy data' !! key with
          | Some bucket, Some bucket' => sameMembers bucket bucket'
          | None, None => True
          | _, _ => False
          end)
  ∧ (∀ day, visitsOn day records ≡ₚ visitsOn day records'
            ∧ match MonthData.dailyStats data !! day, MonthData.dailyStats data' !! day with
              | Some d, Some d' =>
                  DailyStat.totalSessions d = DailyStat.totalSessions d'
                  ∧ DailyStat.uniqueUsers d = DailyStat.uniqueUsers d'
                  ∧ DailyStat.totalHours d = sumInOrder stayHours (visitsOn day records)
                  ∧ DailyStat.totalHours d' = sumInOrder stayHours (visitsOn day records')
              | None, None => True
              | _, _ => False
              end).
Proof.
  intros Hperm data data'. split.
  - intros key. subst data data'. simpl. rewrite !accumulate_buckets.
    apply bucketOf_sameMembers. by apply Permutation_flat_map.
  - intros day.
    assert (Hvisits : visitsOn day records ≡ₚ visitsOn day records')
      by by apply filter_perm.
    split; [done|]. subst data data'. simpl.
    rewrite !lookup_fmap, !accumulate_days, !visitsOf_visitsOn, !dayOf_rows.
    destruct (visitsOn day records) as [|r l], (visitsOn day records') as [|r' l']; simpl.
    + done.
    + by apply Permutation_nil_cons in Hvisits.
    + symmetry in Hvisits. by apply Permutation_nil_cons in Hvisits.
    + rewrite !sumInOrder_sumList. split; [|split; [|done]].
      * apply Permutation_length in Hvisits. simpl in Hvisits. lia.
      * f_equal. f_equal.
        change (list_to_set (Row.customerName <$> r :: l)
                = (list_to_set (Row.customerName <$> r' :: l') : gset string)).
        by rewrite Hvisits.
Qed.

(** Two customers in the same hour, read in either order. *)
Lemma C4_aggregation_order_witness :
  let a := Row.mk "A" 0 (Some 600000) (0, 10, 0) in
  let b := Row.mk "B" 0 (Some 1200000) (0, 20, 0) in
  let data := calculateHourlyOccupancy 0 [a; b] in
  let data' := calculateHourlyOccupancy 0 [b; a] in
  (∀ key, match MonthData.hourlyOccupancy data !! key,
                MonthData.hourlyOccupancy data' !! key with
          | Some bucket, Some bucket' => sameMembers bucket bucket'
          | None, None => True
          | _, _ => False
          end)
  ∧ (∀ day, visitsOn day [a; b] ≡ₚ visitsOn day [b; a]
            ∧ match MonthData.dailyStats data !! day, MonthData.dailyStats data' !! day with
              | Some d, Some d' =>
                  DailyStat.totalSessions d = DailyStat.totalSessions d'
                  ∧ DailyStat.uniqueUsers d = DailyStat.uniqueUsers d'
                  ∧ DailyStat.totalHours d = sumInOrder stayHours (visitsOn day [a; b])
                  ∧ DailyStat.totalHours d' = sumInOrder stayHours (visitsOn day [b; a])
              | None, None => True
              | _, _ => False
              end).
Proof.
  intros a b. apply (C4_aggregation_order 0 [a; b] [b; a]). apply perm_swap.
Defined.

(** C4 as stated fails: with two customers in the same hour the member
    list of the bucket follows the order of the records. *)
Lemma C4_counterexample :
  ¬ (∀ (tz : Z) (records records' : list Row.t),
       records ≡ₚ records' →
       MonthData.hourlyOccupancy (calculateHourlyOccupancy tz records)
       = MonthData.hourlyOccupancy (calculateHourlyOccupancy tz records')
       ∧ MonthData.dailyStats (calculateHourlyOccupancy tz records)
         = MonthData.dailyStats (calculateHourlyOccupancy tz records')).
Proof.
  intros H.
  destruct (H 0 [Row.mk "A" 0 (Some 600000) (0, 10, 0);
                 Row.mk "B" 0 (Some 1200000) (0, 20, 0)]
              [Row.mk "B" 0 (Some 1200000) (0, 20, 0);
               Row.mk "A" 0 (Some 600000) (0, 10, 0)] (perm_swap _ _ _)) as [Hb _].
  apply (f_equal (λ m, (λ b, User.name <$> Bucket.users b) <$> m !! "1970-01-01-00")) in Hb.
  vm_compute in Hb. discriminate Hb.
Qed.
